(** * InputFile: the tile-row cache behind the scan-line read interface

    A shallow embedding of [OpenEXR/IlmImf/ImfInputFile.cpp]: the session
    data [InputFile::Data], [bufferedReadPixels], and the facade operations
    [setFrameBuffer], [frameBuffer] and [readPixels].

    Conventions.
    - A C++ [int] is a [Z]; the arithmetic that selects the tile rows is
      reduced with [wrap] (two's complement, 32 bits).
    - A [char*] is a pair of an allocation (block) and a byte offset; every
      [new T[n]] yields a fresh block.
    - [std::map] containers ([FrameBuffer], [ChannelList]) are association
      lists kept in key order, because the code iterates over them.
    - A function that can throw returns an [Outcome]: the state reached and
      either a value or the exception that escaped. *)

From Stdlib Require Import ZArith List String Bool Lia.
From Stdlib Require Import Init.Byte.
Import ListNotations.
Local Open Scope string_scope.
Local Open Scope list_scope.
Local Open Scope Z_scope.

(** ** Machine integers *)

Definition int_modulus : Z := 4294967296.
Definition int_half : Z := 2147483648.

(** The value an [int] computation takes after reduction to 32 bits. *)
Definition wrap (z : Z) : Z := (z + int_half) mod int_modulus - int_half.

Definition in_int (z : Z) : Prop := - int_half <= z < int_half.

(** The integers [a, a+1, ..., b] in increasing order (empty when [b < a]):
    the values taken by the control variable of [for (v = a; v <= b; ++v)],
    for [b] below the largest [int]. *)
Definition zrange (a b : Z) : list Z :=
  map (fun i => a + Z.of_nat i) (seq 0 (Z.to_nat (b - a + 1))).

(** ** Pixel types, pointers and slices *)

(** Modelled from the spec: the declaration of [enum PixelType] is not
    among the sources.  The element types are [UINT], [HALF] and [FLOAT];
    the code switches on these three and has a [default:] branch, and
    [OtherType] stands for the remaining values of the enumeration's
    underlying integer. *)
Inductive PixelType : Type :=
| UINT
| HALF
| FLOAT
| OtherType (code : Z).

Definition PixelType_eqb (a b : PixelType) : bool :=
  match a, b with
  | UINT, UINT | HALF, HALF | FLOAT, FLOAT => true
  | OtherType x, OtherType y => Z.eqb x y
  | _, _ => false
  end.

(** [sizeof] of the element type behind each recognised pixel type:
    [unsigned int], [half], [float]. *)
Definition elementSize (ty : PixelType) : option Z :=
  match ty with
  | UINT => Some 4
  | HALF => Some 2
  | FLOAT => Some 4
  | OtherType _ => None
  end.

Definition knownType (ty : PixelType) : Prop := elementSize ty <> None.

Definition block : Type := positive.

Module Ptr.
Record t : Type := mk { blk : block; off : Z }.
Definition add (p : t) (n : Z) : t := mk (blk p) (off p + n).
End Ptr.

(** Modelled from the spec: the declaration of [Slice] is not among the
    sources.  A slice is a type, a base address and the two strides in
    bytes; pixel [(x, y)] is at [base + y * yStride + x * xStride]. *)
Module Slice.
Record t : Type := mk {
  type : PixelType;
  base : Ptr.t;
  xStride : Z;
  yStride : Z
}.
End Slice.

Module Box2i.
Record t : Type := mk { min_x : Z; min_y : Z; max_x : Z; max_y : Z }.
End Box2i.

(** ** FrameBuffer and ChannelList: maps ordered by name

    Modelled from the spec: the classes [FrameBuffer] and [ChannelList] are
    not among the sources.  Each is a map from channel names, unique keys,
    to slices or channels, with insertion, lookup by name and iteration in
    name order. *)

Definition NameMap (A : Type) : Type := list (string * A).

Fixpoint find {A : Type} (name : string) (m : NameMap A) : option A :=
  match m with
  | [] => None
  | (n, a) :: rest => if String.eqb name n then Some a else find name rest
  end.

(** [insert] puts the entry at its place in name order and replaces an
    entry of the same name. *)
Fixpoint insert {A : Type} (name : string) (a : A) (m : NameMap A) : NameMap A :=
  match m with
  | [] => [(name, a)]
  | (n, a') :: rest =>
      match String.compare name n with
      | Lt => (name, a) :: m
      | Eq => (name, a) :: rest
      | Gt => (n, a') :: insert name a rest
      end
  end.

Definition names {A : Type} (m : NameMap A) : list string := map fst m.

Definition hasName {A : Type} (name : string) (m : NameMap A) : bool :=
  match find name m with Some _ => true | None => false end.

Definition FrameBuffer : Type := NameMap Slice.t.

Module Channel.
Record t : Type := mk { type : PixelType }.
End Channel.

Definition ChannelList : Type := NameMap Channel.t.

(** Modelled from the spec: [LineOrder] and [Header] are declared outside
    the sources.  The line order is increasing, decreasing or unordered;
    of the header the code uses the channel list, the data window and the
    line order. *)
Inductive LineOrder : Type := INCREASING_Y | DECREASING_Y | RANDOM_Y.

Module Header.
Record t : Type := mk {
  channels : ChannelList;
  dataWindow : Box2i.t;
  lineOrder : LineOrder
}.
End Header.

(** ** The heap *)

Definition Bytes : Type := block -> Z -> byte.

Module Heap.
Record t : Type := mk {
  bytes : Bytes;
  live : block -> bool;
  size : block -> Z;
  next : block
}.
End Heap.

Definition load (m : Bytes) (p : Ptr.t) : byte := m (Ptr.blk p) (Ptr.off p).

Definition store (m : Bytes) (p : Ptr.t) (v : byte) : Bytes :=
  fun b o => if Pos.eqb b (Ptr.blk p) && Z.eqb o (Ptr.off p) then v else m b o.

(** [new T[n]]: a fresh live block; the pointer returned is its start.  The
    contents of the new block are whatever [bytes] holds there.  Running
    out of memory is not modelled. *)
Definition new_array (nbytes : Z) (h : Heap.t) : Ptr.t * Heap.t :=
  let b := Heap.next h in
  (Ptr.mk b 0,
   Heap.mk (Heap.bytes h)
           (fun b' => if Pos.eqb b' b then true else Heap.live h b')
           (fun b' => if Pos.eqb b' b then nbytes else Heap.size h b')
           (Pos.succ b)).

(** [delete [] p]: releases the block [p] is the start of.  Any other
    pointer is outside the language's rules; the heap is then left as it
    is. *)
Definition delete_array (p : Ptr.t) (h : Heap.t) : Heap.t :=
  if Z.eqb (Ptr.off p) 0
  then Heap.mk (Heap.bytes h)
               (fun b' => if Pos.eqb b' (Ptr.blk p) then false else Heap.live h b')
               (Heap.size h)
               (Heap.next h)
  else h.

(** ** The backing decoders *)

(** What one [readTile] call does to pixel memory: the tile is decoded into
    the slices of the installed frame buffer, or the call throws. *)
Inductive TileResult : Type :=
| TileOk (m : Bytes)
| TileErr (msg : string) (m : Bytes).

(** [TiledInputFile], seen through the members this file calls.  The tile
    geometry and the decoding are the collaborator's and are left open;
    [frameBuffer] is the one frame buffer installed on it. *)
Module TiledInputFile.
Record t : Type := mk {
  tileYSize : Z;
  levelWidth : Z -> Z;
  numXTiles : Z -> Z;
  dataWindowForTile : Z -> Z -> Z -> Box2i.t;
  dataWindowForLevel : Z -> Box2i.t;
  decode : FrameBuffer -> Z -> Z -> Z -> Bytes -> TileResult;
  frameBuffer : FrameBuffer
}.

(** Modelled from the spec: [TiledInputFile::setFrameBuffer] is not among
    the sources.  Exactly one frame buffer is installed on a decoder at a
    time, and installing a new one replaces the old. *)
Definition setFrameBuffer (fb : FrameBuffer) (f : t) : t :=
  mk (tileYSize f) (levelWidth f) (numXTiles f) (dataWindowForTile f)
     (dataWindowForLevel f) (decode f) fb.
End TiledInputFile.

(** [ScanLineInputFile]: the calls of the facade are passed on to it. *)
Module ScanLineInputFile.
Record t : Type := mk {
  decodeLines : FrameBuffer -> Z -> Z -> Bytes -> TileResult;
  frameBuffer : FrameBuffer
}.

(** Modelled from the spec: [ScanLineInputFile::setFrameBuffer] is not
    among the sources; installing a frame buffer replaces the old one. *)
Definition setFrameBuffer (fb : FrameBuffer) (f : t) : t :=
  mk (decodeLines f) fb.
End ScanLineInputFile.

(** ** InputFile::Data *)

Module Data.
Record t : Type := mk {
  fileName : string;
  header : Header.t;
  version : Z;
  tFile : option TiledInputFile.t;
  sFile : option ScanLineInputFile.t;
  lineOrder : LineOrder;
  minY : Z;
  maxY : Z;
  cachedBuffer : option FrameBuffer;
  cachedTileY : Z;
  offset : Z
}.

Definition set_tFile (f : option TiledInputFile.t) (d : t) : t :=
  mk (fileName d) (header d) (version d) f (sFile d) (lineOrder d)
     (minY d) (maxY d) (cachedBuffer d) (cachedTileY d) (offset d).

Definition set_sFile (f : option ScanLineInputFile.t) (d : t) : t :=
  mk (fileName d) (header d) (version d) (tFile d) f (lineOrder d)
     (minY d) (maxY d) (cachedBuffer d) (cachedTileY d) (offset d).

Definition set_cachedBuffer (c : option FrameBuffer) (d : t) : t :=
  mk (fileName d) (header d) (version d) (tFile d) (sFile d) (lineOrder d)
     (minY d) (maxY d) c (cachedTileY d) (offset d).

Definition set_cachedTileY (y : Z) (d : t) : t :=
  mk (fileName d) (header d) (version d) (tFile d) (sFile d) (lineOrder d)
     (minY d) (maxY d) (cachedBuffer d) y (offset d).

Definition set_offset (o : Z) (d : t) : t :=
  mk (fileName d) (header d) (version d) (tFile d) (sFile d) (lineOrder d)
     (minY d) (maxY d) (cachedBuffer d) (cachedTileY d) o.

(** [fileName], [header] and [version], which the constructor fills in
    first. *)
Definition set_file (n : string) (h : Header.t) (v : Z) (d : t) : t :=
  mk n h v (tFile d) (sFile d) (lineOrder d)
     (minY d) (maxY d) (cachedBuffer d) (cachedTileY d) (offset d).

(** [lineOrder], [minY] and [maxY], which the constructor sets for a tiled
    file. *)
Definition set_window (lo : LineOrder) (y0 y1 : Z) (d : t) : t :=
  mk (fileName d) (header d) (version d) (tFile d) (sFile d) lo
     y0 y1 (cachedBuffer d) (cachedTileY d) (offset d).
End Data.

(** ** Program states and the exception monad *)

(** A [readTile] call issued to the tiled decoder: [(dx, dy, level)]. *)
Inductive Event : Type :=
| EvReadTile (dx dy l : Z).

Record World : Type := mkWorld {
  ifd : Data.t;
  heap : Heap.t;
  log : list Event
}.

Definition set_ifd (d : Data.t) (w : World) : World := mkWorld d (heap w) (log w).
Definition set_heap (h : Heap.t) (w : World) : World := mkWorld (ifd w) h (log w).
Definition set_bytes (m : Bytes) (w : World) : World :=
  set_heap (Heap.mk m (Heap.live (heap w)) (Heap.size (heap w)) (Heap.next (heap w))) w.
Definition add_log (e : Event) (w : World) : World :=
  mkWorld (ifd w) (heap w) (log w ++ [e]).

Inductive Exc : Type :=
| ArgExc (msg : string)      (* Iex::ArgExc *)
| TileExc (msg : string)     (* whatever escapes from a decoder call *)
| NullPointer.               (* a null [tFile], [sFile] or [cachedBuffer] dereferenced *)

Inductive Outcome (A : Type) : Type :=
| Ok (a : A) (w : World)
| Throw (e : Exc) (w : World).
Arguments Ok {A} a w.
Arguments Throw {A} e w.

Definition M (A : Type) : Type := World -> Outcome A.

Definition ret {A : Type} (a : A) : M A := fun w => Ok a w.
Definition throw {A : Type} (e : Exc) : M A := fun w => Throw e w.
Definition bind {A B : Type} (m : M A) (k : A -> M B) : M B :=
  fun w => match m w with
           | Ok a w' => k a w'
           | Throw e w' => Throw e w'
           end.
Definition modify (f : World -> World) : M unit := fun w => Ok tt (f w).

Notation "x <- m ;; k" := (bind m (fun x => k))
  (at level 61, m at next level, right associativity).
Notation "m ;; k" := (bind m (fun _ => k))
  (at level 61, right associativity).

(** [for (x : xs) body(x)], stopping at the first exception. *)
Fixpoint forEach {A : Type} (body : A -> M unit) (xs : list A) : M unit :=
  match xs with
  | [] => ret tt
  | x :: rest => body x ;; forEach body rest
  end.

Definition finalWorld {A : Type} (o : Outcome A) : World :=
  match o with Ok _ w => w | Throw _ w => w end.

(** ** Calls on the tiled decoder *)

Definition getTFile : M TiledInputFile.t :=
  fun w => match Data.tFile (ifd w) with
           | Some f => Ok f w
           | None => Throw NullPointer w
           end.

Definition getCachedBuffer : M FrameBuffer :=
  fun w => match Data.cachedBuffer (ifd w) with
           | Some cb => Ok cb w
           | None => Throw NullPointer w
           end.

(** [ifd->tFile->setFrameBuffer (fb)] *)
Definition tFile_setFrameBuffer (fb : FrameBuffer) : M unit :=
  f <- getTFile ;;
  modify (fun w =>
    set_ifd (Data.set_tFile (Some (TiledInputFile.setFrameBuffer fb f)) (ifd w)) w).

(** [ifd->tFile->readTile (dx, dy, l)]: the call is recorded, then the tile
    is decoded into the frame buffer installed at that moment. *)
Definition tFile_readTile (dx dy l : Z) : M unit :=
  f <- getTFile ;;
  fun w =>
    let w1 := add_log (EvReadTile dx dy l) w in
    match TiledInputFile.decode f (TiledInputFile.frameBuffer f) dx dy l
            (Heap.bytes (heap w1)) with
    | TileOk m => Ok tt (set_bytes m w1)
    | TileErr msg m => Throw (TileExc msg) (set_bytes m w1)
    end.

(** Modelled from the spec: [pixelTypeSize] (ImfMisc) is not among the
    sources.  It is the byte width of an element of the given type; for a
    type outside the three recognised ones it throws, as the [default:]
    branch of this file's own switch does. *)
Definition pixelTypeSize (ty : PixelType) : M Z :=
  match elementSize ty with
  | Some n => ret n
  | None => throw (ArgExc "Unknown pixel type.")
  end.

(** Modelled from the spec: [FrameBuffer::operator[]] is not among the
    sources.  It is the lookup by name; a name that is not in the frame
    buffer is reported to the caller as an error. *)
Definition FrameBuffer_at (fb : FrameBuffer) (name : string) : M Slice.t :=
  match find name fb with
  | Some s => ret s
  | None => throw (ArgExc "Cannot find frame buffer slice.")
  end.

(** ** Releasing and allocating the cached tile row *)

(** The [switch] of the two release loops: [s.base], taken as a pointer to
    elements of the slice's type, is advanced by [offset] elements and the
    array that starts there is deleted. *)
Definition deleteSlice (offset : Z) (s : Slice.t) (h : Heap.t) : Heap.t :=
  match Slice.type s with
  | UINT => delete_array (Ptr.add (Slice.base s) (4 * offset)) h
  | HALF => delete_array (Ptr.add (Slice.base s) (2 * offset)) h
  | FLOAT => delete_array (Ptr.add (Slice.base s) (4 * offset)) h
  | OtherType _ => h
  end.

Definition deleteSlices (offset : Z) (fb : FrameBuffer) (h : Heap.t) : Heap.t :=
  fold_left (fun h' k => deleteSlice offset (snd k) h') fb h.

(** [if (ifd->cachedBuffer) { ...delete the slices...; delete ifd->cachedBuffer; }] *)
Definition releaseCachedBuffer (w : World) : World :=
  set_heap (match Data.cachedBuffer (ifd w) with
            | Some cb => deleteSlices (Data.offset (ifd w)) cb (heap w)
            | None => heap w
            end) w.

(** [ifd->cachedBuffer->insert (name, s)] *)
Definition insertCached (name : string) (s : Slice.t) : M unit :=
  cb <- getCachedBuffer ;;
  modify (fun w =>
    set_ifd (Data.set_cachedBuffer (Some (insert name s cb)) (ifd w)) w).

(** One case of the allocation switch: a new array of [tileRowSize]
    elements is allocated, and the slice inserted under [name] has its base
    [offset] elements before the start of that array, [xStride = sizeof (T)]
    and [yStride = sizeof (T) * levelWidth(0)]. *)
Definition allocSlice (name : string) (ty : PixelType) (sz tileRowSize lw : Z)
  : M unit :=
  fun w =>
    let (p, h) := new_array (sz * tileRowSize) (heap w) in
    insertCached name
      (Slice.mk ty (Ptr.add p (- (sz * Data.offset (ifd w)))) sz (sz * lw))
      (set_heap h w).

(** The loop over the user's frame buffer that fills [cachedBuffer]. *)
Fixpoint allocSlices (tileRowSize lw : Z) (oldBuffer : FrameBuffer) : M unit :=
  match oldBuffer with
  | [] => ret tt
  | (name, s) :: rest =>
      match Slice.type s with
      | UINT => allocSlice name UINT 4 tileRowSize lw ;;
                allocSlices tileRowSize lw rest
      | HALF => allocSlice name HALF 2 tileRowSize lw ;;
                allocSlices tileRowSize lw rest
      | FLOAT => allocSlice name FLOAT 4 tileRowSize lw ;;
                 allocSlices tileRowSize lw rest
      | OtherType _ => throw (ArgExc "Unknown pixel data type.")
      end
  end.

(** [for (int i = 0; i < numXTiles(0); ++i) readTile (i, j, 0);] *)
Definition readTileRow (j : Z) : M unit :=
  f <- getTFile ;;
  forEach (fun i => tFile_readTile i j 0)
          (zrange 0 (TiledInputFile.numXTiles f 0 - 1)).

(** ** The copy phase *)

(** [for (i = 0; i < size; ++i) toPtr[i] = fromPtr[i];] *)
Definition copyPixel (size : Z) (fromPtr toPtr : Ptr.t) (m : Bytes) : Bytes :=
  fold_left (fun m' i => store m' (Ptr.add toPtr i) (load m' (Ptr.add fromPtr i)))
            (zrange 0 (size - 1)) m.

(** One scan line: both pointers start at [levelRange.min.x] and advance by
    the slice's own [xStride] after each pixel. *)
Definition copyScanLine (size : Z) (fromSlice toSlice : Slice.t)
    (levelRange : Box2i.t) (m : Bytes) (y : Z) : Bytes :=
  let fromPtr := Ptr.add (Slice.base fromSlice)
                   (y * Slice.yStride fromSlice
                    + Box2i.min_x levelRange * Slice.xStride fromSlice) in
  let toPtr := Ptr.add (Slice.base toSlice)
                 (y * Slice.yStride toSlice
                  + Box2i.min_x levelRange * Slice.xStride toSlice) in
  snd (fold_left
         (fun st _ =>
            let '(fp, tp) := fst st in
            ((Ptr.add fp (Slice.xStride fromSlice),
              Ptr.add tp (Slice.xStride toSlice)),
             copyPixel size fp tp (snd st)))
         (zrange (Box2i.min_x levelRange) (Box2i.max_x levelRange))
         ((fromPtr, toPtr), m)).

(** The body of the loop over the channels of [cachedBuffer]. *)
Definition copyChannel (oldBuffer : FrameBuffer) (levelRange : Box2i.t)
    (minYThisRow maxYThisRow : Z) (k : string * Slice.t) : M unit :=
  let fromSlice := snd k in
  toSlice <- FrameBuffer_at oldBuffer (fst k) ;;
  size <- pixelTypeSize (Slice.type toSlice) ;;
  modify (fun w =>
    set_bytes (fold_left (copyScanLine size fromSlice toSlice levelRange)
                         (zrange minYThisRow maxYThisRow)
                         (Heap.bytes (heap w))) w).

Definition copyPhase (oldBuffer : FrameBuffer) (minYThisRow maxYThisRow : Z)
  : M unit :=
  f <- getTFile ;;
  let levelRange := TiledInputFile.dataWindowForLevel f 0 in
  cb <- getCachedBuffer ;;
  forEach (copyChannel oldBuffer levelRange minYThisRow maxYThisRow) cb.

(** ** bufferedReadPixels *)

(** The header of the loop over tile rows:
    [for (int j = yStart; j != yEnd; j += yStep)]. *)
Definition loopBounds (lo : LineOrder) (minDy maxDy : Z) : Z * Z * Z :=
  match lo with
  | DECREASING_Y => (maxDy, wrap (minDy - 1), -1)
  | _ => (minDy, wrap (maxDy + 1), 1)
  end.

(** Number of times [j += yStep] must run, on 32 bits, before [j] is
    [yEnd] for the first time ([yStep] is [1] or [-1]). *)
Definition tripCount (yStart yEnd yStep : Z) : nat :=
  Z.to_nat (((yEnd - yStart) * yStep) mod int_modulus).

(** The successive values of [j]. *)
Fixpoint rowSeq (n : nat) (j yStep : Z) : list Z :=
  match n with
  | O => []
  | S n' => j :: rowSeq n' (wrap (j + yStep)) yStep
  end.

Definition minDyOf (d : Data.t) (f : TiledInputFile.t) (minY : Z) : Z :=
  wrap (Z.quot (wrap (minY - Data.minY d)) (TiledInputFile.tileYSize f)).

(** The tile rows a call visits, in the order it visits them. *)
Definition tileRowOrder (d : Data.t) (f : TiledInputFile.t)
    (scanLine1 scanLine2 : Z) : list Z :=
  let minY := Z.min scanLine1 scanLine2 in
  let maxY := Z.max scanLine1 scanLine2 in
  let minDy := minDyOf d f minY in
  let maxDy := minDyOf d f maxY in
  let '(yStart, yEnd, yStep) := loopBounds (Data.lineOrder d) minDy maxDy in
  rowSeq (tripCount yStart yEnd yStep) yStart yStep.

(** The branch taken when [j != ifd->cachedTileY]. *)
Definition fillCache (oldBuffer : FrameBuffer) (tileRowSize : Z)
    (tileRange : Box2i.t) (j : Z) : M unit :=
  f <- getTFile ;;
  modify releaseCachedBuffer ;;
  modify (fun w =>
    set_ifd (Data.set_offset
               (wrap (Box2i.min_y tileRange * TiledInputFile.levelWidth f 0
                      + Box2i.min_x tileRange))
               (Data.set_cachedTileY j
                  (Data.set_cachedBuffer (Some []) (ifd w)))) w) ;;
  allocSlices tileRowSize (TiledInputFile.levelWidth f 0) oldBuffer ;;
  cb <- getCachedBuffer ;;
  tFile_setFrameBuffer cb ;;
  readTileRow j.

(** The body of the loop over tile rows. *)
Definition rowBody (oldBuffer : FrameBuffer) (minY maxY tileRowSize : Z) (j : Z)
  : M unit :=
  f <- getTFile ;;
  let tileRange := TiledInputFile.dataWindowForTile f 0 j 0 in
  let minYThisRow := Z.max minY (Box2i.min_y tileRange) in
  let maxYThisRow := Z.min maxY (Box2i.max_y tileRange) in
  (fun w =>
     if negb (Z.eqb j (Data.cachedTileY (ifd w)))
     then fillCache oldBuffer tileRowSize tileRange j w
     else Ok tt w) ;;
  copyPhase oldBuffer minYThisRow maxYThisRow.

Definition rangeError : Exc :=
  ArgExc "Tried to read scan line outside the image file's data window.".

Definition bufferedReadPixels (scanLine1 scanLine2 : Z) : M unit :=
  fun w =>
    let minY := Z.min scanLine1 scanLine2 in
    let maxY := Z.max scanLine1 scanLine2 in
    if (minY <? Data.minY (ifd w)) || (maxY >? Data.maxY (ifd w))
    then Throw rangeError w
    else
      (f <- getTFile ;;
       (* backup the user's framebuffer *)
       let oldBuffer := TiledInputFile.frameBuffer f in
       (* the number of pixels in a row of tiles *)
       let tileRowSize :=
         wrap (TiledInputFile.levelWidth f 0 * TiledInputFile.tileYSize f) in
       forEach (rowBody oldBuffer minY maxY tileRowSize)
               (tileRowOrder (ifd w) f scanLine1 scanLine2) ;;
       (* restore the user's original frameBuffer *)
       tFile_setFrameBuffer oldBuffer) w.

(** ** InputFile::Data: construction and destruction *)

Definition noHeader : Header.t :=
  Header.mk [] (Box2i.mk 0 0 0 0) INCREASING_Y.

(** [Data ()]: null decoders, no cached buffer, [cachedTileY = -1].  The
    members the constructor leaves uninitialised are given a fixed
    value. *)
Definition Data_new : Data.t :=
  Data.mk "" noHeader 0 None None INCREASING_Y 0 0 None (-1) 0.

(** [~Data ()]: the decoders are deleted, then the slices of the cached
    buffer and the cached buffer itself. *)
Definition Data_delete (w : World) : World :=
  set_ifd (Data.set_cachedBuffer None
             (Data.set_sFile None (Data.set_tFile None (ifd w))))
          (releaseCachedBuffer w).

(** ** The InputFile facade *)

Section InputFile.

(** [isTiled] (ImfVersion) tells from the version word whether the file is
    tiled; the layout of the word is not given by the sources, so the test
    is left open. *)
Variable isTiled : Z -> bool.

(** The constructor, once the header and the version have been read from
    the stream; [tf] and [sf] are the decoders it would create. *)
Definition InputFile_new (fileName : string) (hdr : Header.t) (version : Z)
    (tf : TiledInputFile.t) (sf : ScanLineInputFile.t) : Data.t :=
  let d := Data.set_file fileName hdr version Data_new in
  if isTiled version
  then Data.set_tFile (Some tf)
         (Data.set_window (Header.lineOrder hdr)
                          (Box2i.min_y (Header.dataWindow hdr))
                          (Box2i.max_y (Header.dataWindow hdr)) d)
  else Data.set_sFile (Some sf) d.

(** The loop of [setFrameBuffer] over the new frame buffer: the first
    channel that the header does not have, or has with another type,
    resets [cachedTileY] and ends the loop. *)
Fixpoint invalidateOnMismatch (channels : ChannelList) (frameBuffer : FrameBuffer)
    (d : Data.t) : Data.t :=
  match frameBuffer with
  | [] => d
  | (name, s) :: rest =>
      match find name channels with
      | None => Data.set_cachedTileY (-1) d
      | Some c =>
          if negb (PixelType_eqb (Channel.type c) (Slice.type s))
          then Data.set_cachedTileY (-1) d
          else invalidateOnMismatch channels rest d
      end
  end.

Definition sFile_setFrameBuffer (fb : FrameBuffer) : M unit :=
  fun w => match Data.sFile (ifd w) with
           | Some f =>
               Ok tt (set_ifd (Data.set_sFile
                                 (Some (ScanLineInputFile.setFrameBuffer fb f))
                                 (ifd w)) w)
           | None => Throw NullPointer w
           end.

Definition InputFile_setFrameBuffer (frameBuffer : FrameBuffer) : M unit :=
  fun w =>
    if isTiled (Data.version (ifd w))
    then (modify (fun w' =>
            set_ifd (invalidateOnMismatch
                       (Header.channels (Data.header (ifd w'))) frameBuffer
                       (ifd w')) w') ;;
          tFile_setFrameBuffer frameBuffer) w
    else sFile_setFrameBuffer frameBuffer w.

Definition InputFile_frameBuffer : M FrameBuffer :=
  fun w =>
    if isTiled (Data.version (ifd w))
    then (f <- getTFile ;; ret (TiledInputFile.frameBuffer f)) w
    else match Data.sFile (ifd w) with
         | Some f => Ok (ScanLineInputFile.frameBuffer f) w
         | None => Throw NullPointer w
         end.

Definition sFile_readPixels (scanLine1 scanLine2 : Z) : M unit :=
  fun w => match Data.sFile (ifd w) with
           | Some f =>
               match ScanLineInputFile.decodeLines f
                       (ScanLineInputFile.frameBuffer f) scanLine1 scanLine2
                       (Heap.bytes (heap w)) with
               | TileOk m => Ok tt (set_bytes m w)
               | TileErr msg m => Throw (TileExc msg) (set_bytes m w)
               end
           | None => Throw NullPointer w
           end.

Definition InputFile_readPixels (scanLine1 scanLine2 : Z) : M unit :=
  fun w =>
    if isTiled (Data.version (ifd w))
    then bufferedReadPixels scanLine1 scanLine2 w
    else sFile_readPixels scanLine1 scanLine2 w.

(** [readPixels (scanLine)] *)
Definition InputFile_readPixels1 (scanLine : Z) : M unit :=
  InputFile_readPixels scanLine scanLine.

End InputFile.

(** ** Raw access, the decoder accessor and the constructor *)

(** What a call into a collaborator (decoder, header, stream) gives back:
    a value, an exception of the Iex family, which [catch (Iex::BaseExc &)]
    catches, or any other exception. *)
Inductive Callee (A : Type) : Type :=
| Returned (a : A)
| ThrewIex (msg : string)
| ThrewOther (msg : string).
Arguments Returned {A} a.
Arguments ThrewIex {A} msg.
Arguments ThrewOther {A} msg.

Definition dquote : string := String (Ascii.ascii_of_nat 34) EmptyString.

(** The text streamed into the exception by the three handlers of the
    facade: the handler's own words, the file name between double quotes, a
    full stop, and the message the exception had. *)
Definition withFileName (words fileName msg : string) : string :=
  String.append words
    (String.append dquote
       (String.append fileName
          (String.append dquote (String.append ". " msg)))).

(** Modelled from the spec: the macro [REPLACE_EXC] (Iex) is not among the
    sources.  The exception caught is re-raised as it is, of the same
    class, with its message replaced by the text given: the file name
    and the original cause appended. *)
Definition REPLACE_EXC (text : string -> string) (e : Exc) : Exc :=
  match e with
  | ArgExc msg => ArgExc (text msg)
  | TileExc msg => TileExc (text msg)
  | NullPointer => NullPointer
  end.

Definition rawScanLineError : string :=
  "Tried to read a raw scanline from a tiled  image.".
Definition rawTileError : string :=
  "Tried to read a raw tile from a scanline  based image.".
Definition notTiledError : string :=
  "Tried to access a tiled file in an InputFile which is not tiled. ".

Definition pixelDataWords : string := "Error reading pixel data from image file ".
Definition tileDataWords : string := "Error reading tile data from image file ".
Definition cannotReadWords : string := "Cannot read image file ".

(** The outcome of a collaborator's call inside a [try] block whose
    handler is [catch (Iex::BaseExc &e) { REPLACE_EXC (e, text); throw; }]:
    an Iex exception leaves with the new message, any other one as it
    was. *)
Definition tryCallee {A : Type} (text : string -> string) (r : Callee A)
    (w : World) : Outcome A :=
  match r with
  | Returned a => Ok a w
  | ThrewIex msg => Throw (REPLACE_EXC text (TileExc msg)) w
  | ThrewOther msg => Throw (TileExc msg) w
  end.

Section RawAccess.

Variable isTiled : Z -> bool.

(** [ScanLineInputFile::rawPixelData (firstScanLine, pixelData,
    pixelDataSize)]: the two results, and what the call leaves in
    memory. *)
Variable sFile_rawPixelData :
  ScanLineInputFile.t -> Z -> Bytes -> Callee (Ptr.t * Z) * Bytes.

(** [TiledInputFile::rawTileData (dx, dy, lx, ly, pixelData,
    pixelDataSize)]: the six arguments are passed by reference, and
    come back. *)
Variable tFile_rawTileData :
  TiledInputFile.t -> Z * Z * Z * Z -> Bytes ->
  Callee (Z * Z * Z * Z * Ptr.t * Z) * Bytes.

(** [fileName ()], [header ()], [version ()] *)
Definition InputFile_fileName (w : World) : string := Data.fileName (ifd w).
Definition InputFile_header (w : World) : Header.t := Data.header (ifd w).
Definition InputFile_version (w : World) : Z := Data.version (ifd w).

Definition InputFile_rawPixelData (firstScanLine : Z) : M (Ptr.t * Z) :=
  fun w =>
    let text := withFileName pixelDataWords (InputFile_fileName w) in
    if isTiled (Data.version (ifd w))
    then Throw (REPLACE_EXC text (ArgExc rawScanLineError)) w
    else match Data.sFile (ifd w) with
         | None => Throw NullPointer w
         | Some f =>
             let (r, m) := sFile_rawPixelData f firstScanLine (Heap.bytes (heap w)) in
             tryCallee text r (set_bytes m w)
         end.

Definition InputFile_rawTileData (args : Z * Z * Z * Z)
  : M (Z * Z * Z * Z * Ptr.t * Z) :=
  fun w =>
    let text := withFileName tileDataWords (InputFile_fileName w) in
    if negb (isTiled (Data.version (ifd w)))
    then Throw (REPLACE_EXC text (ArgExc rawTileError)) w
    else match Data.tFile (ifd w) with
         | None => Throw NullPointer w
         | Some f =>
             let (r, m) := tFile_rawTileData f args (Heap.bytes (heap w)) in
             tryCallee text r (set_bytes m w)
         end.

(** [tFile ()]: the pointer to the tiled decoder, as it is. *)
Definition InputFile_tFile : M (option TiledInputFile.t) :=
  fun w =>
    let text := withFileName tileDataWords (InputFile_fileName w) in
    if negb (isTiled (Data.version (ifd w)))
    then Throw (REPLACE_EXC text (ArgExc notTiledError)) w
    else Ok (Data.tFile (ifd w)) w.

(** The constructor, with what it calls: opening the stream
    ([throwErrnoExc] when that fails), [Header::readFrom],
    [Header::sanityCheck] and the constructor of the decoder. *)
Variable openStream : string -> Callee unit.
Variable readFrom : string -> Callee (Header.t * Z).
Variable sanityCheck : Header.t -> bool -> Callee unit.
Variable newTiledInputFile : string -> Header.t -> Callee TiledInputFile.t.
Variable newScanLineInputFile : string -> Header.t -> Callee ScanLineInputFile.t.

Definition InputFile_open (fileName : string) : M Data.t :=
  let text := withFileName cannotReadWords fileName in
  bind (fun w => tryCallee text (openStream fileName) w) (fun _ =>
  bind (fun w => tryCallee text (readFrom fileName) w) (fun hv =>
  let hdr := fst hv in
  let version := snd hv in
  bind (fun w => tryCallee text (sanityCheck hdr (isTiled version)) w) (fun _ =>
  let d := Data.set_file fileName hdr version Data_new in
  if isTiled version
  then bind (fun w => tryCallee text (newTiledInputFile fileName hdr) w) (fun tf =>
       ret (Data.set_tFile (Some tf)
              (Data.set_window (Header.lineOrder hdr)
                               (Box2i.min_y (Header.dataWindow hdr))
                               (Box2i.max_y (Header.dataWindow hdr)) d)))
  else bind (fun w => tryCallee text (newScanLineInputFile fileName hdr) w) (fun sf =>
       ret (Data.set_sFile (Some sf) d))))).

End RawAccess.

(** ** Runs of calls *)

Inductive Call : Type :=
| CallSetFrameBuffer (frameBuffer : FrameBuffer)
| CallReadPixels (scanLine1 scanLine2 : Z)
| CallReadPixels1 (scanLine : Z)
| CallFrameBuffer.

Definition runCall (isTiled : Z -> bool) (c : Call) : M unit :=
  match c with
  | CallSetFrameBuffer fb => InputFile_setFrameBuffer isTiled fb
  | CallReadPixels y1 y2 => InputFile_readPixels isTiled y1 y2
  | CallReadPixels1 y => InputFile_readPixels1 isTiled y
  | CallFrameBuffer => bind (InputFile_frameBuffer isTiled) (fun _ => ret tt)
  end.

(** The state after a run of calls by a caller that goes on after a call
    has failed. *)
Fixpoint runCalls (isTiled : Z -> bool) (cs : list Call) (w : World) : World :=
  match cs with
  | [] => w
  | c :: rest => runCalls isTiled rest (finalWorld (runCall isTiled c w))
  end.

(** ** Vocabulary of the statements *)

(** The frame buffer installed on the tiled decoder. *)
Definition installed (w : World) : option FrameBuffer :=
  option_map TiledInputFile.frameBuffer (Data.tFile (ifd w)).

(** A session on a tiled file: the constructor has created [tFile]. *)
Definition tiledSession (isTiled : Z -> bool) (w : World)
    (f : TiledInputFile.t) : Prop :=
  isTiled (Data.version (ifd w)) = true /\ Data.tFile (ifd w) = Some f.

(** Tiles have a positive height and the data window's bounds and height
    are values of type [int]. *)
Definition wfGeometry (d : Data.t) (f : TiledInputFile.t) : Prop :=
  0 < TiledInputFile.tileYSize f /\
  in_int (Data.minY d) /\ in_int (Data.maxY d) /\
  Data.maxY d - Data.minY d < int_half.

Definition inWindow (d : Data.t) (scanLine1 scanLine2 : Z) : Prop :=
  Data.minY d <= Z.min scanLine1 scanLine2 /\
  Z.max scanLine1 scanLine2 <= Data.maxY d.

(** Index of the tile row that holds scan line [y]. *)
Definition rowOf (d : Data.t) (f : TiledInputFile.t) (y : Z) : Z :=
  (y - Data.minY d) / TiledInputFile.tileYSize f.

(** An action leaves the observation [obs] of the state as it was, whether
    it returns or throws. *)
Definition keeps {A X : Type} (obs : World -> X) (m : M A) : Prop :=
  forall w, obs (finalWorld (m w)) = obs w.

(** The [readTile] calls that decode tile row [j]. *)
Definition tilesOfRow (f : TiledInputFile.t) (j : Z) : list Event :=
  map (fun i => EvReadTile i j 0) (zrange 0 (TiledInputFile.numXTiles f 0 - 1)).

(** The channel [k] of a frame buffer disagrees with the channel list. *)
Definition mismatch (channels : ChannelList) (k : string * Slice.t) : Prop :=
  match find (fst k) channels with
  | None => True
  | Some c => Channel.type c <> Slice.type (snd k)
  end.

(** The target channels that the cached buffer has too. *)
Definition restrictTo (cached target : FrameBuffer) : FrameBuffer :=
  filter (fun k => hasName (fst k) cached) target.

(** A cached slice whose base lies [offset] elements before the start of
    its array. *)
Definition ownsArray (offset : Z) (s : Slice.t) : Prop :=
  exists sz, elementSize (Slice.type s) = Some sz /\
             Ptr.off (Slice.base s) + sz * offset = 0.

(** Every slice of the cached buffer owns an array that was allocated
    before. *)
Definition cacheWf (w : World) : Prop :=
  match Data.cachedBuffer (ifd w) with
  | Some cb =>
      Forall (fun k => ownsArray (Data.offset (ifd w)) (snd k) /\
                       (Ptr.blk (Slice.base (snd k)) < Heap.next (heap w))%positive)
             cb
  | None => True
  end.

(** The arrays behind the slices of the cached buffer. *)
Definition cacheBlocks (d : Data.t) : list block :=
  match Data.cachedBuffer d with
  | Some cb => map (fun k => Ptr.blk (Slice.base (snd k))) cb
  | None => []
  end.

Definition unknownTypeError : Exc := ArgExc "Unknown pixel data type.".
Definition unknownSizeError : Exc := ArgExc "Unknown pixel type.".
Definition missingSliceError : Exc := ArgExc "Cannot find frame buffer slice.".

(** The state in which the cached buffer is allocated anew for row [j]:
    the previous one released, the cache fields reset. *)
Definition afterRelease (f : TiledInputFile.t) (tileRange : Box2i.t) (j : Z)
    (w : World) : World :=
  set_ifd (Data.set_offset
             (wrap (Box2i.min_y tileRange * TiledInputFile.levelWidth f 0
                    + Box2i.min_x tileRange))
             (Data.set_cachedTileY j
                (Data.set_cachedBuffer (Some []) (ifd w))))
          (releaseCachedBuffer w).

(** Every channel of the frame buffer has one of the three recognised
    element types. *)
Definition allKnown (fb : FrameBuffer) : Prop :=
  Forall (fun k => knownType (Slice.type (snd k))) fb.

(** While the loop of [bufferedReadPixels] runs, either the user's frame
    buffer [oldBuffer] is still the installed one, or a cached buffer has
    been built for it. *)
Definition restorable (oldBuffer : FrameBuffer) (w : World) : Prop :=
  exists f, Data.tFile (ifd w) = Some f /\
    (TiledInputFile.frameBuffer f = oldBuffer \/
     (allKnown oldBuffer /\
      exists cb, Data.cachedBuffer (ifd w) = Some cb /\
                 forall n, In n (names cb) -> In n (names oldBuffer))).

(** What of the cache a call can observe besides the pixel memory. *)
Definition cacheState (w : World)
  : option FrameBuffer * Z * (block -> bool) * block :=
  (Data.cachedBuffer (ifd w), Data.offset (ifd w),
   Heap.live (heap w), Heap.next (heap w)).

(** No tile row is visited twice in a row, and the first one visited is
    not [prev]. *)
Fixpoint noRepeat (prev : Z) (rows : list Z) : Prop :=
  match rows with
  | [] => True
  | j :: rest => j <> prev /\ noRepeat j rest
  end.

(** A run of [readPixels] calls on a tiled file, each call given by its
    two scan lines. *)
Definition readMany (calls : list (Z * Z)) : M unit :=
  forEach (fun c => bufferedReadPixels (fst c) (snd c)) calls.

(** ** A sample tiled file

    One pixel wide, scan lines 0 to 7, tiles four lines high, channels
    [G] and [R] of type [HALF]; the version word carries the tiled flag in
    bit 9.  The decoder either writes the byte [v] over every pixel of the
    tile, in every slice of the installed frame buffer, or fails. *)

Definition fillPixel (v : byte) (size : Z) (p : Ptr.t) (m : Bytes) : Bytes :=
  fold_left (fun m' i => store m' (Ptr.add p i) v) (zrange 0 (size - 1)) m.

Definition fillSlice (v : byte) (r : Box2i.t) (m : Bytes) (k : string * Slice.t)
  : Bytes :=
  let s := snd k in
  match elementSize (Slice.type s) with
  | None => m
  | Some sz =>
      fold_left
        (fun m1 y =>
           fold_left
             (fun m2 x =>
                fillPixel v sz
                  (Ptr.add (Slice.base s)
                           (y * Slice.yStride s + x * Slice.xStride s)) m2)
             (zrange (Box2i.min_x r) (Box2i.max_x r)) m1)
        (zrange (Box2i.min_y r) (Box2i.max_y r)) m
  end.

Definition sampleTileBox (dx dy l : Z) : Box2i.t :=
  Box2i.mk 0 (4 * dy) 0 (4 * dy + 3).

Definition decodeConst (v : byte) (fb : FrameBuffer) (dx dy l : Z) (m : Bytes)
  : TileResult :=
  TileOk (fold_left (fillSlice v (sampleTileBox dx dy l)) fb m).

Definition decodeFail (fb : FrameBuffer) (dx dy l : Z) (m : Bytes) : TileResult :=
  TileErr "Unexpected end of file." m.

Definition sampleTiled (dec : FrameBuffer -> Z -> Z -> Z -> Bytes -> TileResult)
  : TiledInputFile.t :=
  TiledInputFile.mk 4 (fun _ => 1) (fun _ => 1) sampleTileBox
                    (fun _ => Box2i.mk 0 0 0 7) dec [].

Definition sampleScan : ScanLineInputFile.t :=
  ScanLineInputFile.mk (fun _ _ _ m => TileOk m) [].

Definition sampleIsTiled (version : Z) : bool := Z.testbit version 9.

Definition sampleHeader : Header.t :=
  Header.mk (insert "R" (Channel.mk HALF) (insert "G" (Channel.mk HALF) []))
            (Box2i.mk 0 0 0 7) INCREASING_Y.

(** The caller owns blocks 1 and 2, sixteen bytes each, all zero. *)
Definition sampleHeap : Heap.t :=
  Heap.mk (fun _ _ => x00) (fun b => Pos.ltb b 3) (fun _ => 16) 3%positive.

Definition sampleWorld (dec : FrameBuffer -> Z -> Z -> Z -> Bytes -> TileResult)
  : World :=
  mkWorld (InputFile_new sampleIsTiled "sample.exr" sampleHeader 512
                         (sampleTiled dec) sampleScan)
          sampleHeap [].

Definition fbR : FrameBuffer :=
  insert "R" (Slice.mk HALF (Ptr.mk 1%positive 0) 2 2) [].

Definition fbGR : FrameBuffer :=
  insert "G" (Slice.mk HALF (Ptr.mk 2%positive 0) 2 2) fbR.

(** A frame buffer whose channel [R] has an element type outside the
    three recognised ones. *)
Definition fbOther : FrameBuffer :=
  insert "R" (Slice.mk (OtherType 3) (Ptr.mk 1%positive 0) 2 2) [].

(** A frame buffer that asks for [R] as [FLOAT], where the header has
    [HALF]. *)
Definition fbFloat : FrameBuffer :=
  insert "R" (Slice.mk FLOAT (Ptr.mk 1%positive 0) 4 4) [].

(** The sample session after [setFrameBuffer (fbR)] and [readPixels (0)]:
    tile row 0 is cached, with a slice for [R]. *)
Definition sampleCached : World :=
  finalWorld ((InputFile_setFrameBuffer sampleIsTiled fbR ;;
               InputFile_readPixels sampleIsTiled 0 0)
                (sampleWorld (decodeConst x2a))).

(** The same session after the frame buffer has been replaced by [fbGR],
    which adds the channel [G]. *)
Definition sampleStale : World :=
  finalWorld (InputFile_setFrameBuffer sampleIsTiled fbGR sampleCached).

(** The sample file read through a decoder that fails, with [fbR]
    installed. *)
Definition sampleFailing : World :=
  finalWorld (InputFile_setFrameBuffer sampleIsTiled fbR (sampleWorld decodeFail)).

(** ** Vocabulary of the further properties *)

(** The tiled decoder without the frame buffer installed on it: the part
    of it that no call of this file changes. *)
Definition geometryOf (f : TiledInputFile.t) : TiledInputFile.t :=
  TiledInputFile.setFrameBuffer [] f.

(** What the constructor fixes of a session: the file, its header and
    version, the line order and data window, and which decoder there is. *)
Definition staticPart (w : World)
  : string * Header.t * Z * LineOrder * Z * Z
    * option TiledInputFile.t
    * option (FrameBuffer -> Z -> Z -> Bytes -> TileResult) :=
  (Data.fileName (ifd w), Data.header (ifd w), Data.version (ifd w),
   Data.lineOrder (ifd w), Data.minY (ifd w), Data.maxY (ifd w),
   option_map geometryOf (Data.tFile (ifd w)),
   option_map ScanLineInputFile.decodeLines (Data.sFile (ifd w))).

(** A row index is recorded only together with a cached buffer. *)
Definition rowNeedsBuffer (w : World) : Prop :=
  match Data.cachedBuffer (ifd w) with
  | None => Data.cachedTileY (ifd w) = -1
  | Some _ => True
  end.


(** What a session on a scan-line file never touches: the cache fields,
    the log of tile reads, and the arrays of the heap. *)
Definition scanLineUntouched (w : World)
  : option FrameBuffer * Z * list Event * (block -> bool) * block :=
  (Data.cachedBuffer (ifd w), Data.cachedTileY (ifd w), log w,
   Heap.live (heap w), Heap.next (heap w)).

(** A slice as the allocation switch of [bufferedReadPixels] builds it:
    element strides of the row-major tile row, the base [offset] elements
    before the start of an array of [tileRowSize] elements, which is
    live. *)
Definition scratchSlice (offset lw tileRowSize : Z) (h : Heap.t) (s : Slice.t)
  : Prop :=
  exists sz,
    elementSize (Slice.type s) = Some sz /\
    Slice.xStride s = sz /\ Slice.yStride s = sz * lw /\
    Ptr.off (Slice.base s) = - (sz * offset) /\
    Heap.size h (Ptr.blk (Slice.base s)) = sz * tileRowSize /\
    Heap.live h (Ptr.blk (Slice.base s)) = true /\
    (Ptr.blk (Slice.base s) < Heap.next h)%positive.

(** Byte offset, in the array of a slice, of byte [i] of pixel [(x, y)]. *)
Definition byteOffset (s : Slice.t) (x y i : Z) : Z :=
  Ptr.off (Slice.base s) + y * Slice.yStride s + x * Slice.xStride s + i.

(** The address of pixel [(x, y)] in a slice. *)
Definition pixelAt (s : Slice.t) (x y : Z) : Ptr.t :=
  Ptr.add (Slice.base s) (y * Slice.yStride s + x * Slice.xStride s).

(** The pixels that the copy phase visits for one tile row: the columns of
    the level's data window, in the scan lines [y1 .. y2]. *)
Definition inRows (r : Box2i.t) (y1 y2 x y : Z) : Prop :=
  Box2i.min_x r <= x <= Box2i.max_x r /\ y1 <= y <= y2.

(** The pixels of a list copied one after the other, each as [copyPixel]
    copies it, from one slice to the other. *)
Definition copyPixels (size : Z) (fromSlice toSlice : Slice.t)
    (cs : list (Z * Z)) (m : Bytes) : Bytes :=
  fold_left (fun m' (c : Z * Z) =>
               copyPixel size (pixelAt fromSlice (fst c) (snd c))
                              (pixelAt toSlice (fst c) (snd c)) m') cs m.

(** The pixels of those rows in the order in which the copy phase visits
    them: scan line after scan line, and along each line from the first
    column to the last. *)
Definition rowPixels (r : Box2i.t) (y1 y2 : Z) : list (Z * Z) :=
  flat_map (fun y => map (fun x => (x, y))
                         (zrange (Box2i.min_x r) (Box2i.max_x r)))
           (zrange y1 y2).

(** No array of the cached buffer is an array that a slice of the target
    frame buffer points into. *)
Definition sourcesApart (oldBuffer cb : FrameBuffer) : Prop :=
  forall n s n' s',
    In (n, s) cb -> find n' oldBuffer = Some s' ->
    Ptr.blk (Slice.base s) <> Ptr.blk (Slice.base s').

(** The pixels that the target slices of the cached channels address in
    the rows [y1 .. y2] occupy pairwise disjoint bytes: two bytes of two
    such pixels share an address only if they belong to the same pixel of
    the same channel. *)
Definition targetsApart (oldBuffer cb : FrameBuffer) (r : Box2i.t)
    (y1 y2 : Z) : Prop :=
  forall n s sz x y i n' s' sz' x' y' i',
    In n (names cb) -> In n' (names cb) ->
    find n oldBuffer = Some s -> find n' oldBuffer = Some s' ->
    elementSize (Slice.type s) = Some sz ->
    elementSize (Slice.type s') = Some sz' ->
    inRows r y1 y2 x y -> inRows r y1 y2 x' y' ->
    0 <= i < sz -> 0 <= i' < sz' ->
    Ptr.blk (Slice.base s) = Ptr.blk (Slice.base s') ->
    byteOffset s x y i = byteOffset s' x' y' i' ->
    n = n' /\ x = x' /\ y = y'.

(** The arrays of a session that started on the heap [h0]: an array that
    is live is one that was live in [h0] or one behind a slice of the
    cached buffer; the arrays behind the cached buffer were allocated
    after [h0]; the arrays allocated before are as live as they were. *)
Definition sessionHeap (h0 : Heap.t) (w : World) : Prop :=
  (forall b, Heap.live (heap w) b = true ->
             Heap.live h0 b = true \/ In b (cacheBlocks (ifd w))) /\
  (forall b, In b (cacheBlocks (ifd w)) -> (Heap.next h0 <= b)%positive) /\
  (forall b, (b < Heap.next h0)%positive ->
             Heap.live (heap w) b = Heap.live h0 b) /\
  (Heap.next h0 <= Heap.next (heap w))%positive.

(** A frame buffer is a map: it has no name twice. *)
Definition uniqueNames (w : World) : Prop :=
  match Data.tFile (ifd w) with
  | Some f => NoDup (names (TiledInputFile.frameBuffer f))
  | None => True
  end /\
  match Data.cachedBuffer (ifd w) with
  | Some cb => NoDup (names cb)
  | None => True
  end.

Definition mapLike (c : Call) : Prop :=
  match c with
  | CallSetFrameBuffer fb => NoDup (names fb)
  | _ => True
  end.

(** What [sessionHeap] and [uniqueNames] depend on. *)
Definition sessionObs (w : World)
  : (block -> bool) * block * option FrameBuffer * option TiledInputFile.t :=
  (Heap.live (heap w), Heap.next (heap w),
   Data.cachedBuffer (ifd w), Data.tFile (ifd w)).

(** * Properties *)

(** ** Integers and ranges *)

Lemma wrap_id z : in_int z -> wrap z = z.
Proof.
  unfold in_int, wrap, int_half, int_modulus. intros H.
  rewrite Z.mod_small by lia. lia.
Qed.

Lemma wrap_wrap_add a b : wrap (wrap a + b) = wrap (a + b).
Proof.
  unfold wrap, int_half, int_modulus.
  f_equal.
  replace ((a + 2147483648) mod 4294967296 - 2147483648 + b + 2147483648)
    with ((a + 2147483648) mod 4294967296 + b) by lia.
  replace (a + b + 2147483648) with (a + 2147483648 + b) by lia.
  rewrite Z.add_mod_idemp_l by lia. reflexivity.
Qed.

Lemma wrap_in_int z : in_int (wrap z).
Proof.
  unfold in_int, wrap, int_half, int_modulus.
  pose proof (Z.mod_pos_bound (z + 2147483648) 4294967296). lia.
Qed.

Lemma zrange_nil a b : b < a -> zrange a b = [].
Proof.
  intros H. unfold zrange. replace (Z.to_nat (b - a + 1)) with O by lia.
  reflexivity.
Qed.

Lemma zrange_cons a b : a <= b -> zrange a b = a :: zrange (a + 1) b.
Proof.
  intros H. unfold zrange.
  replace (Z.to_nat (b - a + 1)) with (S (Z.to_nat (b - (a + 1) + 1))) by lia.
  simpl. f_equal; [lia|].
  rewrite <- seq_shift, map_map. apply map_ext. intros i. lia.
Qed.

Lemma zrange_snoc a b : a <= b -> zrange a b = zrange a (b - 1) ++ [b].
Proof.
  intros H. unfold zrange.
  replace (Z.to_nat (b - a + 1)) with (Z.to_nat (b - 1 - a + 1) + 1)%nat by lia.
  rewrite seq_app, map_app. simpl. repeat f_equal. lia.
Qed.

Lemma in_zrange a b x : In x (zrange a b) <-> a <= x <= b.
Proof.
  unfold zrange. rewrite in_map_iff. split.
  - intros (i & <- & Hi). apply in_seq in Hi. lia.
  - intros H. exists (Z.to_nat (x - a)). split; [lia|]. apply in_seq. lia.
Qed.

(** The loop [for (j = yStart; j != yEnd; j += 1)] from [a] to [b + 1]. *)
Lemma rowSeq_up n a :
  in_int a -> a + Z.of_nat n <= int_half ->
  rowSeq n a 1 = zrange a (a + Z.of_nat n - 1).
Proof.
  revert a. induction n as [|n IH]; intros a Ha Hb.
  - simpl. rewrite zrange_nil by lia. reflexivity.
  - cbn [rowSeq]. rewrite zrange_cons by lia. f_equal.
    destruct n as [|n'].
    + simpl. rewrite zrange_nil by lia. reflexivity.
    + unfold in_int in *.
      rewrite wrap_id by (unfold in_int; lia).
      rewrite IH by (unfold in_int; lia). f_equal. lia.
Qed.

(** The loop [for (j = yStart; j != yEnd; j -= 1)] from [b] down to [a - 1]. *)
Lemma rowSeq_down n b :
  in_int b -> - int_half <= b - Z.of_nat n + 1 ->
  rowSeq n b (-1) = rev (zrange (b - Z.of_nat n + 1) b).
Proof.
  revert b. induction n as [|n IH]; intros b Hb Ha.
  - simpl. rewrite zrange_nil by lia. reflexivity.
  - cbn [rowSeq]. rewrite zrange_snoc by lia. rewrite rev_app_distr. simpl.
    f_equal. destruct n as [|n'].
    + simpl. rewrite zrange_nil by lia. reflexivity.
    + unfold in_int in *.
      rewrite wrap_id by (unfold in_int; lia).
      replace (b + -1) with (b - 1) by lia.
      rewrite IH by (unfold in_int; lia). do 2 f_equal. lia.
Qed.

Lemma wrap_mod z : wrap z mod int_modulus = z mod int_modulus.
Proof.
  unfold wrap. rewrite Zminus_mod_idemp_l. f_equal. lia.
Qed.

Lemma wrap_sub_mod x a :
  (wrap x - a) mod int_modulus = (x - a) mod int_modulus.
Proof.
  rewrite <- (Zminus_mod_idemp_l (wrap x)), wrap_mod, Zminus_mod_idemp_l.
  reflexivity.
Qed.

(** ** The tile rows of a request *)

Lemma minDyOf_rowOf d f y :
  wfGeometry d f -> Data.minY d <= y <= Data.maxY d ->
  minDyOf d f y = rowOf d f y /\ 0 <= rowOf d f y < int_half.
Proof.
  intros (Hth & Hlo & Hhi & Hh) Hy. unfold minDyOf, rowOf, in_int in *.
  assert (Hn : 0 <= y - Data.minY d < int_half) by lia.
  rewrite (wrap_id (y - Data.minY d)) by (unfold in_int, int_half in *; lia).
  rewrite Z.quot_div_nonneg by lia.
  assert (Hq : 0 <= (y - Data.minY d) / TiledInputFile.tileYSize f
               <= y - Data.minY d).
  { split; [apply Z.div_pos; lia|].
    apply Z.div_le_upper_bound; [lia|]. nia. }
  split; [apply wrap_id; unfold in_int, int_half in *; lia | lia].
Qed.

Lemma rowOf_mono d f y y' :
  0 < TiledInputFile.tileYSize f -> y <= y' -> rowOf d f y <= rowOf d f y'.
Proof.
  intros Hth Hy. unfold rowOf. apply Z.div_le_mono; lia.
Qed.

Lemma tileRowOrder_explicit d f scanLine1 scanLine2 :
  wfGeometry d f -> inWindow d scanLine1 scanLine2 ->
  tileRowOrder d f scanLine1 scanLine2 =
  match Data.lineOrder d with
  | DECREASING_Y =>
      rev (zrange (rowOf d f (Z.min scanLine1 scanLine2))
                  (rowOf d f (Z.max scanLine1 scanLine2)))
  | _ => zrange (rowOf d f (Z.min scanLine1 scanLine2))
                (rowOf d f (Z.max scanLine1 scanLine2))
  end.
Proof.
  intros Hg (Hlo & Hhi). unfold tileRowOrder.
  destruct (minDyOf_rowOf d f (Z.min scanLine1 scanLine2) Hg) as (-> & Ha); [lia|].
  destruct (minDyOf_rowOf d f (Z.max scanLine1 scanLine2) Hg) as (-> & Hb); [lia|].
  assert (Hm : rowOf d f (Z.min scanLine1 scanLine2)
               <= rowOf d f (Z.max scanLine1 scanLine2)).
  { apply rowOf_mono; [apply Hg | lia]. }
  set (lo := rowOf d f (Z.min scanLine1 scanLine2)) in *.
  set (hi := rowOf d f (Z.max scanLine1 scanLine2)) in *.
  assert (Hup : rowSeq (tripCount lo (wrap (hi + 1)) 1) lo 1 = zrange lo hi).
  { unfold tripCount. rewrite Z.mul_1_r, wrap_sub_mod.
    rewrite Z.mod_small by (unfold int_modulus, int_half in *; lia).
    rewrite rowSeq_up by (unfold in_int, int_half in *; lia).
    f_equal. lia. }
  assert (Hdown : rowSeq (tripCount hi (wrap (lo - 1)) (-1)) hi (-1)
                  = rev (zrange lo hi)).
  { unfold tripCount. rewrite (wrap_id (lo - 1)) by (unfold in_int, int_half in *; lia).
    replace ((lo - 1 - hi) * -1) with (hi - lo + 1) by lia.
    rewrite Z.mod_small by (unfold int_modulus, int_half in *; lia).
    rewrite rowSeq_down by (unfold in_int, int_half in *; lia).
    do 2 f_equal. lia. }
  destruct (Data.lineOrder d); cbn [loopBounds]; assumption.
Qed.

(** The exit test of the loop over tile rows: with [n] the trip count,
    [j] differs from [yEnd] at each of the [n] iterations and equals it
    after the last one. *)
Lemma rowSeq_nth n j yStep k :
  (k < n)%nat -> in_int j ->
  nth k (rowSeq n j yStep) 0 = wrap (j + Z.of_nat k * yStep).
Proof.
  revert j k. induction n as [|n IH]; intros j k Hk Hj; [lia|].
  destruct k as [|k]; cbn [rowSeq nth].
  - rewrite Z.add_0_r. symmetry. apply wrap_id, Hj.
  - rewrite IH by (try lia; apply wrap_in_int).
    rewrite wrap_wrap_add. f_equal. lia.
Qed.

Lemma wrap_eq_iff z y :
  in_int y -> (wrap z = y <-> (z - y) mod int_modulus = 0).
Proof.
  intros Hy. split.
  - intros <-. rewrite <- Zminus_mod_idemp_r, wrap_mod, Zminus_mod_idemp_r.
    rewrite Z.sub_diag. reflexivity.
  - intros H. unfold wrap, in_int, int_half, int_modulus in *.
    apply Z.mod_divide in H; [|lia]. destruct H as (q & Hq).
    replace (z + 2147483648) with (y + 2147483648 + q * 4294967296) by lia.
    rewrite Z.mod_add by lia. rewrite Z.mod_small by lia. lia.
Qed.

Lemma loop_exit_test yStart yEnd yStep :
  in_int yStart -> in_int yEnd -> yStep = 1 \/ yStep = -1 ->
  let n := tripCount yStart yEnd yStep in
  (forall k, (k < n)%nat -> nth k (rowSeq n yStart yStep) 0 <> yEnd) /\
  wrap (yStart + Z.of_nat n * yStep) = yEnd.
Proof.
  intros Hs He Hstep n.
  assert (Hn : Z.of_nat n = ((yEnd - yStart) * yStep) mod int_modulus).
  { unfold n, tripCount. rewrite Z2Nat.id; [reflexivity|].
    apply Z.mod_pos_bound. reflexivity. }
  assert (Hb : 0 <= Z.of_nat n < int_modulus).
  { rewrite Hn. apply Z.mod_pos_bound. reflexivity. }
  assert (Hkey : forall k : Z, 0 <= k <= Z.of_nat n ->
             ((yStart + k * yStep - yEnd) mod int_modulus = 0 <-> k = Z.of_nat n)).
  { intros k Hk. rewrite Hn in *. unfold int_modulus in *.
    set (D := (yEnd - yStart) * yStep) in *.
    assert (HD : yEnd - yStart = D * yStep) by (unfold D; destruct Hstep; subst; lia).
    split.
    - intros H. apply Z.mod_divide in H; [|lia]. destruct H as (q & Hq).
      replace D with (k + (- q * yStep) * 4294967296)
        by (destruct Hstep; subst yStep; lia).
      rewrite Z.mod_add by lia. rewrite Z.mod_small; [reflexivity|lia].
    - intros ->.
      pose proof (Z.div_mod D 4294967296 ltac:(lia)) as Hdm.
      replace (yStart + D mod 4294967296 * yStep - yEnd)
        with (0 + (- (D / 4294967296) * yStep) * 4294967296)
        by (destruct Hstep; subst yStep; lia).
      rewrite Z.mod_add by lia. reflexivity. }
  split.
  - intros k Hk. rewrite rowSeq_nth by assumption.
    rewrite wrap_eq_iff by assumption. rewrite Hkey by lia. lia.
  - rewrite wrap_eq_iff by assumption. rewrite Hkey by lia. reflexivity.
Qed.

(** ** Rules for the monad *)

Lemma bind_Ok {A B} (m : M A) (k : A -> M B) w a w' :
  m w = Ok a w' -> bind m k w = k a w'.
Proof. unfold bind. intros ->. reflexivity. Qed.

Lemma bind_Throw {A B} (m : M A) (k : A -> M B) w e w' :
  m w = Throw e w' -> bind m k w = Throw e w'.
Proof. unfold bind. intros ->. reflexivity. Qed.

Lemma getTFile_Some w f :
  Data.tFile (ifd w) = Some f -> getTFile w = Ok f w.
Proof. unfold getTFile. intros ->. reflexivity. Qed.

Section Keeps.
Context {X : Type} (obs : World -> X).

Lemma keeps_ret {A} (a : A) : keeps obs (ret a).
Proof. intros w. reflexivity. Qed.

Lemma keeps_throw {A} e : keeps obs (@throw A e).
Proof. intros w. reflexivity. Qed.

Lemma keeps_bind {A B} (m : M A) (k : A -> M B) :
  keeps obs m -> (forall a, keeps obs (k a)) -> keeps obs (bind m k).
Proof.
  intros Hm Hk w. unfold bind. specialize (Hm w).
  destruct (m w) as [a w1|e w1]; simpl in *.
  - rewrite Hk. exact Hm.
  - exact Hm.
Qed.

Lemma keeps_modify (g : World -> World) :
  (forall w, obs (g w) = obs w) -> keeps obs (modify g).
Proof. intros H w. apply H. Qed.

Lemma keeps_forEach {A} (body : A -> M unit) xs :
  (forall x, keeps obs (body x)) -> keeps obs (forEach body xs).
Proof.
  intros H. induction xs as [|x xs IH]; simpl.
  - apply keeps_ret.
  - apply keeps_bind; auto.
Qed.

Lemma keeps_getTFile : keeps obs getTFile.
Proof. intros w. unfold getTFile. destruct (Data.tFile (ifd w)); reflexivity. Qed.

Lemma keeps_getCachedBuffer : keeps obs getCachedBuffer.
Proof.
  intros w. unfold getCachedBuffer. destruct (Data.cachedBuffer (ifd w)); reflexivity.
Qed.

Lemma keeps_pixelTypeSize ty : keeps obs (pixelTypeSize ty).
Proof.
  unfold pixelTypeSize. destruct (elementSize ty); [apply keeps_ret | apply keeps_throw].
Qed.

Lemma keeps_FrameBuffer_at fb name : keeps obs (FrameBuffer_at fb name).
Proof.
  unfold FrameBuffer_at. destruct (find name fb); [apply keeps_ret | apply keeps_throw].
Qed.

(** What each action may change. *)

Hypothesis obs_bytes : forall w m, obs (set_bytes m w) = obs w.

Lemma keeps_copyPhase oldBuffer y1 y2 : keeps obs (copyPhase oldBuffer y1 y2).
Proof.
  unfold copyPhase. apply keeps_bind; [apply keeps_getTFile|]. intros f.
  apply keeps_bind; [apply keeps_getCachedBuffer|]. intros cb.
  apply keeps_forEach. intros k. unfold copyChannel.
  apply keeps_bind; [apply keeps_FrameBuffer_at|]. intros s.
  apply keeps_bind; [apply keeps_pixelTypeSize|]. intros n.
  apply keeps_modify. intros w. apply obs_bytes.
Qed.

End Keeps.

Section KeepsMore.
Context {X : Type} (obs : World -> X).

(** A [readTile] call changes the pixel memory and the log only. *)
Lemma keeps_readTileRow j :
  (forall w e m, obs (set_bytes m (add_log e w)) = obs w) ->
  keeps obs (readTileRow j).
Proof.
  intros H. unfold readTileRow.
  apply keeps_bind; [apply keeps_getTFile|]. intros f.
  apply keeps_forEach. intros i. unfold tFile_readTile.
  apply keeps_bind; [apply keeps_getTFile|]. intros f'.
  intros w.
  destruct (TiledInputFile.decode _ _ _ _ _ _); simpl; apply H.
Qed.

(** Installing a frame buffer changes [tFile] only. *)
Lemma keeps_tFile_setFrameBuffer fb :
  (forall w f, obs (set_ifd (Data.set_tFile f (ifd w)) w) = obs w) ->
  keeps obs (tFile_setFrameBuffer fb).
Proof.
  intros H. unfold tFile_setFrameBuffer.
  apply keeps_bind; [apply keeps_getTFile|]. intros f.
  apply keeps_modify. intros w. apply H.
Qed.

(** Allocation changes the heap and [cachedBuffer] only. *)
Lemma keeps_allocSlices tileRowSize lw oldBuffer :
  (forall w h, obs (set_heap h w) = obs w) ->
  (forall w c, obs (set_ifd (Data.set_cachedBuffer c (ifd w)) w) = obs w) ->
  keeps obs (allocSlices tileRowSize lw oldBuffer).
Proof.
  intros Hh Hc.
  assert (Hone : forall name ty sz, keeps obs (allocSlice name ty sz tileRowSize lw)).
  { intros name ty sz w. unfold allocSlice. simpl.
    unfold insertCached.
    match goal with |- context [bind getCachedBuffer ?k ?w1] =>
      pose proof (keeps_bind obs getCachedBuffer k) as Hb; specialize (Hb (keeps_getCachedBuffer obs));
      rewrite Hb; [apply Hh|] end.
    intros cb. apply keeps_modify. intros w1. apply Hc. }
  induction oldBuffer as [|[name s] rest IH]; simpl.
  - apply keeps_ret.
  - destruct (Slice.type s); try (apply keeps_bind; [apply Hone | intros _; apply IH]).
    apply keeps_throw.
Qed.

End KeepsMore.

(** ** Maps ordered by name *)

Lemma compare_refl (s : string) : String.compare s s = Eq.
Proof.
  pose proof (String.compare_antisym s s) as H.
  destruct (String.compare s s); simpl in H; congruence.
Qed.

Lemma find_insert {A} name (a : A) m n :
  find n (insert name a m) = if String.eqb n name then Some a else find n m.
Proof.
  induction m as [|[n' a'] rest IH]; simpl.
  - reflexivity.
  - destruct (String.compare name n') eqn:Hc; simpl.
    + apply String.compare_eq_iff in Hc. subst n'.
      destruct (String.eqb n name); reflexivity.
    + reflexivity.
    + rewrite IH. destruct (String.eqb n n') eqn:Hn; [|reflexivity].
      apply String.eqb_eq in Hn. subst n'.
      destruct (String.eqb n name) eqn:Hn'; [|reflexivity].
      apply String.eqb_eq in Hn'. subst n.
      rewrite compare_refl in Hc. discriminate.
Qed.

Lemma in_names_insert {A} name (a : A) m n :
  In n (names (insert name a m)) -> n = name \/ In n (names m).
Proof.
  induction m as [|[n' a'] rest IH]; simpl.
  - intros [H|[]]; auto.
  - destruct (String.compare name n'); simpl.
    + intros [H|H]; auto.
    + intros [H|[H|H]]; auto.
    + intros [H|H]; auto. apply IH in H. tauto.
Qed.

Lemma Forall_insert {A} (P : string * A -> Prop) name a m :
  P (name, a) -> Forall P m -> Forall P (insert name a m).
Proof.
  intros Hp Hm. induction Hm as [|[n' a'] rest Hx Hrest IH]; simpl.
  - constructor; auto.
  - destruct (String.compare name n'); constructor; auto.
Qed.

Lemma find_in_names {A} n (m : NameMap A) :
  In n (names m) -> exists a, find n m = Some a /\ In a (map snd m).
Proof.
  induction m as [|[n' a'] rest IH]; simpl; [tauto|].
  intros H. destruct (String.eqb n n') eqn:Hn.
  - exists a'. auto.
  - destruct H as [H|H].
    + subst n'. rewrite String.eqb_refl in Hn. discriminate.
    + destruct (IH H) as (a & Ha & Hin). exists a. auto.
Qed.

Lemma find_Some_in {A} n (m : NameMap A) a :
  find n m = Some a -> In a (map snd m).
Proof.
  induction m as [|[n' a'] rest IH]; simpl; [discriminate|].
  destruct (String.eqb n n').
  - intros [= ->]. auto.
  - auto.
Qed.

Lemma find_restrictTo (cached target : FrameBuffer) n :
  hasName n cached = true -> find n (restrictTo cached target) = find n target.
Proof.
  intros Hn. unfold restrictTo.
  induction target as [|[n' s] rest IH]; simpl; [reflexivity|].
  destruct (hasName n' cached) eqn:Hn'; simpl.
  - rewrite IH. reflexivity.
  - destruct (String.eqb n n') eqn:He; [|exact IH].
    apply String.eqb_eq in He. congruence.
Qed.

Lemma hasName_in {A} (m : NameMap A) k : In k m -> hasName (fst k) m = true.
Proof.
  unfold hasName. intros H.
  destruct (find_in_names (fst k) m) as (a & -> & _); [|reflexivity].
  unfold names. apply in_map. exact H.
Qed.

Lemma PixelType_eqb_eq a b : PixelType_eqb a b = true <-> a = b.
Proof.
  destruct a, b; simpl; split; try congruence; try reflexivity.
  - intros H. apply Z.eqb_eq in H. congruence.
  - intros [= ->]. apply Z.eqb_refl.
Qed.

(** ** setFrameBuffer: the invalidation loop *)

Lemma invalidateOnMismatch_hit channels fb d :
  Exists (mismatch channels) fb ->
  invalidateOnMismatch channels fb d = Data.set_cachedTileY (-1) d.
Proof.
  induction fb as [|[name s] rest IH]; intros H.
  - inversion H.
  - simpl. unfold mismatch in *.
    destruct (find name channels) as [c|] eqn:Hf; [|reflexivity].
    destruct (PixelType_eqb (Channel.type c) (Slice.type s)) eqn:Ht; [|reflexivity].
    simpl. apply IH. inversion H as [? ? Hm|]; subst; [|assumption].
    simpl in Hm. rewrite Hf in Hm. apply PixelType_eqb_eq in Ht. contradiction.
Qed.

Lemma invalidateOnMismatch_miss channels fb d :
  ~ Exists (mismatch channels) fb ->
  invalidateOnMismatch channels fb d = d.
Proof.
  induction fb as [|[name s] rest IH]; intros H; [reflexivity|].
  simpl.
  destruct (find name channels) as [c|] eqn:Hf.
  - destruct (PixelType_eqb (Channel.type c) (Slice.type s)) eqn:Ht; simpl.
    + apply IH. intros Hr. apply H. right. exact Hr.
    + exfalso. apply H. left. unfold mismatch. simpl. rewrite Hf.
      intros He. apply PixelType_eqb_eq in He. congruence.
  - exfalso. apply H. left. unfold mismatch. simpl. rewrite Hf. exact I.
Qed.

Lemma invalidateOnMismatch_cases channels fb d :
  invalidateOnMismatch channels fb d = d \/
  invalidateOnMismatch channels fb d = Data.set_cachedTileY (-1) d.
Proof.
  induction fb as [|[name s] rest IH]; simpl; [auto|].
  destruct (find name channels); [|auto].
  destruct (PixelType_eqb _ _); simpl; auto.
Qed.

Lemma setFrameBuffer_tiled isTiled w f fb :
  tiledSession isTiled w f ->
  InputFile_setFrameBuffer isTiled fb w =
  Ok tt (set_ifd (Data.set_tFile
                    (Some (TiledInputFile.setFrameBuffer fb f))
                    (invalidateOnMismatch
                       (Header.channels (Data.header (ifd w))) fb (ifd w))) w).
Proof.
  intros (Ht & Hf). unfold InputFile_setFrameBuffer. rewrite Ht.
  unfold bind, modify, tFile_setFrameBuffer, bind, getTFile. simpl.
  destruct (invalidateOnMismatch_cases
              (Header.channels (Data.header (ifd w))) fb (ifd w)) as [-> | ->];
    simpl; rewrite Hf; reflexivity.
Qed.

(** ** Allocation of the cached buffer *)

Lemma allocSlice_eq name ty sz tileRowSize lw w cb0 :
  Data.cachedBuffer (ifd w) = Some cb0 ->
  allocSlice name ty sz tileRowSize lw w =
  Ok tt (set_ifd
           (Data.set_cachedBuffer
              (Some (insert name
                       (Slice.mk ty (Ptr.mk (Heap.next (heap w))
                                            (0 + - (sz * Data.offset (ifd w))))
                                 sz (sz * lw)) cb0))
              (ifd w))
           (set_heap (snd (new_array (sz * tileRowSize) (heap w))) w)).
Proof.
  intros Hc. unfold allocSlice, new_array, insertCached, bind, getCachedBuffer, modify.
  simpl. rewrite Hc. reflexivity.
Qed.

Lemma allocSlices_spec tileRowSize lw oldBuffer : forall w cb0,
  Data.cachedBuffer (ifd w) = Some cb0 ->
  match allocSlices tileRowSize lw oldBuffer w with
  | Ok _ w' =>
      allKnown oldBuffer /\
      exists cb, Data.cachedBuffer (ifd w') = Some cb /\
                 forall n, In n (names cb) ->
                           In n (names cb0) \/ In n (names oldBuffer)
  | Throw e _ => e = unknownTypeError /\ ~ allKnown oldBuffer
  end.
Proof.
  induction oldBuffer as [|[name s] rest IH]; intros w cb0 Hc.
  - simpl. split; [constructor|]. exists cb0. auto.
  - assert (Hstep : forall ty sz, Slice.type s = ty -> knownType ty ->
      match (allocSlice name ty sz tileRowSize lw ;;
             allocSlices tileRowSize lw rest) w with
      | Ok _ w' =>
          allKnown ((name, s) :: rest) /\
          exists cb, Data.cachedBuffer (ifd w') = Some cb /\
                     forall n, In n (names cb) ->
                               In n (names cb0) \/ In n (names ((name, s) :: rest))
      | Throw e _ => e = unknownTypeError /\ ~ allKnown ((name, s) :: rest)
      end).
    { intros ty sz Hty Hk.
      erewrite bind_Ok by (apply allocSlice_eq; exact Hc).
      match goal with |- match allocSlices _ _ _ ?w1 with _ => _ end =>
        specialize (IH w1 _ eq_refl); destruct (allocSlices tileRowSize lw rest w1)
      end.
      - destruct IH as (Hall & cb & Hcb & Hn). split.
        + constructor; [simpl; rewrite Hty; exact Hk | exact Hall].
        + exists cb. split; [exact Hcb|]. intros n Hin.
          destruct (Hn n Hin) as [H|H]; [|right; right; exact H].
          apply in_names_insert in H. destruct H as [->|H]; [right; left; reflexivity | left; exact H].
      - destruct IH as (-> & Hnot). split; [reflexivity|].
        intros Hall. apply Hnot. inversion Hall; assumption. }
    simpl. destruct (Slice.type s) eqn:Hty.
    + apply Hstep; [reflexivity | discriminate].
    + apply Hstep; [reflexivity | discriminate].
    + apply Hstep; [reflexivity | discriminate].
    + simpl. split; [reflexivity|]. intros Hall. inversion Hall as [|? ? Hk _]; subst.
      simpl in Hk. rewrite Hty in Hk. apply Hk. reflexivity.
Qed.

Lemma allocSlices_heap tileRowSize lw oldBuffer : forall w cb0,
  Data.cachedBuffer (ifd w) = Some cb0 ->
  let w' := finalWorld (allocSlices tileRowSize lw oldBuffer w) in
  (Heap.next (heap w) <= Heap.next (heap w'))%positive /\
  (forall b, (b < Heap.next (heap w))%positive ->
             Heap.live (heap w') b = Heap.live (heap w) b) /\
  (cacheWf w -> cacheWf w').
Proof.
  induction oldBuffer as [|[name s] rest IH]; intros w cb0 Hc.
  - simpl. repeat split; auto. lia.
  - assert (Hstep : forall ty sz, elementSize ty = Some sz ->
      let w' := finalWorld ((allocSlice name ty sz tileRowSize lw ;;
                             allocSlices tileRowSize lw rest) w) in
      (Heap.next (heap w) <= Heap.next (heap w'))%positive /\
      (forall b, (b < Heap.next (heap w))%positive ->
                 Heap.live (heap w') b = Heap.live (heap w) b) /\
      (cacheWf w -> cacheWf w')).
    { intros ty sz Hsz.
      erewrite bind_Ok by (apply allocSlice_eq; exact Hc).
      match goal with |- context [allocSlices _ _ _ ?w1] =>
        specialize (IH w1 _ eq_refl); set (w1' := w1) in *
      end.
      cbv zeta in IH |- *. destruct IH as (Hnext & Hlive & Hwf).
      assert (Hn1 : Heap.next (heap w1') = Pos.succ (Heap.next (heap w))) by reflexivity.
      split; [lia|]. split.
      - intros b Hb. rewrite Hlive by lia. unfold w1'. simpl.
        destruct (Pos.eqb_spec b (Heap.next (heap w))); [lia | reflexivity].
      - intros Hw. apply Hwf. unfold cacheWf in *. rewrite Hc in Hw.
        unfold w1'. simpl. apply Forall_insert.
        + simpl. split; [|lia]. exists sz. simpl. split; [exact Hsz | lia].
        + eapply Forall_impl; [|exact Hw]. simpl. intros k (Ho & Hb).
          split; [exact Ho | lia]. }
    simpl. destruct (Slice.type s).
    + apply Hstep. reflexivity.
    + apply Hstep. reflexivity.
    + apply Hstep. reflexivity.
    + simpl. repeat split; auto. lia.
Qed.

(** ** Release of the cached buffer *)

Lemma deleteSlice_live_mono o s h b :
  Heap.live (deleteSlice o s h) b = true -> Heap.live h b = true.
Proof.
  unfold deleteSlice, delete_array.
  destruct (Slice.type s); try (destruct (Z.eqb _ 0)); simpl; auto;
    destruct (Pos.eqb b _); auto; discriminate.
Qed.

Lemma deleteSlices_live_mono o cb : forall h b,
  Heap.live (deleteSlices o cb h) b = true -> Heap.live h b = true.
Proof.
  induction cb as [|k cb IH]; intros h b H; [exact H|].
  apply IH in H. eapply deleteSlice_live_mono. exact H.
Qed.

Lemma deleteSlice_frees o s h :
  ownsArray o s ->
  Heap.live (deleteSlice o s h) (Ptr.blk (Slice.base s)) = false.
Proof.
  intros (sz & Hsz & Hoff). unfold deleteSlice, delete_array, Ptr.add.
  destruct (Slice.type s); cbn [elementSize] in Hsz; try discriminate;
    injection Hsz as <-; cbn [Ptr.off Ptr.blk];
    (replace (Ptr.off (Slice.base s) + 4 * o =? 0) with true
       by (symmetry; apply Z.eqb_eq; lia)) ||
    (replace (Ptr.off (Slice.base s) + 2 * o =? 0) with true
       by (symmetry; apply Z.eqb_eq; lia));
    cbn [Heap.live]; rewrite Pos.eqb_refl; reflexivity.
Qed.

Lemma deleteSlices_frees o cb : forall h,
  Forall (fun k => ownsArray o (snd k)) cb ->
  forall k, In k cb ->
    Heap.live (deleteSlices o cb h) (Ptr.blk (Slice.base (snd k))) = false.
Proof.
  induction cb as [|k0 cb IH]; intros h Hall k Hin; [destruct Hin|].
  inversion Hall as [|? ? Hk0 Hrest]; subst.
  destruct (Heap.live (deleteSlices o (k0 :: cb) h)
              (Ptr.blk (Slice.base (snd k)))) eqn:Hl; [|reflexivity].
  destruct Hin as [<-|Hin].
  - simpl in Hl. apply deleteSlices_live_mono in Hl.
    rewrite deleteSlice_frees in Hl by assumption. discriminate.
  - simpl in Hl. rewrite IH in Hl by assumption. discriminate.
Qed.

Lemma deleteSlices_frame o cb : forall h,
  Heap.next (deleteSlices o cb h) = Heap.next h /\
  Heap.bytes (deleteSlices o cb h) = Heap.bytes h.
Proof.
  induction cb as [|k cb IH]; intros h; [split; reflexivity|].
  simpl. destruct (IH (deleteSlice o (snd k) h)) as (-> & ->).
  unfold deleteSlice, delete_array.
  destruct (Slice.type (snd k)); try (destruct (Z.eqb _ 0)); split; reflexivity.
Qed.

(** ** Decoding a tile row *)

Lemma readTiles_spec j f (tiles : list Z) : forall w,
  Data.tFile (ifd w) = Some f ->
  match forEach (fun i => tFile_readTile i j 0) tiles w with
  | Ok _ w' => log w' = log w ++ map (fun i => EvReadTile i j 0) tiles
  | Throw e _ => exists msg, e = TileExc msg
  end.
Proof.
  induction tiles as [|i tiles IH]; intros w Hf; simpl.
  - rewrite app_nil_r. reflexivity.
  - unfold bind at 1. unfold tFile_readTile at 1. unfold bind at 1.
    rewrite (getTFile_Some _ _ Hf).
    destruct (TiledInputFile.decode f _ i j 0 _) as [m|msg m].
    + match goal with |- match forEach _ _ ?w1 with _ => _ end =>
        specialize (IH w1 Hf); destruct (forEach _ tiles w1)
      end.
      * rewrite IH. simpl. rewrite <- app_assoc. reflexivity.
      * exact IH.
    + eauto.
Qed.

Lemma readTileRow_spec j w f :
  Data.tFile (ifd w) = Some f ->
  match readTileRow j w with
  | Ok _ w' => log w' = log w ++ tilesOfRow f j
  | Throw e _ => exists msg, e = TileExc msg
  end.
Proof.
  intros Hf. unfold readTileRow. rewrite (bind_Ok _ _ _ _ _ (getTFile_Some _ _ Hf)).
  apply (readTiles_spec j f). exact Hf.
Qed.

(** ** The copy phase *)

Lemma copyChannel_cases oldBuffer lr y1 y2 k w :
  match copyChannel oldBuffer lr y1 y2 k w with
  | Ok _ _ => hasName (fst k) oldBuffer = true
  | Throw e _ =>
      (e = missingSliceError /\ hasName (fst k) oldBuffer = false) \/
      (e = unknownSizeError /\ ~ allKnown oldBuffer)
  end.
Proof.
  unfold copyChannel, FrameBuffer_at, hasName, bind.
  destruct (find (fst k) oldBuffer) as [s|] eqn:Hf; simpl; [|left; auto].
  unfold pixelTypeSize. destruct (elementSize (Slice.type s)) eqn:Hs; simpl.
  - reflexivity.
  - right. split; [reflexivity|]. intros Hall.
    apply find_Some_in in Hf. apply in_map_iff in Hf. destruct Hf as (k' & <- & Hin).
    unfold allKnown in Hall. rewrite Forall_forall in Hall.
    apply (Hall k' Hin). exact Hs.
Qed.

Lemma copyChannels_throws oldBuffer lr y1 y2 cb : forall w e w',
  forEach (copyChannel oldBuffer lr y1 y2) cb w = Throw e w' ->
  (e = missingSliceError /\ exists k, In k cb /\ hasName (fst k) oldBuffer = false) \/
  (e = unknownSizeError /\ ~ allKnown oldBuffer).
Proof.
  induction cb as [|k cb IH]; intros w e w' H; simpl in H; [discriminate|].
  unfold bind in H.
  pose proof (copyChannel_cases oldBuffer lr y1 y2 k w) as Hk.
  destruct (copyChannel oldBuffer lr y1 y2 k w) as [[] w1|e1 w1].
  - apply IH in H. destruct H as [(He & k' & Hin & Hn)|H]; [left|right; exact H].
    split; [exact He|]. exists k'. split; [right; exact Hin | exact Hn].
  - injection H as <- <-. destruct Hk as [(He & Hn)|Hk]; [left|right; exact Hk].
    split; [exact He|]. exists k. split; [left; reflexivity | exact Hn].
Qed.

Lemma copyPhase_throws oldBuffer y1 y2 w e w' :
  copyPhase oldBuffer y1 y2 w = Throw e w' ->
  e = NullPointer \/
  (e = missingSliceError /\
   exists cb k, Data.cachedBuffer (ifd w) = Some cb /\ In k cb /\
                hasName (fst k) oldBuffer = false) \/
  (e = unknownSizeError /\ ~ allKnown oldBuffer).
Proof.
  unfold copyPhase, bind, getTFile, getCachedBuffer.
  destruct (Data.tFile (ifd w)); [|intros [= <- <-]; auto].
  destruct (Data.cachedBuffer (ifd w)) as [cb|]; [|intros [= <- <-]; auto].
  intros H. apply copyChannels_throws in H. right.
  destruct H as [(He & k & Hin & Hn)|H]; [left|right; exact H].
  split; [exact He|]. exists cb, k. auto.
Qed.

(** The copy phase cannot fail on a cached buffer that was built for the
    target buffer. *)
Lemma copyPhase_ok oldBuffer y1 y2 w f cb :
  Data.tFile (ifd w) = Some f ->
  Data.cachedBuffer (ifd w) = Some cb ->
  allKnown oldBuffer ->
  (forall n, In n (names cb) -> In n (names oldBuffer)) ->
  exists w', copyPhase oldBuffer y1 y2 w = Ok tt w'.
Proof.
  intros Hf Hc Hall Hincl.
  destruct (copyPhase oldBuffer y1 y2 w) as [[] w1|e w1] eqn:H; [eauto|].
  exfalso. pose proof (copyPhase_throws _ _ _ _ _ _ H) as H0.
  destruct H0 as [->|[(_ & cb' & k & Hc' & Hin & Hn)|(_ & Hnot)]].
  - unfold copyPhase, bind in H. rewrite (getTFile_Some _ _ Hf) in H.
    unfold getCachedBuffer in H. rewrite Hc in H.
    apply copyChannels_throws in H. destruct H as [(H & _)|(H & _)]; discriminate.
  - rewrite Hc in Hc'. injection Hc' as <-.
    destruct (find_in_names (fst k) oldBuffer) as (s & Hs & _).
    { apply Hincl. unfold names. apply in_map. exact Hin. }
    unfold hasName in Hn. rewrite Hs in Hn. discriminate.
  - contradiction.
Qed.

(** ** Filling the cache *)

Lemma finalWorld_bind {A B} (m : M A) (k : A -> M B) w :
  finalWorld (bind m k w) =
  match m w with
  | Ok a w1 => finalWorld (k a w1)
  | Throw _ w1 => w1
  end.
Proof. unfold bind. destruct (m w); reflexivity. Qed.

Lemma fillCache_unfold oldBuffer tileRowSize tileRange j w f :
  Data.tFile (ifd w) = Some f ->
  fillCache oldBuffer tileRowSize tileRange j w =
  (allocSlices tileRowSize (TiledInputFile.levelWidth f 0) oldBuffer ;;
   cb <- getCachedBuffer ;;
   tFile_setFrameBuffer cb ;;
   readTileRow j) (afterRelease f tileRange j w).
Proof.
  intros Hf. unfold fillCache.
  rewrite (bind_Ok _ _ _ _ _ (getTFile_Some _ _ Hf)). reflexivity.
Qed.

Lemma tFile_setFrameBuffer_eq fb w f :
  Data.tFile (ifd w) = Some f ->
  tFile_setFrameBuffer fb w =
  Ok tt (set_ifd (Data.set_tFile (Some (TiledInputFile.setFrameBuffer fb f))
                                 (ifd w)) w).
Proof.
  intros Hf. unfold tFile_setFrameBuffer.
  rewrite (bind_Ok _ _ _ _ _ (getTFile_Some _ _ Hf)). reflexivity.
Qed.

Lemma fillCache_spec oldBuffer tileRowSize tileRange j w f :
  Data.tFile (ifd w) = Some f ->
  match fillCache oldBuffer tileRowSize tileRange j w with
  | Ok _ w' =>
      allKnown oldBuffer /\
      Data.cachedTileY (ifd w') = j /\
      log w' = log w ++ tilesOfRow f j /\
      exists cb, Data.cachedBuffer (ifd w') = Some cb /\
                 (forall n, In n (names cb) -> In n (names oldBuffer)) /\
                 Data.tFile (ifd w') = Some (TiledInputFile.setFrameBuffer cb f)
  | Throw e w' =>
      Data.cachedTileY (ifd w') = j /\
      ((e = unknownTypeError /\ ~ allKnown oldBuffer /\
        Data.tFile (ifd w') = Data.tFile (ifd w) /\ log w' = log w) \/
       (exists msg cb, e = TileExc msg /\ allKnown oldBuffer /\
          Data.cachedBuffer (ifd w') = Some cb /\
          Data.tFile (ifd w') = Some (TiledInputFile.setFrameBuffer cb f)))
  end.
Proof.
  intros Hf. rewrite (fillCache_unfold _ _ _ _ _ _ Hf).
  set (w2 := afterRelease f tileRange j w).
  set (lw := TiledInputFile.levelWidth f 0).
  pose proof (allocSlices_spec tileRowSize lw oldBuffer w2 [] eq_refl) as Ha.
  pose proof (keeps_allocSlices
                (fun w => (Data.tFile (ifd w), Data.cachedTileY (ifd w), log w))
                tileRowSize lw oldBuffer
                ltac:(reflexivity) ltac:(reflexivity) w2) as Hk.
  unfold bind at 1.
  destruct (allocSlices tileRowSize lw oldBuffer w2) as [[] w3|e w3];
    simpl in Hk; injection Hk as Ht3 Hy3 Hl3.
  - destruct Ha as (Hall & cb & Hcb & Hn).
    unfold bind at 1. unfold getCachedBuffer. rewrite Hcb.
    rewrite Hf in Ht3.
    rewrite (bind_Ok _ _ _ _ _ (tFile_setFrameBuffer_eq cb w3 f Ht3)).
    set (w4 := set_ifd _ w3).
    assert (Hf4 : Data.tFile (ifd w4) = Some (TiledInputFile.setFrameBuffer cb f))
      by reflexivity.
    pose proof (readTileRow_spec j w4 _ Hf4) as Hr.
    pose proof (keeps_readTileRow ifd j ltac:(reflexivity) w4) as Hi.
    destruct (readTileRow j w4) as [[] w5|e w5]; simpl in Hi.
    + split; [exact Hall|]. rewrite Hi.
      split; [exact Hy3|]. split; [rewrite Hr; simpl; rewrite Hl3; reflexivity|].
      exists cb. split; [exact Hcb|]. split; [|reflexivity].
      intros n Hin. destruct (Hn n Hin) as [[]|H]. exact H.
    + rewrite Hi. split; [exact Hy3|]. right.
      destruct Hr as (msg & ->). exists msg, cb. auto.
  - destruct Ha as (-> & Hnot). split; [exact Hy3|]. left. auto.
Qed.

Lemma fillCache_heap oldBuffer tileRowSize tileRange j w f :
  Data.tFile (ifd w) = Some f -> cacheWf w ->
  let w' := finalWorld (fillCache oldBuffer tileRowSize tileRange j w) in
  cacheWf w' /\
  (forall b, In b (cacheBlocks (ifd w)) -> Heap.live (heap w') b = false) /\
  (forall b, (b < Heap.next (heap w))%positive ->
             Heap.live (heap w') b = true -> Heap.live (heap w) b = true).
Proof.
  intros Hf Hwf. rewrite (fillCache_unfold _ _ _ _ _ _ Hf).
  set (w2 := afterRelease f tileRange j w).
  set (lw := TiledInputFile.levelWidth f 0).
  assert (Hnext2 : Heap.next (heap w2) = Heap.next (heap w)).
  { unfold w2, afterRelease, releaseCachedBuffer. simpl.
    destruct (Data.cachedBuffer (ifd w)); [apply deleteSlices_frame | reflexivity]. }
  assert (Hmono2 : forall b, Heap.live (heap w2) b = true -> Heap.live (heap w) b = true).
  { unfold w2, afterRelease, releaseCachedBuffer. simpl. intros b.
    destruct (Data.cachedBuffer (ifd w)); [apply deleteSlices_live_mono | auto]. }
  assert (Hdead2 : forall b, In b (cacheBlocks (ifd w)) ->
                             Heap.live (heap w2) b = false /\
                             (b < Heap.next (heap w))%positive).
  { unfold cacheBlocks, cacheWf in *. intros b Hb.
    unfold w2, afterRelease, releaseCachedBuffer. simpl.
    destruct (Data.cachedBuffer (ifd w)) as [cb|]; [|destruct Hb].
    apply in_map_iff in Hb. destruct Hb as (k & <- & Hin).
    rewrite Forall_forall in Hwf. split; [|apply (Hwf k Hin)].
    apply deleteSlices_frees; [|exact Hin].
    apply Forall_forall. intros k' Hk'. apply (Hwf k' Hk'). }
  assert (Hwf2 : cacheWf w2) by (unfold cacheWf; simpl; constructor).
  destruct (allocSlices_heap tileRowSize lw oldBuffer w2 [] eq_refl)
    as (Hnext3 & Hlive3 & Hwf3).
  specialize (Hwf3 Hwf2).
  pose proof (keeps_bind cacheState getCachedBuffer
                (fun cb => tFile_setFrameBuffer cb ;; readTileRow j)
                (keeps_getCachedBuffer _)) as Hrest.
  cbv zeta. rewrite finalWorld_bind.
  set (w3 := finalWorld (allocSlices tileRowSize lw oldBuffer w2)) in *.
  assert (Hgoal : forall w', cacheState w' = cacheState w3 ->
            cacheWf w' /\
            (forall b, In b (cacheBlocks (ifd w)) -> Heap.live (heap w') b = false) /\
            (forall b, (b < Heap.next (heap w))%positive ->
                       Heap.live (heap w') b = true -> Heap.live (heap w) b = true)).
  { intros w' Hs. unfold cacheState in Hs. injection Hs as Hc Ho Hl Hn.
    split; [|split].
    - unfold cacheWf in *. rewrite Hc, Ho, Hn. exact Hwf3.
    - intros b Hb. destruct (Hdead2 b Hb) as (Hd & Hlt).
      rewrite Hl, Hlive3 by lia. exact Hd.
    - intros b Hb Hlv. apply Hmono2. rewrite <- Hlive3 by lia.
      rewrite <- Hl. exact Hlv. }
  destruct (allocSlices tileRowSize lw oldBuffer w2) as [[] w3'|e w3'] eqn:Ha;
    simpl in w3; subst w3.
  - apply Hgoal. apply Hrest. intros cb.
    apply keeps_bind.
    + apply keeps_tFile_setFrameBuffer. reflexivity.
    + intros _. apply keeps_readTileRow. reflexivity.
  - apply Hgoal. reflexivity.
Qed.

(** ** One tile row *)

Lemma rowBody_unfold oldBuffer minY maxY tileRowSize j w f :
  Data.tFile (ifd w) = Some f ->
  let tileRange := TiledInputFile.dataWindowForTile f 0 j 0 in
  let minYThisRow := Z.max minY (Box2i.min_y tileRange) in
  let maxYThisRow := Z.min maxY (Box2i.max_y tileRange) in
  rowBody oldBuffer minY maxY tileRowSize j w =
  if negb (Z.eqb j (Data.cachedTileY (ifd w)))
  then (fillCache oldBuffer tileRowSize tileRange j ;;
        copyPhase oldBuffer minYThisRow maxYThisRow) w
  else copyPhase oldBuffer minYThisRow maxYThisRow w.
Proof.
  intros Hf. cbv zeta. unfold rowBody.
  rewrite (bind_Ok _ _ _ _ _ (getTFile_Some _ _ Hf)).
  unfold bind at 1. destruct (negb (j =? Data.cachedTileY (ifd w))).
  - reflexivity.
  - reflexivity.
Qed.

(** A cache hit: nothing but pixel memory changes, whatever the outcome. *)
Lemma rowBody_hit oldBuffer minY maxY tileRowSize j w :
  Data.cachedTileY (ifd w) = j ->
  let w' := finalWorld (rowBody oldBuffer minY maxY tileRowSize j w) in
  ifd w' = ifd w /\ log w' = log w /\
  Heap.live (heap w') = Heap.live (heap w) /\
  Heap.next (heap w') = Heap.next (heap w).
Proof.
  intros Hj. cbv zeta.
  destruct (Data.tFile (ifd w)) as [f|] eqn:Hf.
  - rewrite (rowBody_unfold _ _ _ _ _ _ _ Hf). rewrite Hj, Z.eqb_refl. simpl.
    pose proof (keeps_copyPhase
      (fun w => (ifd w, log w, Heap.live (heap w), Heap.next (heap w)))
      ltac:(reflexivity) oldBuffer
      (Z.max minY (Box2i.min_y (TiledInputFile.dataWindowForTile f 0 j 0)))
      (Z.min maxY (Box2i.max_y (TiledInputFile.dataWindowForTile f 0 j 0))) w) as H.
    simpl in H. injection H as -> -> -> ->. auto.
  - unfold rowBody, bind, getTFile. rewrite Hf. simpl. auto.
Qed.

(** A cache miss that ends normally: the row has been decoded and is now
    the cached one. *)
Lemma rowBody_miss oldBuffer minY maxY tileRowSize j w f w' :
  Data.tFile (ifd w) = Some f ->
  Data.cachedTileY (ifd w) <> j ->
  rowBody oldBuffer minY maxY tileRowSize j w = Ok tt w' ->
  Data.cachedTileY (ifd w') = j /\
  log w' = log w ++ tilesOfRow f j /\
  exists fb, Data.tFile (ifd w') = Some (TiledInputFile.setFrameBuffer fb f).
Proof.
  intros Hf Hj H. rewrite (rowBody_unfold _ _ _ _ _ _ _ Hf) in H.
  replace (j =? Data.cachedTileY (ifd w)) with false in H
    by (symmetry; apply Z.eqb_neq; congruence).
  simpl in H. unfold bind in H.
  pose proof (fillCache_spec oldBuffer tileRowSize
                (TiledInputFile.dataWindowForTile f 0 j 0) j w f Hf) as Hs.
  destruct (fillCache _ _ _ _ w) as [[] w1|e w1]; [|discriminate].
  destruct Hs as (_ & Hy & Hl & cb & _ & _ & Ht).
  match type of H with copyPhase ?o ?a ?b w1 = _ =>
    pose proof (keeps_copyPhase (fun w => (ifd w, log w)) ltac:(reflexivity) o a b w1) as Hk
  end.
  rewrite H in Hk. simpl in Hk. injection Hk as -> ->.
  split; [exact Hy|]. split; [exact Hl|]. exists cb. exact Ht.
Qed.

Lemma rows_all_miss oldBuffer minY maxY tileRowSize rows : forall w f w',
  Data.tFile (ifd w) = Some f ->
  noRepeat (Data.cachedTileY (ifd w)) rows ->
  forEach (rowBody oldBuffer minY maxY tileRowSize) rows w = Ok tt w' ->
  log w' = log w ++ flat_map (tilesOfRow f) rows /\
  exists fb, Data.tFile (ifd w') = Some (TiledInputFile.setFrameBuffer fb f).
Proof.
  induction rows as [|j rows IH]; intros w f w' Hf Hn H.
  - simpl in H. injection H as <-. simpl. rewrite app_nil_r. split; [reflexivity|].
    exists (TiledInputFile.frameBuffer f). rewrite Hf. destruct f; reflexivity.
  - simpl in H. unfold bind in H.
    destruct (rowBody oldBuffer minY maxY tileRowSize j w) as [[] w1|e w1] eqn:Hr;
      [|discriminate].
    destruct Hn as (Hj & Hn).
    apply (rowBody_miss _ _ _ _ _ _ _ _ Hf) in Hr; [|congruence].
    destruct Hr as (Hy & Hl & fb & Ht).
    rewrite <- Hy in Hn.
    destruct (IH w1 _ w' Ht Hn H) as (Hl' & fb' & Ht').
    split.
    + rewrite Hl', Hl. simpl. rewrite <- app_assoc. reflexivity.
    + exists fb'. exact Ht'.
Qed.

(** The loop keeps the user's frame buffer restorable, and an [ArgExc]
    can only escape while that buffer is still the installed one. *)
Lemma rowBody_restorable oldBuffer minY maxY tileRowSize j w :
  restorable oldBuffer w ->
  match rowBody oldBuffer minY maxY tileRowSize j w with
  | Ok _ w' => restorable oldBuffer w'
  | Throw e w' =>
      (forall msg, e = ArgExc msg -> installed w' = Some oldBuffer) /\
      (forall msg, e = TileExc msg ->
         exists cb, Data.cachedBuffer (ifd w') = Some cb /\
                    installed w' = Some cb)
  end.
Proof.
  intros (f & Hf & Hinv). rewrite (rowBody_unfold _ _ _ _ _ _ _ Hf).
  set (tr := TiledInputFile.dataWindowForTile f 0 j 0).
  set (a := Z.max minY (Box2i.min_y tr)). set (b := Z.min maxY (Box2i.max_y tr)).
  destruct (negb (j =? Data.cachedTileY (ifd w))).
  - unfold bind.
    pose proof (fillCache_spec oldBuffer tileRowSize tr j w f Hf) as Hs.
    destruct (fillCache oldBuffer tileRowSize tr j w) as [[] w1|e w1].
    + destruct Hs as (Hall & _ & _ & cb & Hcb & Hn & Ht).
      destruct (copyPhase_ok oldBuffer a b w1 _ cb Ht Hcb Hall Hn) as (w2 & Hc).
      rewrite Hc.
      pose proof (keeps_copyPhase ifd ltac:(reflexivity) oldBuffer a b w1) as Hk.
      rewrite Hc in Hk. simpl in Hk.
      eexists. rewrite Hk. split; [exact Ht|]. right. split; [exact Hall|].
      exists cb. auto.
    + destruct Hs as (_ & [(-> & Hnot & Ht & _)|(msg & cb & -> & _ & Hcb & Ht)]).
      * split; [|intros msg [=]].
        intros _ _. unfold installed. rewrite Ht, Hf. simpl.
        destruct Hinv as [->|(Hall & _)]; [reflexivity | contradiction].
      * split; [intros msg' [=]|]. intros _ _. exists cb.
        unfold installed. rewrite Ht. auto.
  - pose proof (keeps_copyPhase ifd ltac:(reflexivity) oldBuffer a b w) as Hk.
    destruct (copyPhase oldBuffer a b w) as [[] w1|e w1] eqn:Hc; simpl in Hk.
    + exists f. rewrite Hk. auto.
    + split.
      * intros msg ->. unfold installed. rewrite Hk, Hf. simpl.
        destruct Hinv as [->|(Hall & cb & Hcb & Hn)]; [reflexivity|].
        destruct (copyPhase_ok oldBuffer a b w f cb Hf Hcb Hall Hn) as (w2 & Hc').
        congruence.
      * intros msg ->. apply copyPhase_throws in Hc.
        destruct Hc as [H|[(H & _)|(H & _)]]; discriminate.
Qed.

Lemma rows_restorable oldBuffer minY maxY tileRowSize rows : forall w,
  restorable oldBuffer w ->
  match forEach (rowBody oldBuffer minY maxY tileRowSize) rows w with
  | Ok _ w' => restorable oldBuffer w'
  | Throw e w' =>
      (forall msg, e = ArgExc msg -> installed w' = Some oldBuffer) /\
      (forall msg, e = TileExc msg ->
         exists cb, Data.cachedBuffer (ifd w') = Some cb /\
                    installed w' = Some cb)
  end.
Proof.
  induction rows as [|j rows IH]; intros w Hinv; simpl; [exact Hinv|].
  unfold bind.
  pose proof (rowBody_restorable oldBuffer minY maxY tileRowSize j w Hinv) as H.
  destruct (rowBody oldBuffer minY maxY tileRowSize j w) as [[] w1|e w1].
  - apply IH. exact H.
  - exact H.
Qed.

(** ** bufferedReadPixels as a whole *)

Lemma bufferedReadPixels_unfold scanLine1 scanLine2 w f :
  Data.tFile (ifd w) = Some f ->
  inWindow (ifd w) scanLine1 scanLine2 ->
  bufferedReadPixels scanLine1 scanLine2 w =
  (forEach (rowBody (TiledInputFile.frameBuffer f)
                    (Z.min scanLine1 scanLine2) (Z.max scanLine1 scanLine2)
                    (wrap (TiledInputFile.levelWidth f 0 * TiledInputFile.tileYSize f)))
           (tileRowOrder (ifd w) f scanLine1 scanLine2) ;;
   tFile_setFrameBuffer (TiledInputFile.frameBuffer f)) w.
Proof.
  intros Hf (Hlo & Hhi). unfold bufferedReadPixels.
  replace (Z.min scanLine1 scanLine2 <? Data.minY (ifd w)) with false
    by (symmetry; apply Z.ltb_ge; exact Hlo).
  replace (Z.max scanLine1 scanLine2 >? Data.maxY (ifd w)) with false
    by (symmetry; rewrite Z.gtb_ltb; apply Z.ltb_ge; exact Hhi).
  simpl. rewrite (bind_Ok _ _ _ _ _ (getTFile_Some _ _ Hf)). reflexivity.
Qed.

Lemma bufferedReadPixels_out_of_window scanLine1 scanLine2 w :
  ~ inWindow (ifd w) scanLine1 scanLine2 ->
  bufferedReadPixels scanLine1 scanLine2 w = Throw rangeError w.
Proof.
  intros H. unfold bufferedReadPixels.
  destruct (Z.min scanLine1 scanLine2 <? Data.minY (ifd w)) eqn:Ha; [reflexivity|].
  destruct (Z.max scanLine1 scanLine2 >? Data.maxY (ifd w)) eqn:Hb; [reflexivity|].
  exfalso. apply H. split.
  - apply Z.ltb_ge. exact Ha.
  - rewrite Z.gtb_ltb in Hb. apply Z.ltb_ge. exact Hb.
Qed.

Lemma inWindow_dec d scanLine1 scanLine2 :
  inWindow d scanLine1 scanLine2 \/ ~ inWindow d scanLine1 scanLine2.
Proof. unfold inWindow. lia. Qed.

Lemma restore_same d f :
  Data.tFile d = Some f ->
  Data.set_tFile
    (Some (TiledInputFile.setFrameBuffer (TiledInputFile.frameBuffer f) f)) d = d.
Proof.
  intros H. destruct d, f. simpl in *. rewrite H. reflexivity.
Qed.

(** ** The cache owns its arrays: an invariant of the session *)

Lemma cacheWf_of_state w w' :
  cacheState w' = cacheState w -> cacheWf w -> cacheWf w'.
Proof.
  unfold cacheState, cacheWf. intros [= -> -> _ ->]. auto.
Qed.

Lemma rowBody_heap oldBuffer minY maxY tileRowSize j w :
  cacheWf w ->
  let w' := finalWorld (rowBody oldBuffer minY maxY tileRowSize j w) in
  cacheWf w' /\
  (Data.cachedTileY (ifd w) <> j -> Data.tFile (ifd w) <> None ->
   forall b, In b (cacheBlocks (ifd w)) -> Heap.live (heap w') b = false).
Proof.
  intros Hwf. cbv zeta.
  destruct (Data.tFile (ifd w)) as [f|] eqn:Hf.
  2:{ unfold rowBody, bind, getTFile. rewrite Hf. simpl. split; [exact Hwf|].
      intros _ H. contradiction. }
  rewrite (rowBody_unfold _ _ _ _ _ _ _ Hf).
  set (tr := TiledInputFile.dataWindowForTile f 0 j 0).
  set (a := Z.max minY (Box2i.min_y tr)). set (b := Z.min maxY (Box2i.max_y tr)).
  pose proof (keeps_copyPhase cacheState ltac:(reflexivity) oldBuffer a b) as Hk.
  destruct (Z.eqb_spec j (Data.cachedTileY (ifd w))) as [Hj|Hj]; simpl.
  - split; [|congruence]. eapply cacheWf_of_state; [apply Hk | exact Hwf].
  - rewrite finalWorld_bind.
    destruct (fillCache_heap oldBuffer tileRowSize tr j w f Hf Hwf)
      as (Hwf1 & Hdead & _).
    destruct (fillCache oldBuffer tileRowSize tr j w) as [[] w1|e w1]; simpl in *.
    + split; [eapply cacheWf_of_state; [apply Hk | exact Hwf1]|].
      intros _ _ blk Hb. specialize (Hk w1). unfold cacheState in Hk.
      injection Hk as _ _ Hl _. rewrite Hl. apply Hdead. exact Hb.
    + split; [exact Hwf1|]. intros _ _. exact Hdead.
Qed.

Lemma rows_cacheWf oldBuffer minY maxY tileRowSize rows : forall w,
  cacheWf w ->
  cacheWf (finalWorld (forEach (rowBody oldBuffer minY maxY tileRowSize) rows w)).
Proof.
  induction rows as [|j rows IH]; intros w Hwf; simpl; [exact Hwf|].
  rewrite finalWorld_bind.
  pose proof (rowBody_heap oldBuffer minY maxY tileRowSize j w Hwf) as (H & _).
  destruct (rowBody oldBuffer minY maxY tileRowSize j w) as [[] w1|e w1]; simpl in H.
  - apply IH. exact H.
  - exact H.
Qed.

Lemma cacheWf_bufferedReadPixels scanLine1 scanLine2 w :
  cacheWf w -> cacheWf (finalWorld (bufferedReadPixels scanLine1 scanLine2 w)).
Proof.
  intros Hwf.
  destruct (inWindow_dec (ifd w) scanLine1 scanLine2) as [Hin|Hout].
  2:{ rewrite bufferedReadPixels_out_of_window by assumption. exact Hwf. }
  destruct (Data.tFile (ifd w)) as [f|] eqn:Hf.
  - rewrite (bufferedReadPixels_unfold _ _ _ _ Hf Hin). rewrite finalWorld_bind.
    pose proof (rows_cacheWf (TiledInputFile.frameBuffer f)
                  (Z.min scanLine1 scanLine2) (Z.max scanLine1 scanLine2)
                  (wrap (TiledInputFile.levelWidth f 0 * TiledInputFile.tileYSize f))
                  (tileRowOrder (ifd w) f scanLine1 scanLine2) w Hwf) as H.
    destruct (forEach _ _ w) as [[] w1|e w1]; simpl in H; [|exact H].
    eapply cacheWf_of_state; [|exact H].
    apply (keeps_tFile_setFrameBuffer cacheState). reflexivity.
  - unfold bufferedReadPixels, bind, getTFile. rewrite Hf.
    destruct (_ || _); exact Hwf.
Qed.

Lemma cacheWf_setFrameBuffer isTiled fb w :
  cacheWf w -> cacheWf (finalWorld (InputFile_setFrameBuffer isTiled fb w)).
Proof.
  intros Hwf. eapply cacheWf_of_state; [|exact Hwf].
  unfold InputFile_setFrameBuffer.
  destruct (isTiled (Data.version (ifd w))).
  - pose proof (keeps_bind cacheState
      (modify (fun w' => set_ifd (invalidateOnMismatch
                 (Header.channels (Data.header (ifd w'))) fb (ifd w')) w'))
      (fun _ => tFile_setFrameBuffer fb)) as H.
    apply H.
    + apply keeps_modify. intros w0. unfold cacheState. simpl.
      destruct (invalidateOnMismatch_cases
                  (Header.channels (Data.header (ifd w0))) fb (ifd w0)) as [-> | ->];
        reflexivity.
    + intros _. apply keeps_tFile_setFrameBuffer. reflexivity.
  - unfold sFile_setFrameBuffer. destruct (Data.sFile (ifd w)); reflexivity.
Qed.

Lemma cacheWf_new isTiled fileName hdr version tf sf h :
  cacheWf (mkWorld (InputFile_new isTiled fileName hdr version tf sf) h []).
Proof.
  unfold cacheWf, InputFile_new. simpl. destruct (isTiled version); exact I.
Qed.

(** * The claims *)

(** ** C6: a request outside the data window *)

(** C6.  On a tiled file, [readPixels (scanLine1, scanLine2)] whose
    normalised range starts below the data window's [minY] or ends above
    its [maxY] fails with the range error, and the state it leaves is the
    state it found: pixel memory, cache fields, heap and decoder are all
    untouched. *)
Theorem readPixels_out_of_window_no_mutation
    (isTiled : Z -> bool) (w : World) (scanLine1 scanLine2 : Z) :
  isTiled (Data.version (ifd w)) = true ->
  Z.min scanLine1 scanLine2 < Data.minY (ifd w) \/
  Z.max scanLine1 scanLine2 > Data.maxY (ifd w) ->
  InputFile_readPixels isTiled scanLine1 scanLine2 w = Throw rangeError w.
Proof.
  intros Ht Hout. unfold InputFile_readPixels. rewrite Ht.
  apply bufferedReadPixels_out_of_window. unfold inWindow. lia.
Qed.

Lemma readPixels_out_of_window_no_mutation_witness :
  InputFile_readPixels sampleIsTiled 8 9 sampleCached = Throw rangeError sampleCached.
Proof.
  apply readPixels_out_of_window_no_mutation.
  - reflexivity.
  - right. vm_compute. reflexivity.
Defined.

(** ** C10: an empty frame buffer *)

(** C10.  On a tiled file, [setFrameBuffer] with a frame buffer that has
    no channel returns normally, leaves [cachedTileY] and the rest of the
    cache as they were, and installs the empty frame buffer on the tiled
    decoder. *)
Theorem setFrameBuffer_empty_keeps_cache
    (isTiled : Z -> bool) (w : World) (f : TiledInputFile.t) :
  tiledSession isTiled w f ->
  exists w', InputFile_setFrameBuffer isTiled [] w = Ok tt w' /\
             Data.cachedTileY (ifd w') = Data.cachedTileY (ifd w) /\
             cacheState w' = cacheState w /\
             installed w' = Some [].
Proof.
  intros Hs. rewrite (setFrameBuffer_tiled _ _ _ _ Hs). eexists.
  split; [reflexivity|]. simpl. auto.
Qed.

Lemma setFrameBuffer_empty_keeps_cache_witness :
  exists w', InputFile_setFrameBuffer sampleIsTiled [] sampleCached = Ok tt w' /\
             Data.cachedTileY (ifd w') = Data.cachedTileY (ifd sampleCached) /\
             cacheState w' = cacheState sampleCached /\
             installed w' = Some [].
Proof.
  apply (setFrameBuffer_empty_keeps_cache sampleIsTiled sampleCached
           (TiledInputFile.setFrameBuffer fbR (sampleTiled (decodeConst x2a)))).
  split; vm_compute; reflexivity.
Defined.

(** ** C8: the order of the tile rows *)

(** C8.  A tiled-mode [readPixels] whose range lies in the data window
    runs the loop body once for each tile row from the row of the first
    scan line requested to the row of the last one: from the highest index
    down to the lowest when the file's line order is [DECREASING_Y], from
    the lowest up to the highest otherwise; then it reinstalls the user's
    frame buffer. *)
Theorem tile_rows_follow_line_order
    (w : World) (f : TiledInputFile.t) (scanLine1 scanLine2 : Z) :
  Data.tFile (ifd w) = Some f ->
  wfGeometry (ifd w) f ->
  inWindow (ifd w) scanLine1 scanLine2 ->
  let minDy := rowOf (ifd w) f (Z.min scanLine1 scanLine2) in
  let maxDy := rowOf (ifd w) f (Z.max scanLine1 scanLine2) in
  let rows := match Data.lineOrder (ifd w) with
              | DECREASING_Y => rev (zrange minDy maxDy)
              | _ => zrange minDy maxDy
              end in
  tileRowOrder (ifd w) f scanLine1 scanLine2 = rows /\
  bufferedReadPixels scanLine1 scanLine2 w =
  (forEach (rowBody (TiledInputFile.frameBuffer f)
                    (Z.min scanLine1 scanLine2) (Z.max scanLine1 scanLine2)
                    (wrap (TiledInputFile.levelWidth f 0 * TiledInputFile.tileYSize f)))
           rows ;;
   tFile_setFrameBuffer (TiledInputFile.frameBuffer f)) w.
Proof.
  intros Hf Hg Hin. cbv zeta.
  rewrite (bufferedReadPixels_unfold _ _ _ _ Hf Hin).
  rewrite (tileRowOrder_explicit _ _ _ _ Hg Hin).
  split; reflexivity.
Qed.

Lemma tile_rows_follow_line_order_witness :
  tileRowOrder (ifd sampleCached)
               (TiledInputFile.setFrameBuffer fbR (sampleTiled (decodeConst x2a)))
               6 1 = zrange 0 1.
Proof.
  refine (proj1 (tile_rows_follow_line_order sampleCached
           (TiledInputFile.setFrameBuffer fbR (sampleTiled (decodeConst x2a)))
           6 1 _ _ _)).
  - vm_compute. reflexivity.
  - unfold wfGeometry, in_int, int_half. simpl. lia.
  - unfold inWindow. simpl. lia.
Defined.

(** ** C2: channels the cached buffer does not have *)

Lemma forEach_ext_in {A} (body body' : A -> M unit) xs :
  (forall x w, In x xs -> body x w = body' x w) ->
  forall w, forEach body xs w = forEach body' xs w.
Proof.
  induction xs as [|x xs IH]; intros Hext w; simpl; [reflexivity|].
  unfold bind. rewrite (Hext x w) by (left; reflexivity).
  destruct (body' x w); [|reflexivity].
  apply IH. intros y w' Hy. apply Hext. right. exact Hy.
Qed.

Lemma copyPhase_ext oldBuffer oldBuffer' y1 y2 w cb :
  Data.cachedBuffer (ifd w) = Some cb ->
  (forall k, In k cb -> find (fst k) oldBuffer' = find (fst k) oldBuffer) ->
  copyPhase oldBuffer' y1 y2 w = copyPhase oldBuffer y1 y2 w.
Proof.
  intros Hc Hfind. unfold copyPhase, bind.
  destruct (getTFile w) as [f w1|e w1] eqn:Hg; [|reflexivity].
  assert (w1 = w) as ->.
  { unfold getTFile in Hg. destruct (Data.tFile (ifd w)); congruence. }
  unfold getCachedBuffer. rewrite Hc.
  apply forEach_ext_in. intros k w' Hk.
  unfold copyChannel, FrameBuffer_at, bind. rewrite (Hfind k Hk). reflexivity.
Qed.

(** C2.  The copy phase runs over the channels of the cached buffer.  Its
    outcome (the bytes copied and whether an error is raised) is the one
    it has on the target buffer cut down to the channels that the cached
    buffer has too; and a channel put into the target buffer under a name
    that the cached buffer lacks changes nothing: nothing is copied for it
    and it raises no error. *)
Theorem copyPhase_skips_uncached_channels
    (w : World) (cb oldBuffer : FrameBuffer) (minYThisRow maxYThisRow : Z) :
  Data.cachedBuffer (ifd w) = Some cb ->
  copyPhase oldBuffer minYThisRow maxYThisRow w =
  copyPhase (restrictTo cb oldBuffer) minYThisRow maxYThisRow w /\
  forall name s,
    hasName name cb = false ->
    copyPhase (insert name s oldBuffer) minYThisRow maxYThisRow w =
    copyPhase oldBuffer minYThisRow maxYThisRow w.
Proof.
  intros Hc. split.
  - symmetry. apply (copyPhase_ext _ _ _ _ _ cb Hc).
    intros k Hk. apply find_restrictTo. apply hasName_in. exact Hk.
  - intros name s Hn. apply (copyPhase_ext _ _ _ _ _ cb Hc).
    intros k Hk. rewrite find_insert.
    destruct (String.eqb (fst k) name) eqn:He; [|reflexivity].
    apply String.eqb_eq in He. subst name.
    rewrite (hasName_in cb k Hk) in Hn. discriminate.
Qed.

Lemma copyPhase_skips_uncached_channels_witness :
  copyPhase fbGR 0 3 sampleStale = copyPhase (restrictTo fbR fbGR) 0 3 sampleStale.
Proof.
  refine (proj1 (copyPhase_skips_uncached_channels sampleStale
           [("R", Slice.mk HALF (Ptr.mk 3%positive 0) 2 2)] fbGR 0 3 _)).
  vm_compute. reflexivity.
Defined.

(** ** C4: setFrameBuffer and the cached row *)

Lemma noRepeat_of_NoDup rows : forall prev,
  NoDup (prev :: rows) -> noRepeat prev rows.
Proof.
  induction rows as [|j rows IH]; intros prev H; simpl; [exact I|].
  inversion H as [|? ? Hnot Hrest]; subst. split.
  - intros ->. apply Hnot. left. reflexivity.
  - apply IH. exact Hrest.
Qed.

Lemma NoDup_zrange a b : NoDup (zrange a b).
Proof.
  remember (Z.to_nat (b - a + 1)) as n eqn:Hn. revert a Hn.
  induction n as [|n IH]; intros a Hn.
  - rewrite zrange_nil by lia. constructor.
  - rewrite zrange_cons by lia. constructor.
    + rewrite in_zrange. lia.
    + apply IH. lia.
Qed.

Lemma tileRowOrder_rows d f scanLine1 scanLine2 :
  wfGeometry d f -> inWindow d scanLine1 scanLine2 ->
  NoDup (tileRowOrder d f scanLine1 scanLine2) /\
  (forall j, In j (tileRowOrder d f scanLine1 scanLine2) ->
             rowOf d f (Z.min scanLine1 scanLine2) <= j
             <= rowOf d f (Z.max scanLine1 scanLine2)) /\
  0 <= rowOf d f (Z.min scanLine1 scanLine2)
    <= rowOf d f (Z.max scanLine1 scanLine2).
Proof.
  intros Hg Hin. rewrite (tileRowOrder_explicit _ _ _ _ Hg Hin).
  destruct Hin as (Hlo & Hhi).
  destruct (minDyOf_rowOf d f (Z.min scanLine1 scanLine2) Hg) as (_ & Ha); [lia|].
  assert (Hm : rowOf d f (Z.min scanLine1 scanLine2)
               <= rowOf d f (Z.max scanLine1 scanLine2)).
  { apply rowOf_mono; [apply Hg | lia]. }
  split; [|split; [|lia]].
  - destruct (Data.lineOrder d); try apply NoDup_rev; apply NoDup_zrange.
  - intros j. destruct (Data.lineOrder d); try rewrite <- in_rev;
      apply in_zrange.
Qed.

Lemma noRepeat_tileRowOrder d f scanLine1 scanLine2 prev :
  wfGeometry d f -> inWindow d scanLine1 scanLine2 -> prev < 0 ->
  noRepeat prev (tileRowOrder d f scanLine1 scanLine2).
Proof.
  intros Hg Hin Hp.
  destruct (tileRowOrder_rows d f scanLine1 scanLine2 Hg Hin) as (Hnd & Hb & H0).
  apply noRepeat_of_NoDup. constructor; [|exact Hnd].
  intros H. apply Hb in H. lia.
Qed.

(** C4.  On a tiled file [setFrameBuffer (fb)] returns with [fb] installed
    on the tiled decoder.  If [fb] names a channel that the header's
    channel list lacks, or has with another type, [cachedTileY] is [-1]
    afterwards, and a following [readPixels] in the data window that
    returns normally has decoded every tile of every tile row it visited,
    the row that was cached before included.  If every channel of [fb]
    agrees with the header, [cachedTileY] is left as it was. *)
Theorem setFrameBuffer_invalidates_on_mismatch
    (isTiled : Z -> bool) (w : World) (f : TiledInputFile.t) (fb : FrameBuffer) :
  tiledSession isTiled w f ->
  exists w',
    InputFile_setFrameBuffer isTiled fb w = Ok tt w' /\
    installed w' = Some fb /\
    (Exists (mismatch (Header.channels (Data.header (ifd w)))) fb ->
     Data.cachedTileY (ifd w') = -1 /\
     forall scanLine1 scanLine2 w'',
       wfGeometry (ifd w) f -> inWindow (ifd w) scanLine1 scanLine2 ->
       InputFile_readPixels isTiled scanLine1 scanLine2 w' = Ok tt w'' ->
       log w'' = log w' ++
                 flat_map (tilesOfRow f)
                          (tileRowOrder (ifd w) f scanLine1 scanLine2)) /\
    (~ Exists (mismatch (Header.channels (Data.header (ifd w)))) fb ->
     Data.cachedTileY (ifd w') = Data.cachedTileY (ifd w)).
Proof.
  intros Hs. rewrite (setFrameBuffer_tiled _ _ _ _ Hs). eexists.
  split; [reflexivity|]. split; [reflexivity|]. split.
  - intros Hm. rewrite (invalidateOnMismatch_hit _ _ _ Hm).
    split; [reflexivity|].
    intros scanLine1 scanLine2 w'' Hg Hin Hr.
    destruct Hs as (Ht & Hf).
    unfold InputFile_readPixels in Hr. simpl in Hr. rewrite Ht in Hr.
    set (w1 := set_ifd _ w) in *.
    assert (Hf1 : Data.tFile (ifd w1) = Some (TiledInputFile.setFrameBuffer fb f))
      by reflexivity.
    rewrite (bufferedReadPixels_unfold _ _ _ _ Hf1 Hin) in Hr.
    unfold bind in Hr.
    destruct (forEach _ _ w1) as [[] w2|e w2] eqn:Hrows; [|discriminate].
    apply (rows_all_miss _ _ _ _ _ _ _ _ Hf1) in Hrows.
    + destruct Hrows as (Hl & fb' & Ht2).
      rewrite (tFile_setFrameBuffer_eq _ _ _ Ht2) in Hr.
      injection Hr as <-. exact Hl.
    + apply (noRepeat_tileRowOrder (ifd w) f); [exact Hg | exact Hin | reflexivity].
  - intros Hm. rewrite (invalidateOnMismatch_miss _ _ _ Hm). reflexivity.
Qed.

Lemma setFrameBuffer_invalidates_on_mismatch_witness :
  exists w' w'',
    Data.cachedTileY (ifd sampleCached) = 0 /\
    InputFile_setFrameBuffer sampleIsTiled fbFloat sampleCached = Ok tt w' /\
    Data.cachedTileY (ifd w') = -1 /\
    InputFile_readPixels sampleIsTiled 2 1 w' = Ok tt w'' /\
    log w'' = log w' ++ [EvReadTile 0 0 0].
Proof.
  destruct (setFrameBuffer_invalidates_on_mismatch sampleIsTiled sampleCached
              (TiledInputFile.setFrameBuffer fbR (sampleTiled (decodeConst x2a)))
              fbFloat) as (w' & H1 & _ & H3 & _).
  - split; vm_compute; reflexivity.
  - destruct H3 as (Hy & Hlog).
    + left. unfold mismatch. simpl. discriminate.
    + assert (Hw : w' = finalWorld (InputFile_setFrameBuffer sampleIsTiled fbFloat
                                      sampleCached))
        by (rewrite H1; reflexivity).
      exists w'.
      destruct (InputFile_readPixels sampleIsTiled 2 1 w') as [[] w''|e w''] eqn:Hr.
      * exists w''. split; [vm_compute; reflexivity|]. split; [exact H1|].
        split; [exact Hy|]. split; [reflexivity|].
        assert (Hg : wfGeometry (ifd sampleCached)
                  (TiledInputFile.setFrameBuffer fbR (sampleTiled (decodeConst x2a))))
          by (unfold wfGeometry, in_int, int_half; simpl; lia).
        assert (Hin : inWindow (ifd sampleCached) 2 1)
          by (unfold inWindow; simpl; lia).
        exact (Hlog 2 1 w'' Hg Hin Hr).
      * exfalso. rewrite Hw in Hr. vm_compute in Hr. discriminate.
Defined.

(** ** C5: the cached row is not decoded again *)

Lemma bufferedReadPixels_hit scanLine1 scanLine2 w f j :
  Data.tFile (ifd w) = Some f ->
  wfGeometry (ifd w) f ->
  Data.cachedTileY (ifd w) = j ->
  rowOf (ifd w) f (Z.min scanLine1 scanLine2) = j ->
  rowOf (ifd w) f (Z.max scanLine1 scanLine2) = j ->
  let w' := finalWorld (bufferedReadPixels scanLine1 scanLine2 w) in
  ifd w' = ifd w /\ log w' = log w /\
  Heap.live (heap w') = Heap.live (heap w) /\
  Heap.next (heap w') = Heap.next (heap w).
Proof.
  intros Hf Hg Hj Hlo Hhi. cbv zeta.
  destruct (inWindow_dec (ifd w) scanLine1 scanLine2) as [Hin|Hout].
  2:{ rewrite bufferedReadPixels_out_of_window by assumption. simpl. auto. }
  rewrite (bufferedReadPixels_unfold _ _ _ _ Hf Hin).
  rewrite (tileRowOrder_explicit _ _ _ _ Hg Hin). rewrite Hlo, Hhi.
  assert (Hrows : match Data.lineOrder (ifd w) with
                  | DECREASING_Y => rev (zrange j j)
                  | _ => zrange j j
                  end = [j]).
  { rewrite zrange_cons by lia. rewrite zrange_nil by lia.
    destruct (Data.lineOrder (ifd w)); reflexivity. }
  rewrite Hrows. simpl forEach. rewrite finalWorld_bind.
  set (body := rowBody _ _ _ _ j).
  pose proof (rowBody_hit (TiledInputFile.frameBuffer f)
                (Z.min scanLine1 scanLine2) (Z.max scanLine1 scanLine2)
                (wrap (TiledInputFile.levelWidth f 0 * TiledInputFile.tileYSize f))
                j w Hj) as Hhit.
  cbv zeta in Hhit. fold body in Hhit. unfold bind.
  destruct (body w) as [[] w1|e w1]; simpl in Hhit |- *; [|exact Hhit].
  destruct Hhit as (Hi & Hl & Hlv & Hn).
  assert (Hf1 : Data.tFile (ifd w1) = Some f) by (rewrite Hi; exact Hf).
  rewrite (tFile_setFrameBuffer_eq _ _ _ Hf1). simpl.
  rewrite (restore_same _ _ Hf1). auto.
Qed.

Lemma readMany_hits calls : forall w f j,
  Data.tFile (ifd w) = Some f ->
  wfGeometry (ifd w) f ->
  Data.cachedTileY (ifd w) = j ->
  (forall c, In c calls ->
     rowOf (ifd w) f (Z.min (fst c) (snd c)) = j /\
     rowOf (ifd w) f (Z.max (fst c) (snd c)) = j) ->
  let w' := finalWorld (readMany calls w) in
  ifd w' = ifd w /\ log w' = log w /\
  Heap.live (heap w') = Heap.live (heap w) /\
  Heap.next (heap w') = Heap.next (heap w).
Proof.
  induction calls as [|c calls IH]; intros w f j Hf Hg Hj Hrows; cbv zeta.
  - simpl. auto.
  - unfold readMany. simpl forEach. rewrite finalWorld_bind.
    destruct (Hrows c (or_introl eq_refl)) as (Hlo & Hhi).
    pose proof (bufferedReadPixels_hit (fst c) (snd c) w f j Hf Hg Hj Hlo Hhi) as H.
    cbv zeta in H.
    destruct (bufferedReadPixels (fst c) (snd c) w) as [[] w1|e w1];
      simpl in H; [|exact H].
    destruct H as (Hi & Hl & Hlv & Hn).
    specialize (IH w1 f j). cbv zeta in IH. unfold readMany in IH.
    rewrite Hi, Hl, Hlv, Hn in IH. apply IH; auto.
    intros c' Hc'. apply Hrows. right. exact Hc'.
Qed.

(** C5.  Let row [j] be the cached tile row.
    - A visit of row [j] by the loop of [readPixels] issues no [readTile]
      call and leaves the cache fields, the decoder and the set of live
      arrays as they were, whatever its outcome.
    - So does any run of [readPixels] calls whose scan lines all lie in
      row [j]: the row stays cached and none of its tiles is decoded
      again.
    - A visit of another row [j'] that ends normally leaves [j'] as the
      one cached row: its tiles have been decoded once each, and every
      array of the buffer cached before has been released. *)
Theorem cache_hit_decodes_nothing
    (w : World) (f : TiledInputFile.t) (j : Z) (calls : list (Z * Z))
    (oldBuffer : FrameBuffer) (minY maxY tileRowSize : Z) :
  Data.tFile (ifd w) = Some f ->
  Data.cachedTileY (ifd w) = j ->
  wfGeometry (ifd w) f ->
  cacheWf w ->
  (forall c, In c calls ->
     rowOf (ifd w) f (Z.min (fst c) (snd c)) = j /\
     rowOf (ifd w) f (Z.max (fst c) (snd c)) = j) ->
  (let w' := finalWorld (rowBody oldBuffer minY maxY tileRowSize j w) in
   ifd w' = ifd w /\ log w' = log w /\
   Heap.live (heap w') = Heap.live (heap w) /\
   Heap.next (heap w') = Heap.next (heap w)) /\
  (let w' := finalWorld (readMany calls w) in
   ifd w' = ifd w /\ log w' = log w /\
   Heap.live (heap w') = Heap.live (heap w) /\
   Heap.next (heap w') = Heap.next (heap w)) /\
  (forall j' w', j' <> j ->
     rowBody oldBuffer minY maxY tileRowSize j' w = Ok tt w' ->
     Data.cachedTileY (ifd w') = j' /\
     log w' = log w ++ tilesOfRow f j' /\
     forall b, In b (cacheBlocks (ifd w)) -> Heap.live (heap w') b = false).
Proof.
  intros Hf Hj Hg Hwf Hcalls. split; [|split].
  - apply rowBody_hit. exact Hj.
  - apply (readMany_hits calls w f j); assumption.
  - intros j' w' Hj' Hr.
    assert (Hne : Data.cachedTileY (ifd w) <> j') by congruence.
    destruct (rowBody_miss _ _ _ _ _ _ _ _ Hf Hne Hr) as (Hy & Hl & _).
    split; [exact Hy|]. split; [exact Hl|].
    pose proof (rowBody_heap oldBuffer minY maxY tileRowSize j' w Hwf) as (_ & Hd).
    rewrite Hr in Hd. simpl in Hd. apply Hd; congruence.
Qed.

Lemma cache_hit_decodes_nothing_witness :
  let w' := finalWorld (readMany [(0, 3); (2, 1); (3, 3)] sampleCached) in
  ifd w' = ifd sampleCached /\ log w' = [EvReadTile 0 0 0] /\
  Heap.live (heap w') = Heap.live (heap sampleCached) /\
  Heap.next (heap w') = Heap.next (heap sampleCached).
Proof.
  refine (proj1 (proj2 (cache_hit_decodes_nothing sampleCached
           (TiledInputFile.setFrameBuffer fbR (sampleTiled (decodeConst x2a)))
           0 [(0, 3); (2, 1); (3, 3)] fbR 0 3 4 _ _ _ _ _))).
  - vm_compute. reflexivity.
  - vm_compute. reflexivity.
  - unfold wfGeometry, in_int, int_half. simpl. lia.
  - unfold cacheWf. simpl. repeat constructor.
    exists 2. split; [reflexivity | vm_compute; reflexivity].
  - intros c [<-|[<-|[<-|[]]]]; split; vm_compute; reflexivity.
Defined.

(** ** C9: setFrameBuffer and the cached storage *)

Lemma Data_delete_frees w :
  cacheWf w ->
  forall b, In b (cacheBlocks (ifd w)) ->
            Heap.live (heap (Data_delete w)) b = false.
Proof.
  unfold cacheWf, cacheBlocks, Data_delete, releaseCachedBuffer. simpl.
  intros Hwf b Hb. destruct (Data.cachedBuffer (ifd w)) as [cb|]; [|destruct Hb].
  apply in_map_iff in Hb. destruct Hb as (k & <- & Hin).
  apply deleteSlices_frees; [|exact Hin].
  rewrite Forall_forall in Hwf. apply Forall_forall.
  intros k' Hk'. apply (Hwf k' Hk').
Qed.

(** C9.  On a tiled file [setFrameBuffer] leaves the cached buffer, its
    [offset] and the whole heap (contents, live arrays) as they were; of
    the cache it changes at most [cachedTileY], to [-1].  The arrays of
    the cached buffer are released afterwards by the next visit of a tile
    row that is not the cached one, or by the destructor of the session
    data; a visit of the cached row releases nothing. *)
Theorem setFrameBuffer_keeps_cached_storage
    (isTiled : Z -> bool) (w : World) (f : TiledInputFile.t) (fb : FrameBuffer) :
  tiledSession isTiled w f ->
  cacheWf w ->
  exists w',
    InputFile_setFrameBuffer isTiled fb w = Ok tt w' /\
    Data.cachedBuffer (ifd w') = Data.cachedBuffer (ifd w) /\
    Data.offset (ifd w') = Data.offset (ifd w) /\
    heap w' = heap w /\
    (Data.cachedTileY (ifd w') = Data.cachedTileY (ifd w) \/
     Data.cachedTileY (ifd w') = -1) /\
    (forall oldBuffer minY maxY tileRowSize j b,
       In b (cacheBlocks (ifd w)) ->
       let w'' := finalWorld (rowBody oldBuffer minY maxY tileRowSize j w') in
       (j <> Data.cachedTileY (ifd w') -> Heap.live (heap w'') b = false) /\
       (j = Data.cachedTileY (ifd w') ->
        Heap.live (heap w'') b = Heap.live (heap w) b)) /\
    (forall b, In b (cacheBlocks (ifd w)) ->
               Heap.live (heap (Data_delete w')) b = false).
Proof.
  intros Hs Hwf.
  pose proof (cacheWf_setFrameBuffer isTiled fb w Hwf) as Hwf'.
  rewrite (setFrameBuffer_tiled _ _ _ _ Hs) in *. simpl in Hwf'.
  eexists. split; [reflexivity|].
  set (w' := set_ifd _ w) in *.
  assert (Hcases : ifd w' = Data.set_tFile (Some (TiledInputFile.setFrameBuffer fb f)) (ifd w)
                   \/ ifd w' = Data.set_tFile (Some (TiledInputFile.setFrameBuffer fb f))
                                 (Data.set_cachedTileY (-1) (ifd w))).
  { unfold w'. simpl.
    destruct (invalidateOnMismatch_cases
                (Header.channels (Data.header (ifd w))) fb (ifd w)) as [-> | ->]; auto. }
  assert (Hc : Data.cachedBuffer (ifd w') = Data.cachedBuffer (ifd w))
    by (destruct Hcases as [-> | ->]; reflexivity).
  assert (Ho : Data.offset (ifd w') = Data.offset (ifd w))
    by (destruct Hcases as [-> | ->]; reflexivity).
  assert (Hb : cacheBlocks (ifd w') = cacheBlocks (ifd w))
    by (unfold cacheBlocks; rewrite Hc; reflexivity).
  split; [exact Hc|]. split; [exact Ho|]. split; [reflexivity|].
  split; [destruct Hcases as [-> | ->]; simpl; auto|].
  split.
  - intros oldBuffer minY maxY tileRowSize j b Hin. cbv zeta. split.
    + intros Hj.
      pose proof (rowBody_heap oldBuffer minY maxY tileRowSize j w' Hwf') as (_ & Hd).
      apply Hd.
      * congruence.
      * destruct Hcases as [-> | ->]; discriminate.
      * rewrite Hb. exact Hin.
    + intros Hj.
      pose proof (rowBody_hit oldBuffer minY maxY tileRowSize j w' (eq_sym Hj))
        as (_ & _ & Hl & _).
      rewrite Hl. reflexivity.
  - intros b Hin. apply Data_delete_frees; [exact Hwf'|]. rewrite Hb. exact Hin.
Qed.

Lemma setFrameBuffer_keeps_cached_storage_witness :
  exists w',
    InputFile_setFrameBuffer sampleIsTiled fbFloat sampleCached = Ok tt w' /\
    Data.cachedBuffer (ifd w') = Data.cachedBuffer (ifd sampleCached) /\
    heap w' = heap sampleCached /\
    Heap.live (heap w') 3%positive = true /\
    Heap.live (heap (finalWorld (rowBody fbFloat 0 0 4 0 w'))) 3%positive = false /\
    Heap.live (heap (Data_delete w')) 3%positive = false.
Proof.
  destruct (setFrameBuffer_keeps_cached_storage sampleIsTiled sampleCached
              (TiledInputFile.setFrameBuffer fbR (sampleTiled (decodeConst x2a)))
              fbFloat) as (w' & H1 & H2 & _ & H4 & H5 & H6 & H7).
  - split; vm_compute; reflexivity.
  - unfold cacheWf. simpl. repeat constructor.
    exists 2. split; [reflexivity | vm_compute; reflexivity].
  - assert (Hw : w' = finalWorld (InputFile_setFrameBuffer sampleIsTiled fbFloat
                                    sampleCached))
      by (rewrite H1; reflexivity).
    exists w'. split; [exact H1|]. split; [exact H2|]. split; [exact H4|].
    assert (Hin : In 3%positive (cacheBlocks (ifd sampleCached)))
      by (vm_compute; left; reflexivity).
    split; [rewrite H4; vm_compute; reflexivity|].
    split; [|apply H7; exact Hin].
    apply (H6 fbFloat 0 0 4 0 3%positive Hin).
    rewrite Hw. vm_compute. discriminate.
Defined.

(** ** C1: the installed frame buffer across a call *)

Lemma restorable_entry w f :
  Data.tFile (ifd w) = Some f -> restorable (TiledInputFile.frameBuffer f) w.
Proof. intros Hf. exists f. auto. Qed.

(** C1, as the code has it.  When [bufferedReadPixels] returns normally,
    the frame buffer installed on the tiled decoder is the one that was
    installed on entry.  The same holds when the call fails with an
    [ArgExc] of its own (scan line outside the data window, unknown pixel
    type, slice not found), because these are raised before any cached
    buffer has been installed.  Nothing is said of a call that fails
    inside [readTile]. *)
Theorem bufferedReadPixels_restores_installed
    (scanLine1 scanLine2 : Z) (w : World) :
  match bufferedReadPixels scanLine1 scanLine2 w with
  | Ok _ w' => installed w' = installed w
  | Throw (ArgExc _) w' => installed w' = installed w
  | Throw _ _ => True
  end.
Proof.
  destruct (inWindow_dec (ifd w) scanLine1 scanLine2) as [Hin|Hout].
  2:{ rewrite bufferedReadPixels_out_of_window by assumption. reflexivity. }
  destruct (Data.tFile (ifd w)) as [f|] eqn:Hf.
  2:{ unfold bufferedReadPixels, bind, getTFile. rewrite Hf.
      destruct (_ || _); [reflexivity | exact I]. }
  rewrite (bufferedReadPixels_unfold _ _ _ _ Hf Hin). unfold bind.
  pose proof (rows_restorable (TiledInputFile.frameBuffer f)
                (Z.min scanLine1 scanLine2) (Z.max scanLine1 scanLine2)
                (wrap (TiledInputFile.levelWidth f 0 * TiledInputFile.tileYSize f))
                (tileRowOrder (ifd w) f scanLine1 scanLine2) w
                (restorable_entry w f Hf)) as H.
  assert (Hi : installed w = Some (TiledInputFile.frameBuffer f))
    by (unfold installed; rewrite Hf; reflexivity).
  destruct (forEach _ _ w) as [[] w1|e w1].
  - destruct H as (f1 & Hf1 & _).
    rewrite (tFile_setFrameBuffer_eq _ _ _ Hf1). rewrite Hi. reflexivity.
  - destruct e; try exact I. rewrite Hi. apply (proj1 H msg). reflexivity.
Qed.

(** C1 as stated fails: when the decoder fails on a tile, the call ends
    with the cached buffer still installed in place of the user's. *)
Lemma readTile_failure_leaves_scratch_installed :
  installed sampleFailing = Some fbR /\
  exists msg w',
    InputFile_readPixels sampleIsTiled 0 0 sampleFailing = Throw (TileExc msg) w' /\
    installed w' = Some [("R", Slice.mk HALF (Ptr.mk 3%positive 0) 2 2)] /\
    installed w' <> installed sampleFailing.
Proof.
  split; [vm_compute; reflexivity|].
  exists "Unexpected end of file.".
  exists (finalWorld (InputFile_readPixels sampleIsTiled 0 0 sampleFailing)).
  split; [vm_compute; reflexivity|].
  split; [vm_compute; reflexivity|].
  vm_compute. discriminate.
Qed.

(** ** C3: an element type outside the recognised ones *)

Lemma rowBody_known oldBuffer minY maxY tileRowSize j w e w' :
  allKnown oldBuffer ->
  rowBody oldBuffer minY maxY tileRowSize j w = Throw e w' ->
  e <> unknownTypeError /\ e <> unknownSizeError.
Proof.
  intros Hall H.
  destruct (Data.tFile (ifd w)) as [f|] eqn:Hf.
  2:{ unfold rowBody, bind, getTFile in H. rewrite Hf in H.
      injection H as <- _. split; discriminate. }
  rewrite (rowBody_unfold _ _ _ _ _ _ _ Hf) in H.
  assert (Hcopy : forall a b w0,
            copyPhase oldBuffer a b w0 = Throw e w' ->
            e <> unknownTypeError /\ e <> unknownSizeError).
  { intros a b w0 Hc. apply copyPhase_throws in Hc.
    destruct Hc as [->|[(-> & _)|(_ & Hnot)]];
      [split; discriminate | split; discriminate | contradiction]. }
  destruct (negb (j =? Data.cachedTileY (ifd w))); [|eapply Hcopy; exact H].
  unfold bind in H.
  pose proof (fillCache_spec oldBuffer tileRowSize
                (TiledInputFile.dataWindowForTile f 0 j 0) j w f Hf) as Hs.
  destruct (fillCache _ _ _ _ w) as [[] w1|e1 w1].
  - eapply Hcopy. exact H.
  - injection H as <- _.
    destruct Hs as (_ & [(_ & Hnot & _)|(msg & cb & -> & _)]);
      [contradiction | split; discriminate].
Qed.

Lemma rows_known oldBuffer minY maxY tileRowSize rows : forall w e w',
  allKnown oldBuffer ->
  forEach (rowBody oldBuffer minY maxY tileRowSize) rows w = Throw e w' ->
  e <> unknownTypeError /\ e <> unknownSizeError.
Proof.
  induction rows as [|j rows IH]; intros w e w' Hall H; simpl in H; [discriminate|].
  unfold bind in H.
  destruct (rowBody oldBuffer minY maxY tileRowSize j w) as [[] w1|e1 w1] eqn:Hr.
  - eapply IH; eassumption.
  - injection H as <- _. eapply rowBody_known; eassumption.
Qed.

Lemma bufferedReadPixels_known scanLine1 scanLine2 w f e w' :
  Data.tFile (ifd w) = Some f ->
  allKnown (TiledInputFile.frameBuffer f) ->
  bufferedReadPixels scanLine1 scanLine2 w = Throw e w' ->
  e <> unknownTypeError /\ e <> unknownSizeError.
Proof.
  intros Hf Hall H.
  destruct (inWindow_dec (ifd w) scanLine1 scanLine2) as [Hin|Hout].
  2:{ rewrite bufferedReadPixels_out_of_window in H by assumption.
      injection H as <- _. split; discriminate. }
  rewrite (bufferedReadPixels_unfold _ _ _ _ Hf Hin) in H. unfold bind in H.
  destruct (forEach _ _ w) as [[] w1|e1 w1] eqn:Hrows.
  - unfold tFile_setFrameBuffer, bind, getTFile, modify in H.
    destruct (Data.tFile (ifd w1)); [discriminate|].
    injection H as <- _. split; discriminate.
  - injection H as <- _. eapply rows_known; eassumption.
Qed.

Lemma unknown_type_mismatch channels fb :
  Forall (fun c => knownType (Channel.type (snd c))) channels ->
  ~ allKnown fb -> Exists (mismatch channels) fb.
Proof.
  intros Hch Hnot. induction fb as [|[name s] rest IH].
  - exfalso. apply Hnot. constructor.
  - destruct (elementSize (Slice.type s)) eqn:Hs.
    + right. apply IH. intros Hall. apply Hnot. constructor; [|exact Hall].
      unfold knownType. simpl. congruence.
    + left. unfold mismatch. simpl.
      destruct (find name channels) as [c|] eqn:Hf; [|exact I].
      apply find_Some_in in Hf. apply in_map_iff in Hf.
      destruct Hf as (k & <- & Hin). rewrite Forall_forall in Hch.
      specialize (Hch k Hin). unfold knownType in Hch. congruence.
Qed.

Lemma agreeing_frameBuffer_known channels fb :
  Forall (fun c => knownType (Channel.type (snd c))) channels ->
  ~ Exists (mismatch channels) fb -> allKnown fb.
Proof.
  intros Hch. induction fb as [|[name s] rest IH]; intros Hno; [constructor|].
  constructor.
  - simpl. destruct (find name channels) as [c|] eqn:Hf.
    + destruct (PixelType_eqb (Channel.type c) (Slice.type s)) eqn:He.
      * apply PixelType_eqb_eq in He. rewrite <- He.
        apply find_Some_in in Hf. apply in_map_iff in Hf.
        destruct Hf as (k & <- & Hin). rewrite Forall_forall in Hch.
        apply (Hch k Hin).
      * exfalso. apply Hno. left. unfold mismatch. simpl. rewrite Hf.
        intros Heq. apply PixelType_eqb_eq in Heq. congruence.
    + exfalso. apply Hno. left. unfold mismatch. simpl. rewrite Hf. exact I.
  - apply IH. intros Hr. apply Hno. right. exact Hr.
Qed.

Lemma tileRowOrder_head d f scanLine1 scanLine2 :
  wfGeometry d f -> inWindow d scanLine1 scanLine2 ->
  exists j rest, tileRowOrder d f scanLine1 scanLine2 = j :: rest /\ 0 <= j.
Proof.
  intros Hg Hin.
  destruct (tileRowOrder_rows d f scanLine1 scanLine2 Hg Hin) as (_ & Hb & H0).
  rewrite (tileRowOrder_explicit _ _ _ _ Hg Hin) in *.
  set (lo := rowOf d f (Z.min scanLine1 scanLine2)) in *.
  set (hi := rowOf d f (Z.max scanLine1 scanLine2)) in *.
  destruct (Data.lineOrder d).
  - exists lo, (zrange (lo + 1) hi). split; [apply zrange_cons; lia | lia].
  - exists hi, (rev (zrange lo (hi - 1))). split; [|lia].
    rewrite zrange_snoc by lia. rewrite rev_app_distr. reflexivity.
  - exists lo, (zrange (lo + 1) hi). split; [apply zrange_cons; lia | lia].
Qed.

Lemma first_miss_unknown_type scanLine1 scanLine2 w f :
  Data.tFile (ifd w) = Some f ->
  wfGeometry (ifd w) f -> inWindow (ifd w) scanLine1 scanLine2 ->
  Data.cachedTileY (ifd w) < 0 ->
  ~ allKnown (TiledInputFile.frameBuffer f) ->
  exists w', bufferedReadPixels scanLine1 scanLine2 w = Throw unknownTypeError w'.
Proof.
  intros Hf Hg Hin Hy Hnot.
  rewrite (bufferedReadPixels_unfold _ _ _ _ Hf Hin).
  destruct (tileRowOrder_head _ _ _ _ Hg Hin) as (j & rest & -> & Hj).
  simpl forEach. unfold bind.
  rewrite (rowBody_unfold _ _ _ _ _ _ _ Hf).
  replace (j =? Data.cachedTileY (ifd w)) with false
    by (symmetry; apply Z.eqb_neq; lia).
  simpl negb. cbv iota. unfold bind.
  pose proof (fillCache_spec (TiledInputFile.frameBuffer f)
                (wrap (TiledInputFile.levelWidth f 0 * TiledInputFile.tileYSize f))
                (TiledInputFile.dataWindowForTile f 0 j 0) j w f Hf) as Hs.
  destruct (fillCache _ _ _ _ w) as [[] w1|e1 w1].
  - destruct Hs as (Hall & _). contradiction.
  - destruct Hs as (_ & [(-> & _)|(msg & cb & _ & Hall & _)]);
      [eauto | contradiction].
Qed.

(** C3, as the code has it.  [setFrameBuffer] on a tiled file rejects no
    frame buffer: it always returns normally with the buffer installed,
    whatever its element types.  An element type outside [UINT], [HALF]
    and [FLOAT] is reported at run time by [readPixels]:
    - when every channel of the installed buffer has a recognised type,
      [readPixels] never fails with an unknown-type error; this is the
      case of a buffer that agrees with a header whose channels all have
      a recognised type;
    - when some channel has not, and the header's channels all have, the
      buffer disagrees with the header, [setFrameBuffer] has reset the
      cache, and a [readPixels] in the data window fails with
      "Unknown pixel data type." while filling the cache. *)
Theorem unknown_type_is_a_readPixels_error
    (isTiled : Z -> bool) (w : World) (f : TiledInputFile.t) (fb : FrameBuffer) :
  tiledSession isTiled w f ->
  exists w',
    InputFile_setFrameBuffer isTiled fb w = Ok tt w' /\
    installed w' = Some fb /\
    (allKnown fb ->
     forall scanLine1 scanLine2 e w'',
       InputFile_readPixels isTiled scanLine1 scanLine2 w' = Throw e w'' ->
       e <> unknownTypeError /\ e <> unknownSizeError) /\
    (Forall (fun c => knownType (Channel.type (snd c)))
            (Header.channels (Data.header (ifd w))) ->
     ~ Exists (mismatch (Header.channels (Data.header (ifd w)))) fb ->
     allKnown fb) /\
    (~ allKnown fb ->
     Forall (fun c => knownType (Channel.type (snd c)))
            (Header.channels (Data.header (ifd w))) ->
     wfGeometry (ifd w) f ->
     forall scanLine1 scanLine2,
       inWindow (ifd w) scanLine1 scanLine2 ->
       exists w'',
         InputFile_readPixels isTiled scanLine1 scanLine2 w' =
         Throw unknownTypeError w'').
Proof.
  intros Hs. rewrite (setFrameBuffer_tiled _ _ _ _ Hs). eexists.
  split; [reflexivity|]. split; [reflexivity|].
  destruct Hs as (Ht & Hf). split.
  - intros Hall scanLine1 scanLine2 e w'' Hr.
    unfold InputFile_readPixels in Hr.
    set (w1 := set_ifd _ w) in *.
    assert (Hv : Data.version (ifd w1) = Data.version (ifd w)).
    { unfold w1. simpl.
      destruct (invalidateOnMismatch_cases
                  (Header.channels (Data.header (ifd w))) fb (ifd w)) as [-> | ->];
        reflexivity. }
    rewrite Hv, Ht in Hr.
    apply (bufferedReadPixels_known _ _ w1
             (TiledInputFile.setFrameBuffer fb f) _ _ eq_refl Hall Hr).
  - split; [apply agreeing_frameBuffer_known|].
    intros Hnot Hch Hg scanLine1 scanLine2 Hin.
    rewrite (invalidateOnMismatch_hit _ _ _ (unknown_type_mismatch _ _ Hch Hnot)).
    unfold InputFile_readPixels. simpl. rewrite Ht.
    apply (first_miss_unknown_type _ _ _ (TiledInputFile.setFrameBuffer fb f));
      try reflexivity; assumption.
Qed.

Lemma unknown_type_is_a_readPixels_error_witness :
  exists w' w'',
    InputFile_setFrameBuffer sampleIsTiled fbOther sampleCached = Ok tt w' /\
    installed w' = Some fbOther /\
    InputFile_readPixels sampleIsTiled 0 0 w' = Throw unknownTypeError w''.
Proof.
  destruct (unknown_type_is_a_readPixels_error sampleIsTiled sampleCached
              (TiledInputFile.setFrameBuffer fbR (sampleTiled (decodeConst x2a)))
              fbOther) as (w' & H1 & H2 & _ & _ & H4).
  - split; vm_compute; reflexivity.
  - destruct (H4) with (scanLine1 := 0) (scanLine2 := 0) as (w'' & Hr).
    + intros Hall. inversion Hall as [|? ? Hk _]; subst. apply Hk. reflexivity.
    + repeat constructor; discriminate.
    + unfold wfGeometry, in_int, int_half. simpl. lia.
    + unfold inWindow. simpl. lia.
    + exists w', w''. auto.
Defined.

(** C3 as stated fails: a frame buffer with an unrecognised element type
    passes [setFrameBuffer], and the error is raised by the next
    [readPixels]. *)
Lemma unknown_type_passes_setFrameBuffer :
  exists w',
    InputFile_setFrameBuffer sampleIsTiled fbOther
      (sampleWorld (decodeConst x2a)) = Ok tt w' /\
    installed w' = Some fbOther /\
    exists w'',
      InputFile_readPixels sampleIsTiled 0 0 w' = Throw unknownTypeError w''.
Proof.
  exists (finalWorld (InputFile_setFrameBuffer sampleIsTiled fbOther
                        (sampleWorld (decodeConst x2a)))).
  split; [vm_compute; reflexivity|]. split; [vm_compute; reflexivity|].
  eexists. vm_compute. reflexivity.
Qed.

(** ** C7: reading the same range twice *)

(** C7 at a failing input.  The sample session has tile row 0 cached for
    the frame buffer [fbR]; [setFrameBuffer (fbGR)] adds the channel [G],
    which the header has with the same type, so the cache is kept.  The
    first [readPixels (0, 4)] serves row 0 from that cache, which has no
    slice for [G]: the first scan line of [G] in the caller's memory keeps
    its old byte [x00].  The second [readPixels (0, 4)] decodes row 0
    again, now for both channels, and the same byte becomes [x2a]. *)
Lemma readPixels_twice_changes_target :
  Data.cachedTileY (ifd sampleStale) = 0 /\
  installed sampleStale = Some fbGR /\
  exists w1 w2,
    InputFile_readPixels sampleIsTiled 0 4 sampleStale = Ok tt w1 /\
    InputFile_readPixels sampleIsTiled 0 4 w1 = Ok tt w2 /\
    installed w1 = Some fbGR /\
    installed w2 = Some fbGR /\
    Heap.bytes (heap w1) 2%positive 0 = x00 /\
    Heap.bytes (heap w2) 2%positive 0 = x2a.
Proof.
  split; [vm_compute; reflexivity|]. split; [vm_compute; reflexivity|].
  exists (finalWorld (InputFile_readPixels sampleIsTiled 0 4 sampleStale)).
  exists (finalWorld
            (InputFile_readPixels sampleIsTiled 0 4
               (finalWorld (InputFile_readPixels sampleIsTiled 0 4 sampleStale)))).
  split; [vm_compute; reflexivity|]. split; [vm_compute; reflexivity|].
  split; [vm_compute; reflexivity|]. split; [vm_compute; reflexivity|].
  split; vm_compute; reflexivity.
Qed.

(** * Further properties of the code *)

(** ** The two scan lines of a request *)

(** X1.  [bufferedReadPixels] normalises its two scan lines: it behaves
    the same whichever of the two is given first (same outcome, same final
    state). *)
Theorem bufferedReadPixels_order_irrelevant (scanLine1 scanLine2 : Z) (w : World) :
  bufferedReadPixels scanLine1 scanLine2 w = bufferedReadPixels scanLine2 scanLine1 w.
Proof.
  unfold bufferedReadPixels, tileRowOrder.
  rewrite (Z.min_comm scanLine2 scanLine1), (Z.max_comm scanLine2 scanLine1).
  reflexivity.
Qed.

(** ** The loop over tile rows ends *)

(** X2.  The loop [for (j = yStart; j != yEnd; j += yStep)], with [yStep]
    [1] or [-1] and 32-bit [int]s, ends for every pair of bounds: [j]
    differs from [yEnd] at each of the [tripCount] values it takes, and is
    [yEnd] right after the last one. *)
Theorem tile_row_loop_terminates (yStart yEnd yStep : Z) :
  in_int yStart -> in_int yEnd -> yStep = 1 \/ yStep = -1 ->
  let n := tripCount yStart yEnd yStep in
  List.length (rowSeq n yStart yStep) = n /\
  Forall (fun j => j <> yEnd) (rowSeq n yStart yStep) /\
  wrap (yStart + Z.of_nat n * yStep) = yEnd.
Proof.
  intros Hs He Hstep n.
  destruct (loop_exit_test yStart yEnd yStep Hs He Hstep) as (Hk & Hend).
  fold n in Hk, Hend.
  assert (Hlen : forall m j, List.length (rowSeq m j yStep) = m).
  { induction m as [|m IH]; intros j; simpl; [reflexivity | rewrite IH; reflexivity]. }
  split; [apply Hlen|]. split; [|exact Hend].
  apply Forall_forall. intros j Hj.
  destruct (In_nth _ _ 0 Hj) as (k & Hlt & <-).
  rewrite Hlen in Hlt. apply Hk. exact Hlt.
Qed.

Lemma tile_row_loop_terminates_witness :
  let n := tripCount 2147483646 (-2147483647) 1 in
  List.length (rowSeq n 2147483646 1) = n /\
  Forall (fun j => j <> -2147483647) (rowSeq n 2147483646 1) /\
  wrap (2147483646 + Z.of_nat n * 1) = -2147483647.
Proof.
  apply tile_row_loop_terminates.
  - unfold in_int, int_half. lia.
  - unfold in_int, int_half. lia.
  - left. reflexivity.
Defined.

(** ** Raw access and the decoder accessor *)

Lemma tryCallee_world {A} text (r : Callee A) w :
  finalWorld (tryCallee text r w) = w.
Proof. destruct r; reflexivity. Qed.

Lemma tryCallee_not_ArgExc {A} text (r : Callee A) w e w' :
  tryCallee text r w = Throw e w' -> exists msg, e = TileExc msg.
Proof. destruct r; simpl; intros [= <- _]; eauto. Qed.

(** X3.  [rawPixelData] on a tiled file fails with an [ArgExc] whose
    message is the handler's words, the file name in double quotes and the
    mode error, and leaves the state as it found it.  On a scan-line file
    it never changes the session data or the log, it returns only what the
    decoder's [rawPixelData] returned, and it raises no [ArgExc]: a
    failure of the decoder is passed on, never swallowed. *)
Theorem rawPixelData_behaviour
    (isTiled : Z -> bool)
    (sFile_rawPixelData :
       ScanLineInputFile.t -> Z -> Bytes -> Callee (Ptr.t * Z) * Bytes)
    (firstScanLine : Z) (w : World) :
  let o := InputFile_rawPixelData isTiled sFile_rawPixelData firstScanLine w in
  if isTiled (Data.version (ifd w))
  then o = Throw (ArgExc (withFileName pixelDataWords (Data.fileName (ifd w))
                                       rawScanLineError)) w
  else ifd (finalWorld o) = ifd w /\ log (finalWorld o) = log w /\
       match o with
       | Ok r _ =>
           exists f, Data.sFile (ifd w) = Some f /\
                     fst (sFile_rawPixelData f firstScanLine (Heap.bytes (heap w)))
                     = Returned r
       | Throw e _ =>
           e = NullPointer /\ Data.sFile (ifd w) = None \/
           exists f msg,
             Data.sFile (ifd w) = Some f /\
             (fst (sFile_rawPixelData f firstScanLine (Heap.bytes (heap w)))
              = ThrewIex msg /\
              e = TileExc (withFileName pixelDataWords (Data.fileName (ifd w)) msg) \/
              fst (sFile_rawPixelData f firstScanLine (Heap.bytes (heap w)))
              = ThrewOther msg /\ e = TileExc msg)
       end.
Proof.
  cbv zeta. unfold InputFile_rawPixelData, InputFile_fileName.
  destruct (isTiled (Data.version (ifd w))); [reflexivity|].
  destruct (Data.sFile (ifd w)) as [f|]; [|simpl; auto].
  destruct (sFile_rawPixelData f firstScanLine (Heap.bytes (heap w))) as [r m] eqn:Hraw.
  destruct r as [a|msg|msg]; simpl; rewrite ?Hraw; simpl.
  - split; [reflexivity|]. split; [reflexivity|]. exists f.
    split; [reflexivity | rewrite Hraw; reflexivity].
  - split; [reflexivity|]. split; [reflexivity|]. right. exists f, msg.
    rewrite Hraw. auto.
  - split; [reflexivity|]. split; [reflexivity|]. right. exists f, msg.
    rewrite Hraw. auto.
Qed.

(** X4.  [rawTileData] on a scan-line file fails with an [ArgExc] whose
    message is the handler's words, the file name in double quotes and the
    mode error, and leaves the state as it found it.  On a tiled file it
    never changes the session data (cache fields and installed frame
    buffer included) or the log, it returns only what the decoder's
    [rawTileData] returned, and a failure of the decoder is passed on. *)
Theorem rawTileData_behaviour
    (isTiled : Z -> bool)
    (tFile_rawTileData :
       TiledInputFile.t -> Z * Z * Z * Z -> Bytes ->
       Callee (Z * Z * Z * Z * Ptr.t * Z) * Bytes)
    (args : Z * Z * Z * Z) (w : World) :
  let o := InputFile_rawTileData isTiled tFile_rawTileData args w in
  if isTiled (Data.version (ifd w))
  then ifd (finalWorld o) = ifd w /\ log (finalWorld o) = log w /\
       match o with
       | Ok r _ =>
           exists f, Data.tFile (ifd w) = Some f /\
                     fst (tFile_rawTileData f args (Heap.bytes (heap w)))
                     = Returned r
       | Throw e _ =>
           e = NullPointer /\ Data.tFile (ifd w) = None \/
           exists f msg,
             Data.tFile (ifd w) = Some f /\
             (fst (tFile_rawTileData f args (Heap.bytes (heap w))) = ThrewIex msg /\
              e = TileExc (withFileName tileDataWords (Data.fileName (ifd w)) msg) \/
              fst (tFile_rawTileData f args (Heap.bytes (heap w))) = ThrewOther msg /\
              e = TileExc msg)
       end
  else o = Throw (ArgExc (withFileName tileDataWords (Data.fileName (ifd w))
                                       rawTileError)) w.
Proof.
  cbv zeta. unfold InputFile_rawTileData, InputFile_fileName.
  destruct (isTiled (Data.version (ifd w))); [|reflexivity]. simpl negb. cbv iota.
  destruct (Data.tFile (ifd w)) as [f|]; [|simpl; auto].
  destruct (tFile_rawTileData f args (Heap.bytes (heap w))) as [r m] eqn:Hraw.
  destruct r as [a|msg|msg]; simpl; rewrite ?Hraw; simpl.
  - split; [reflexivity|]. split; [reflexivity|]. exists f.
    split; [reflexivity | rewrite Hraw; reflexivity].
  - split; [reflexivity|]. split; [reflexivity|]. right. exists f, msg.
    rewrite Hraw. auto.
  - split; [reflexivity|]. split; [reflexivity|]. right. exists f, msg.
    rewrite Hraw. auto.
Qed.

(** ** The constructor *)

(** X6.  The constructor returns session data only when the stream was
    opened, the header read and checked, and the decoder of the file's
    kind created: the data are then those of [InputFile_new] for the
    header and version read (one decoder, by the tiled flag of the
    version; no cached buffer; [cachedTileY = -1]).  When one of these
    steps fails with an Iex exception, the exception leaves with the
    message "Cannot read image file", the file name in double quotes, and
    the message it had. *)
Theorem InputFile_open_behaviour
    (isTiled : Z -> bool)
    (openStream : string -> Callee unit)
    (readFrom : string -> Callee (Header.t * Z))
    (sanityCheck : Header.t -> bool -> Callee unit)
    (newTiledInputFile : string -> Header.t -> Callee TiledInputFile.t)
    (newScanLineInputFile : string -> Header.t -> Callee ScanLineInputFile.t)
    (fileName : string) (w : World) :
  match InputFile_open isTiled openStream readFrom sanityCheck
                       newTiledInputFile newScanLineInputFile fileName w with
  | Ok d w' =>
      w' = w /\
      exists hdr version,
        openStream fileName = Returned tt /\
        readFrom fileName = Returned (hdr, version) /\
        sanityCheck hdr (isTiled version) = Returned tt /\
        exists tf sf,
          d = InputFile_new isTiled fileName hdr version tf sf /\
          (if isTiled version
           then newTiledInputFile fileName hdr = Returned tf
           else newScanLineInputFile fileName hdr = Returned sf)
  | Throw e w' =>
      w' = w /\
      exists msg,
        e = TileExc (withFileName cannotReadWords fileName msg) /\
        (openStream fileName = ThrewIex msg \/
         exists hdr version,
           readFrom fileName = ThrewIex msg \/
           readFrom fileName = Returned (hdr, version) /\
           (sanityCheck hdr (isTiled version) = ThrewIex msg \/
            isTiled version = true /\
            newTiledInputFile fileName hdr = ThrewIex msg \/
            isTiled version = false /\
            newScanLineInputFile fileName hdr = ThrewIex msg)) \/
        e = TileExc msg /\
        (openStream fileName = ThrewOther msg \/
         exists hdr version,
           readFrom fileName = ThrewOther msg \/
           readFrom fileName = Returned (hdr, version) /\
           (sanityCheck hdr (isTiled version) = ThrewOther msg \/
            isTiled version = true /\
            newTiledInputFile fileName hdr = ThrewOther msg \/
            isTiled version = false /\
            newScanLineInputFile fileName hdr = ThrewOther msg))
  end.
Proof.
  unfold InputFile_open, bind.
  destruct (openStream fileName) as [[]|msg|msg] eqn:Ho; simpl;
    [|split; [reflexivity|]; exists msg; auto
     |split; [reflexivity|]; exists msg; auto].
  destruct (readFrom fileName) as [[hdr version]|msg|msg] eqn:Hr; simpl;
    [|split; [reflexivity|]; exists msg; left; split; [reflexivity|];
      right; exists noHeader, 0; auto
     |split; [reflexivity|]; exists msg; right; split; [reflexivity|];
      right; exists noHeader, 0; auto].
  destruct (sanityCheck hdr (isTiled version)) as [[]|msg|msg] eqn:Hs; simpl;
    [|split; [reflexivity|]; exists msg; left; split; [reflexivity|];
      right; exists hdr, version; auto
     |split; [reflexivity|]; exists msg; right; split; [reflexivity|];
      right; exists hdr, version; auto].
  destruct (isTiled version) eqn:Ht.
  - destruct (newTiledInputFile fileName hdr) as [tf|msg|msg] eqn:Hn; simpl.
    + split; [reflexivity|]. exists hdr, version.
      split; [reflexivity|]. split; [reflexivity|].
      split; [rewrite Ht; exact Hs|].
      exists tf, (ScanLineInputFile.mk (fun _ _ _ m => TileOk m) []).
      unfold InputFile_new. rewrite Ht. split; [reflexivity | exact Hn].
    + split; [reflexivity|]. exists msg. left. split; [reflexivity|].
      right. exists hdr, version. right. split; [reflexivity|]. right. left. auto.
    + split; [reflexivity|]. exists msg. right. split; [reflexivity|].
      right. exists hdr, version. right. split; [reflexivity|]. right. left. auto.
  - destruct (newScanLineInputFile fileName hdr) as [sf|msg|msg] eqn:Hn; simpl.
    + split; [reflexivity|]. exists hdr, version.
      split; [reflexivity|]. split; [reflexivity|].
      split; [rewrite Ht; exact Hs|].
      exists (TiledInputFile.mk 0 (fun _ => 0) (fun _ => 0)
                (fun _ _ _ => Box2i.mk 0 0 0 0) (fun _ => Box2i.mk 0 0 0 0)
                (fun _ _ _ _ m => TileOk m) []), sf.
      unfold InputFile_new. rewrite Ht. split; [reflexivity | exact Hn].
    + split; [reflexivity|]. exists msg. left. split; [reflexivity|].
      right. exists hdr, version. right. split; [reflexivity|]. right. right. auto.
    + split; [reflexivity|]. exists msg. right. split; [reflexivity|].
      right. exists hdr, version. right. split; [reflexivity|]. right. right. auto.
Qed.

(** ** What the session keeps *)

Section KeepsLoop.
Context {X : Type} (obs : World -> X).
Hypothesis obs_bytes : forall w m, obs (set_bytes m w) = obs w.
Hypothesis obs_log : forall w e m, obs (set_bytes m (add_log e w)) = obs w.
Hypothesis obs_heap : forall w h, obs (set_heap h w) = obs w.
Hypothesis obs_cache : forall w c y o,
  obs (set_ifd (Data.set_offset o (Data.set_cachedTileY y
                  (Data.set_cachedBuffer c (ifd w)))) w) = obs w.
Hypothesis obs_cachedBuffer : forall w c,
  obs (set_ifd (Data.set_cachedBuffer c (ifd w)) w) = obs w.
Hypothesis obs_install : forall fb, keeps obs (tFile_setFrameBuffer fb).

Lemma keeps_fillCache oldBuffer tileRowSize tileRange j :
  keeps obs (fillCache oldBuffer tileRowSize tileRange j).
Proof.
  unfold fillCache.
  apply keeps_bind; [apply keeps_getTFile|]. intros f.
  apply keeps_bind; [apply keeps_modify; intros w; apply obs_heap|]. intros _.
  apply keeps_bind; [apply keeps_modify; intros w; apply obs_cache|]. intros _.
  apply keeps_bind; [apply keeps_allocSlices; assumption|]. intros _.
  apply keeps_bind; [apply keeps_getCachedBuffer|]. intros cb.
  apply keeps_bind; [apply obs_install|]. intros _.
  apply keeps_readTileRow. exact obs_log.
Qed.

Lemma keeps_rowBody oldBuffer minY maxY tileRowSize j :
  keeps obs (rowBody oldBuffer minY maxY tileRowSize j).
Proof.
  unfold rowBody.
  apply keeps_bind; [apply keeps_getTFile|]. intros f.
  apply keeps_bind; [|intros _; apply keeps_copyPhase; exact obs_bytes].
  intros w. destruct (negb (j =? Data.cachedTileY (ifd w))).
  - apply keeps_fillCache.
  - reflexivity.
Qed.

Lemma keeps_bufferedReadPixels scanLine1 scanLine2 :
  keeps obs (bufferedReadPixels scanLine1 scanLine2).
Proof.
  intros w. unfold bufferedReadPixels.
  destruct (_ || _); [reflexivity|].
  revert w.
  change (keeps obs (fun w =>
    (f <- getTFile ;;
     forEach (rowBody (TiledInputFile.frameBuffer f)
                (Z.min scanLine1 scanLine2) (Z.max scanLine1 scanLine2)
                (wrap (TiledInputFile.levelWidth f 0 * TiledInputFile.tileYSize f)))
             (tileRowOrder (ifd w) f scanLine1 scanLine2) ;;
     tFile_setFrameBuffer (TiledInputFile.frameBuffer f)) w)).
  intros w. unfold bind at 1. unfold getTFile.
  destruct (Data.tFile (ifd w)) as [f|]; [|reflexivity].
  apply (keeps_bind obs).
  - apply keeps_forEach. intros j. apply keeps_rowBody.
  - intros _. apply obs_install.
Qed.

End KeepsLoop.

Lemma keeps_static_install fb : keeps staticPart (tFile_setFrameBuffer fb).
Proof.
  intros w. unfold tFile_setFrameBuffer, bind, getTFile, modify, staticPart.
  destruct (Data.tFile (ifd w)) as [f|] eqn:Hf; simpl; rewrite ?Hf; reflexivity.
Qed.

Lemma keeps_static_bufferedReadPixels scanLine1 scanLine2 :
  keeps staticPart (bufferedReadPixels scanLine1 scanLine2).
Proof.
  apply keeps_bufferedReadPixels; try reflexivity. apply keeps_static_install.
Qed.

Lemma keeps_static_setFrameBuffer isTiled fb :
  keeps staticPart (InputFile_setFrameBuffer isTiled fb).
Proof.
  intros w. unfold InputFile_setFrameBuffer.
  destruct (isTiled (Data.version (ifd w))).
  - apply (keeps_bind staticPart).
    + apply keeps_modify. intros w0. unfold staticPart. simpl.
      destruct (invalidateOnMismatch_cases
                  (Header.channels (Data.header (ifd w0))) fb (ifd w0)) as [-> | ->];
        reflexivity.
    + intros _. apply keeps_static_install.
  - unfold sFile_setFrameBuffer, staticPart.
    destruct (Data.sFile (ifd w)) as [f|] eqn:Hf; simpl; rewrite ?Hf; reflexivity.
Qed.

Lemma keeps_static_runCall isTiled c : keeps staticPart (runCall isTiled c).
Proof.
  destruct c as [fb|y1 y2|y|]; simpl.
  - apply keeps_static_setFrameBuffer.
  - intros w. unfold InputFile_readPixels.
    destruct (isTiled (Data.version (ifd w))).
    + apply keeps_static_bufferedReadPixels.
    + unfold sFile_readPixels. destruct (Data.sFile (ifd w)) as [f|]; [|reflexivity].
      destruct (ScanLineInputFile.decodeLines f _ _ _ _); reflexivity.
  - intros w. unfold InputFile_readPixels1, InputFile_readPixels.
    destruct (isTiled (Data.version (ifd w))).
    + apply keeps_static_bufferedReadPixels.
    + unfold sFile_readPixels. destruct (Data.sFile (ifd w)) as [f|]; [|reflexivity].
      destruct (ScanLineInputFile.decodeLines f _ _ _ _); reflexivity.
  - intros w. unfold InputFile_frameBuffer, bind, getTFile.
    destruct (isTiled (Data.version (ifd w))).
    + destruct (Data.tFile (ifd w)); reflexivity.
    + destruct (Data.sFile (ifd w)); reflexivity.
Qed.

Lemma allocSlices_cached_some tileRowSize lw oldBuffer : forall w cb0,
  Data.cachedBuffer (ifd w) = Some cb0 ->
  exists cb,
    Data.cachedBuffer (ifd (finalWorld (allocSlices tileRowSize lw oldBuffer w)))
    = Some cb.
Proof.
  induction oldBuffer as [|[name s] rest IH]; intros w cb0 Hc; simpl.
  - eauto.
  - destruct (Slice.type s); simpl; eauto;
      rewrite finalWorld_bind;
      erewrite allocSlice_eq by exact Hc;
      eapply IH; reflexivity.
Qed.

Lemma fillCache_cached_some oldBuffer tileRowSize tileRange j w f :
  Data.tFile (ifd w) = Some f ->
  exists cb,
    Data.cachedBuffer
      (ifd (finalWorld (fillCache oldBuffer tileRowSize tileRange j w))) = Some cb.
Proof.
  intros Hf. rewrite (fillCache_unfold _ _ _ _ _ _ Hf). rewrite finalWorld_bind.
  set (w2 := afterRelease f tileRange j w).
  destruct (allocSlices_cached_some tileRowSize (TiledInputFile.levelWidth f 0)
              oldBuffer w2 [] eq_refl) as (cb & Hcb).
  destruct (allocSlices _ _ oldBuffer w2) as [[] w3|e w3]; simpl in Hcb.
  - exists cb. rewrite <- Hcb.
    apply (keeps_bind (fun w => Data.cachedBuffer (ifd w)) getCachedBuffer
             (fun cb => tFile_setFrameBuffer cb ;; readTileRow j)
             (keeps_getCachedBuffer _)).
    intros cb'. apply keeps_bind.
    + apply keeps_tFile_setFrameBuffer. reflexivity.
    + intros _. apply keeps_readTileRow. reflexivity.
  - eauto.
Qed.

Lemma rowBody_rowNeedsBuffer oldBuffer minY maxY tileRowSize j w :
  rowNeedsBuffer w ->
  rowNeedsBuffer (finalWorld (rowBody oldBuffer minY maxY tileRowSize j w)).
Proof.
  intros Hp.
  destruct (Data.tFile (ifd w)) as [f|] eqn:Hf.
  2:{ unfold rowBody, bind, getTFile. rewrite Hf. exact Hp. }
  rewrite (rowBody_unfold _ _ _ _ _ _ _ Hf).
  set (tr := TiledInputFile.dataWindowForTile f 0 j 0).
  set (a := Z.max minY (Box2i.min_y tr)). set (b := Z.min maxY (Box2i.max_y tr)).
  pose proof (keeps_copyPhase ifd ltac:(reflexivity) oldBuffer a b) as Hk.
  destruct (negb (j =? Data.cachedTileY (ifd w))).
  - rewrite finalWorld_bind.
    destruct (fillCache_cached_some oldBuffer tileRowSize tr j w f Hf) as (cb & Hcb).
    destruct (fillCache oldBuffer tileRowSize tr j w) as [[] w1|e w1]; simpl in Hcb.
    + unfold rowNeedsBuffer. rewrite Hk, Hcb. exact I.
    + unfold rowNeedsBuffer. rewrite Hcb. exact I.
  - unfold rowNeedsBuffer in *. rewrite Hk. exact Hp.
Qed.

Lemma bufferedReadPixels_rowNeedsBuffer scanLine1 scanLine2 w :
  rowNeedsBuffer w ->
  rowNeedsBuffer (finalWorld (bufferedReadPixels scanLine1 scanLine2 w)).
Proof.
  intros Hp.
  destruct (inWindow_dec (ifd w) scanLine1 scanLine2) as [Hin|Hout].
  2:{ rewrite bufferedReadPixels_out_of_window by assumption. exact Hp. }
  destruct (Data.tFile (ifd w)) as [f|] eqn:Hf.
  2:{ unfold bufferedReadPixels, bind, getTFile. rewrite Hf.
      destruct (_ || _); exact Hp. }
  rewrite (bufferedReadPixels_unfold _ _ _ _ Hf Hin). rewrite finalWorld_bind.
  assert (Hrows : forall rows w0, rowNeedsBuffer w0 ->
            rowNeedsBuffer
              (finalWorld
                 (forEach (rowBody (TiledInputFile.frameBuffer f)
                             (Z.min scanLine1 scanLine2) (Z.max scanLine1 scanLine2)
                             (wrap (TiledInputFile.levelWidth f 0
                                    * TiledInputFile.tileYSize f))) rows w0))).
  { induction rows as [|j rows IH]; intros w0 H0; simpl; [exact H0|].
    rewrite finalWorld_bind.
    pose proof (rowBody_rowNeedsBuffer (TiledInputFile.frameBuffer f)
                  (Z.min scanLine1 scanLine2) (Z.max scanLine1 scanLine2)
                  (wrap (TiledInputFile.levelWidth f 0 * TiledInputFile.tileYSize f))
                  j w0 H0) as H1.
    destruct (rowBody _ _ _ _ j w0) as [[] w1|e w1]; simpl in H1; auto. }
  specialize (Hrows (tileRowOrder (ifd w) f scanLine1 scanLine2) w Hp).
  destruct (forEach _ _ w) as [[] w1|e w1]; simpl in Hrows; [|exact Hrows].
  unfold rowNeedsBuffer in *.
  pose proof (keeps_tFile_setFrameBuffer
                (fun w => (Data.cachedBuffer (ifd w), Data.cachedTileY (ifd w)))
                (TiledInputFile.frameBuffer f) ltac:(reflexivity) w1) as Hk.
  injection Hk as -> ->. exact Hrows.
Qed.

Lemma setFrameBuffer_rowNeedsBuffer isTiled fb w :
  rowNeedsBuffer w ->
  rowNeedsBuffer (finalWorld (InputFile_setFrameBuffer isTiled fb w)).
Proof.
  intros Hp. unfold InputFile_setFrameBuffer.
  destruct (isTiled (Data.version (ifd w))).
  - rewrite finalWorld_bind. unfold modify.
    set (w1 := set_ifd _ w).
    assert (H1 : rowNeedsBuffer w1).
    { unfold rowNeedsBuffer, w1 in *. simpl.
      destruct (invalidateOnMismatch_cases
                  (Header.channels (Data.header (ifd w))) fb (ifd w)) as [-> | ->].
      - exact Hp.
      - simpl. destruct (Data.cachedBuffer (ifd w)); auto. }
    unfold rowNeedsBuffer in *.
    pose proof (keeps_tFile_setFrameBuffer
                  (fun w => (Data.cachedBuffer (ifd w), Data.cachedTileY (ifd w)))
                  fb ltac:(reflexivity) w1) as Hk.
    injection Hk as -> ->. exact H1.
  - unfold sFile_setFrameBuffer, rowNeedsBuffer in *.
    destruct (Data.sFile (ifd w)); exact Hp.
Qed.

Lemma runCall_cache_invariants isTiled c w :
  cacheWf w /\ rowNeedsBuffer w ->
  cacheWf (finalWorld (runCall isTiled c w)) /\
  rowNeedsBuffer (finalWorld (runCall isTiled c w)).
Proof.
  intros (Hwf & Hp).
  assert (Hread : forall y1 y2,
            cacheWf (finalWorld (InputFile_readPixels isTiled y1 y2 w)) /\
            rowNeedsBuffer (finalWorld (InputFile_readPixels isTiled y1 y2 w))).
  { intros y1 y2. unfold InputFile_readPixels.
    destruct (isTiled (Data.version (ifd w))).
    - split; [apply cacheWf_bufferedReadPixels | apply bufferedReadPixels_rowNeedsBuffer];
        assumption.
    - unfold sFile_readPixels. destruct (Data.sFile (ifd w)) as [f|]; [|auto].
      destruct (ScanLineInputFile.decodeLines f _ _ _ _); auto. }
  destruct c as [fb|y1 y2|y|]; simpl.
  - split; [apply cacheWf_setFrameBuffer | apply setFrameBuffer_rowNeedsBuffer];
      assumption.
  - apply Hread.
  - apply Hread.
  - unfold InputFile_frameBuffer, bind, getTFile.
    destruct (isTiled (Data.version (ifd w))).
    + destruct (Data.tFile (ifd w)); auto.
    + destruct (Data.sFile (ifd w)); auto.
Qed.

Lemma runCall_scanLine isTiled c w :
  isTiled (Data.version (ifd w)) = false ->
  scanLineUntouched (finalWorld (runCall isTiled c w)) = scanLineUntouched w.
Proof.
  intros Ht.
  assert (Hread : forall y1 y2,
    scanLineUntouched (finalWorld (InputFile_readPixels isTiled y1 y2 w))
    = scanLineUntouched w).
  { intros y1 y2. unfold InputFile_readPixels. rewrite Ht.
    unfold sFile_readPixels. destruct (Data.sFile (ifd w)) as [f|]; [|reflexivity].
    destruct (ScanLineInputFile.decodeLines f _ _ _ _); reflexivity. }
  destruct c as [fb|y1 y2|y|]; cbn [runCall].
  - unfold InputFile_setFrameBuffer. rewrite Ht. unfold sFile_setFrameBuffer.
    destruct (Data.sFile (ifd w)); reflexivity.
  - apply Hread.
  - apply Hread.
  - rewrite finalWorld_bind. unfold InputFile_frameBuffer. rewrite Ht.
    destruct (Data.sFile (ifd w)); reflexivity.
Qed.

Lemma session_invariants_aux
    (isTiled : Z -> bool) (fileName : string) (hdr : Header.t) (version : Z)
    (tf : TiledInputFile.t) (sf : ScanLineInputFile.t) (h : Heap.t)
    (cs : list Call) :
  let w0 := mkWorld (InputFile_new isTiled fileName hdr version tf sf) h [] in
  let w := runCalls isTiled cs w0 in
  staticPart w = staticPart w0 /\
  cacheWf w /\ rowNeedsBuffer w /\
  (if isTiled version
   then option_map geometryOf (Data.tFile (ifd w)) = Some (geometryOf tf) /\
        Data.sFile (ifd w) = None
   else Data.tFile (ifd w) = None /\
        option_map ScanLineInputFile.decodeLines (Data.sFile (ifd w))
        = Some (ScanLineInputFile.decodeLines sf) /\
        Data.cachedBuffer (ifd w) = None /\ Data.cachedTileY (ifd w) = -1 /\
        log w = [] /\
        Heap.live (heap w) = Heap.live h /\ Heap.next (heap w) = Heap.next h).
Proof.
  cbv zeta.
  set (w0 := mkWorld (InputFile_new isTiled fileName hdr version tf sf) h []).
  assert (Hv0 : Data.version (ifd w0) = version).
  { unfold w0, InputFile_new. simpl. destruct (isTiled version); reflexivity. }
  assert (Hgen : forall cs w,
            staticPart w = staticPart w0 -> cacheWf w -> rowNeedsBuffer w ->
            (isTiled version = false -> scanLineUntouched w = scanLineUntouched w0) ->
            let w' := runCalls isTiled cs w in
            staticPart w' = staticPart w0 /\ cacheWf w' /\ rowNeedsBuffer w' /\
            (isTiled version = false ->
             scanLineUntouched w' = scanLineUntouched w0)).
  { clear cs. induction cs as [|c cs IH]; intros w Hs Hwf Hp Hsc; cbv zeta.
    - simpl. auto.
    - simpl. apply IH.
      + rewrite keeps_static_runCall. exact Hs.
      + apply runCall_cache_invariants. auto.
      + apply runCall_cache_invariants. auto.
      + intros Ht. rewrite runCall_scanLine; [auto|].
        assert (Hv : Data.version (ifd w) = version).
        { unfold staticPart in Hs. injection Hs as _ _ Hv _ _ _ _ _.
          rewrite Hv. exact Hv0. }
        rewrite Hv. exact Ht. }
  destruct (Hgen cs w0 eq_refl) as (Hs & Hwf & Hp & Hsc).
  - apply cacheWf_new.
  - unfold rowNeedsBuffer, w0, InputFile_new. simpl.
    destruct (isTiled version); reflexivity.
  - reflexivity.
  - split; [exact Hs|]. split; [exact Hwf|]. split; [exact Hp|].
    assert (Htf0 : Data.tFile (ifd w0) = if isTiled version then Some tf else None)
      by (unfold w0, InputFile_new; destruct (isTiled version); reflexivity).
    assert (Hsf0 : Data.sFile (ifd w0) = if isTiled version then None else Some sf)
      by (unfold w0, InputFile_new; destruct (isTiled version); reflexivity).
    assert (Hc0 : scanLineUntouched w0 = (None, -1, [], Heap.live h, Heap.next h))
      by (unfold w0, InputFile_new; destruct (isTiled version); reflexivity).
    assert (Htf : option_map geometryOf (Data.tFile (ifd (runCalls isTiled cs w0)))
                  = option_map geometryOf (Data.tFile (ifd w0)))
      by (unfold staticPart in Hs; congruence).
    assert (Hsf : option_map ScanLineInputFile.decodeLines
                    (Data.sFile (ifd (runCalls isTiled cs w0)))
                  = option_map ScanLineInputFile.decodeLines (Data.sFile (ifd w0)))
      by (unfold staticPart in Hs; congruence).
    rewrite Htf0 in Htf. rewrite Hsf0 in Hsf. rewrite Hc0 in Hsc.
    destruct (isTiled version) eqn:Ht; simpl in Htf, Hsf.
    + split; [exact Htf|].
      destruct (Data.sFile (ifd (runCalls isTiled cs w0))); [discriminate | reflexivity].
    + specialize (Hsc eq_refl). unfold scanLineUntouched in Hsc.
      injection Hsc as Hc Hy Hl Hlv Hn.
      split.
      { destruct (Data.tFile (ifd (runCalls isTiled cs w0))); [discriminate | reflexivity]. }
      auto 10.
Qed.

(** X7.  Whatever calls of [setFrameBuffer], [readPixels] and
    [frameBuffer] are made on a session, failed ones included, the session
    stays what the constructor made it: same file name, header, version,
    line order and data window; the one decoder the file's kind asks for,
    with its tile geometry unchanged, and never the other; every slice of
    the cached buffer owns an array allocated by the session, and a row
    index is recorded only together with a cached buffer.  On a scan-line
    file no cached buffer is ever built, no tile is read, and no array is
    allocated or released. *)
Theorem session_invariants
    (isTiled : Z -> bool) (fileName : string) (hdr : Header.t) (version : Z)
    (tf : TiledInputFile.t) (sf : ScanLineInputFile.t) (h : Heap.t)
    (cs : list Call) :
  let w0 := mkWorld (InputFile_new isTiled fileName hdr version tf sf) h [] in
  let w := runCalls isTiled cs w0 in
  staticPart w = staticPart w0 /\
  cacheWf w /\ rowNeedsBuffer w /\
  (if isTiled version
   then option_map geometryOf (Data.tFile (ifd w)) = Some (geometryOf tf) /\
        Data.sFile (ifd w) = None
   else Data.tFile (ifd w) = None /\
        option_map ScanLineInputFile.decodeLines (Data.sFile (ifd w))
        = Some (ScanLineInputFile.decodeLines sf) /\
        Data.cachedBuffer (ifd w) = None /\ Data.cachedTileY (ifd w) = -1 /\
        log w = [] /\
        Heap.live (heap w) = Heap.live h /\ Heap.next (heap w) = Heap.next h).
Proof.
  apply session_invariants_aux.
Qed.

(** ** How readPixels can fail *)








(** ** The cached buffer after a fill *)

Lemma allocSlices_shape tileRowSize lw oldBuffer : forall w cb0,
  Data.cachedBuffer (ifd w) = Some cb0 ->
  Forall (fun k => scratchSlice (Data.offset (ifd w)) lw tileRowSize (heap w) (snd k))
         cb0 ->
  let w' := finalWorld (allocSlices tileRowSize lw oldBuffer w) in
  Data.offset (ifd w') = Data.offset (ifd w) /\
  exists cb, Data.cachedBuffer (ifd w') = Some cb /\
    Forall (fun k => scratchSlice (Data.offset (ifd w)) lw tileRowSize (heap w') (snd k))
           cb.
Proof.
  induction oldBuffer as [|[name s] rest IH]; intros w cb0 Hc Hall.
  - simpl. split; [reflexivity|]. exists cb0. auto.
  - assert (Hstep : forall ty sz, elementSize ty = Some sz ->
      let w' := finalWorld ((allocSlice name ty sz tileRowSize lw ;;
                             allocSlices tileRowSize lw rest) w) in
      Data.offset (ifd w') = Data.offset (ifd w) /\
      exists cb, Data.cachedBuffer (ifd w') = Some cb /\
        Forall (fun k => scratchSlice (Data.offset (ifd w)) lw tileRowSize
                           (heap w') (snd k)) cb).
    { intros ty sz Hsz. cbv zeta.
      erewrite bind_Ok by (apply allocSlice_eq; exact Hc).
      match goal with |- context [allocSlices _ _ _ ?w1] =>
        specialize (IH w1 _ eq_refl); set (w1' := w1) in *
      end.
      cbv zeta in IH. apply IH. unfold w1'. simpl. apply Forall_insert.
      - simpl. exists sz. simpl. rewrite Pos.eqb_refl.
        repeat split; try reflexivity; try assumption; lia.
      - eapply Forall_impl; [|exact Hall]. intros k (sz' & H1 & H2 & H3 & H4 & H5 & H6 & H7).
        exists sz'. simpl.
        destruct (Pos.eqb_spec (Ptr.blk (Slice.base (snd k))) (Heap.next (heap w)));
          [lia|].
        repeat split; try assumption. lia. }
    simpl. destruct (Slice.type s).
    + apply Hstep. reflexivity.
    + apply Hstep. reflexivity.
    + apply Hstep. reflexivity.
    + simpl. split; [reflexivity|]. exists cb0. auto.
Qed.

Lemma fillCache_shape oldBuffer tileRowSize tileRange j w f :
  Data.tFile (ifd w) = Some f ->
  let lw := TiledInputFile.levelWidth f 0 in
  let w' := finalWorld (fillCache oldBuffer tileRowSize tileRange j w) in
  Data.offset (ifd w') = wrap (Box2i.min_y tileRange * lw + Box2i.min_x tileRange) /\
  exists cb, Data.cachedBuffer (ifd w') = Some cb /\
    Forall (fun k => scratchSlice (Data.offset (ifd w')) lw tileRowSize
                       (heap w') (snd k)) cb.
Proof.
  intros Hf. cbv zeta. rewrite (fillCache_unfold _ _ _ _ _ _ Hf).
  rewrite finalWorld_bind.
  set (w2 := afterRelease f tileRange j w).
  set (lw := TiledInputFile.levelWidth f 0).
  destruct (allocSlices_shape tileRowSize lw oldBuffer w2 [] eq_refl
              ltac:(constructor)) as (Ho & cb & Hcb & Hall).
  set (obs := fun w => (Data.cachedBuffer (ifd w), Data.offset (ifd w),
                        Heap.live (heap w), Heap.size (heap w), Heap.next (heap w))).
  assert (Hgoal : forall w', obs w' = obs (finalWorld (allocSlices tileRowSize lw oldBuffer w2)) ->
    Data.offset (ifd w') = wrap (Box2i.min_y tileRange * lw + Box2i.min_x tileRange) /\
    exists cb, Data.cachedBuffer (ifd w') = Some cb /\
      Forall (fun k => scratchSlice (Data.offset (ifd w')) lw tileRowSize
                         (heap w') (snd k)) cb).
  { intros w' Hobs. unfold obs in Hobs. injection Hobs as Hc Hoff Hl Hs Hn.
    rewrite Hoff, Ho. split; [reflexivity|]. exists cb. split; [congruence|].
    eapply Forall_impl; [|exact Hall].
    intros k (sz & H1 & H2 & H3 & H4 & H5 & H6 & H7). exists sz.
    rewrite Hl, Hs, Hn. repeat split; assumption. }
  destruct (allocSlices tileRowSize lw oldBuffer w2) as [[] w3|e w3]; simpl in *.
  - apply Hgoal.
    apply (keeps_bind obs getCachedBuffer
             (fun cb => tFile_setFrameBuffer cb ;; readTileRow j)
             (keeps_getCachedBuffer _)).
    intros cb'. apply keeps_bind.
    + apply keeps_tFile_setFrameBuffer. reflexivity.
    + intros _. apply keeps_readTileRow. reflexivity.
  - apply Hgoal. reflexivity.
Qed.

(** X9.  After the cache has been filled for a tile row (whether the
    fill ended normally or not), each slice of the cached buffer has the
    element size of its type as [xStride], that size times the level
    width as [yStride], and points into a live array of [tileRowSize]
    elements.  When [tileRowSize] is the level width times the tile
    height, every byte of every pixel [(x, y)] of the tile row, addressed
    through such a slice by [base + y * yStride + x * xStride], lies
    inside that array. *)
Theorem cached_slices_address_their_array
    (oldBuffer : FrameBuffer) (tileRowSize th : Z) (tileRange : Box2i.t) (j : Z)
    (w : World) (f : TiledInputFile.t) :
  Data.tFile (ifd w) = Some f ->
  let lw := TiledInputFile.levelWidth f 0 in
  0 < lw -> 0 < th -> tileRowSize = lw * th ->
  in_int (Box2i.min_y tileRange * lw + Box2i.min_x tileRange) ->
  let w' := finalWorld (fillCache oldBuffer tileRowSize tileRange j w) in
  exists cb,
    Data.cachedBuffer (ifd w') = Some cb /\
    forall k, In k cb ->
      exists sz,
        elementSize (Slice.type (snd k)) = Some sz /\
        Slice.xStride (snd k) = sz /\ Slice.yStride (snd k) = sz * lw /\
        Heap.live (heap w') (Ptr.blk (Slice.base (snd k))) = true /\
        Heap.size (heap w') (Ptr.blk (Slice.base (snd k))) = sz * tileRowSize /\
        forall x y i,
          Box2i.min_x tileRange <= x < Box2i.min_x tileRange + lw ->
          Box2i.min_y tileRange <= y < Box2i.min_y tileRange + th ->
          0 <= i < sz ->
          0 <= byteOffset (snd k) x y i
            < Heap.size (heap w') (Ptr.blk (Slice.base (snd k))).
Proof.
  intros Hf lw Hlw Hth Htrs Hint w'.
  destruct (fillCache_shape oldBuffer tileRowSize tileRange j w f Hf)
    as (Hoff & cb & Hcb & Hall).
  fold lw in Hoff, Hall. fold w' in Hoff, Hcb, Hall.
  rewrite (wrap_id _ Hint) in Hoff.
  exists cb. split; [exact Hcb|]. intros k Hk.
  rewrite Forall_forall in Hall.
  destruct (Hall k Hk) as (sz & H1 & H2 & H3 & H4 & H5 & H6 & H7).
  exists sz. repeat (split; [assumption|]).
  intros x y i Hx Hy Hi. unfold byteOffset.
  rewrite H2, H3, H4, H5, Hoff, Htrs.
  assert (Hsz : 0 < sz) by (destruct (Slice.type (snd k)); simpl in H1; congruence || (injection H1 as <-; lia)).
  set (dy := y - Box2i.min_y tileRange). set (dx := x - Box2i.min_x tileRange).
  replace (- (sz * (Box2i.min_y tileRange * lw + Box2i.min_x tileRange))
           + y * (sz * lw) + x * sz + i)
    with (sz * (dy * lw + dx) + i) by (unfold dy, dx; ring).
  assert (Hdy : 0 <= dy <= th - 1) by (unfold dy; lia).
  assert (Hdx : 0 <= dx <= lw - 1) by (unfold dx; lia).
  assert (Hidx : 0 <= dy * lw + dx <= lw * th - 1) by nia.
  nia.
Qed.

Lemma cached_slices_address_their_array_witness :
  let w' := finalWorld (fillCache fbGR 4 (sampleTileBox 0 1 0) 1 sampleStale) in
  exists cb,
    Data.cachedBuffer (ifd w') = Some cb /\
    forall k, In k cb ->
      exists sz,
        elementSize (Slice.type (snd k)) = Some sz /\
        Slice.xStride (snd k) = sz /\ Slice.yStride (snd k) = sz * 1 /\
        Heap.live (heap w') (Ptr.blk (Slice.base (snd k))) = true /\
        Heap.size (heap w') (Ptr.blk (Slice.base (snd k))) = sz * 4 /\
        forall x y i,
          0 <= x < 0 + 1 -> 4 <= y < 4 + 4 -> 0 <= i < sz ->
          0 <= byteOffset (snd k) x y i
            < Heap.size (heap w') (Ptr.blk (Slice.base (snd k))).
Proof.
  apply (cached_slices_address_their_array fbGR 4 4 (sampleTileBox 0 1 0) 1
           sampleStale
           (TiledInputFile.setFrameBuffer fbGR (sampleTiled (decodeConst x2a)))).
  - vm_compute. reflexivity.
  - simpl. lia.
  - lia.
  - reflexivity.
  - unfold in_int, int_half. simpl. lia.
Defined.





(** ** What the copy phase writes *)

Lemma copyPixel_other_block size fp tp m b o :
  b <> Ptr.blk tp -> copyPixel size fp tp m b o = m b o.
Proof.
  intros Hb. unfold copyPixel.
  generalize (zrange 0 (size - 1)). intros l. revert m.
  induction l as [|i l IH]; intros m; simpl; [reflexivity|].
  rewrite IH. unfold store, Ptr.add. simpl.
  destruct (Pos.eqb_spec b (Ptr.blk tp)); [contradiction | reflexivity].
Qed.





(** ** What the copy phase copies *)

Lemma copyPixel_spec (n : nat) fp tp m b o :
  Ptr.blk fp <> Ptr.blk tp ->
  copyPixel (Z.of_nat n) fp tp m b o =
  if Pos.eqb b (Ptr.blk tp) && (Ptr.off tp <=? o) && (o <? Ptr.off tp + Z.of_nat n)
  then m (Ptr.blk fp) (Ptr.off fp + (o - Ptr.off tp))
  else m b o.
Proof.
  intros Hne. revert b o. induction n as [|n IH]; intros b o.
  - unfold copyPixel. rewrite zrange_nil by lia. simpl.
    destruct (Pos.eqb b (Ptr.blk tp)); simpl; [|reflexivity].
    destruct (Z.leb_spec (Ptr.off tp) o); simpl; [|reflexivity].
    destruct (Z.ltb_spec o (Ptr.off tp + 0)); [lia | reflexivity].
  - assert (Hstep : copyPixel (Z.of_nat (S n)) fp tp m =
                    store (copyPixel (Z.of_nat n) fp tp m)
                          (Ptr.add tp (Z.of_nat n))
                          (load (copyPixel (Z.of_nat n) fp tp m)
                                (Ptr.add fp (Z.of_nat n)))).
    { unfold copyPixel. rewrite zrange_snoc by lia.
      replace (Z.of_nat (S n) - 1 - 1) with (Z.of_nat n - 1) by lia.
      replace (Z.of_nat (S n) - 1) with (Z.of_nat n) by lia.
      rewrite fold_left_app. reflexivity. }
    rewrite Hstep. clear Hstep.
    unfold store, load, Ptr.add. cbn [Ptr.blk Ptr.off].
    rewrite (IH (Ptr.blk fp)). rewrite (IH b).
    destruct (Pos.eqb_spec (Ptr.blk fp) (Ptr.blk tp)) as [He|_]; [contradiction|].
    cbn [andb].
    destruct (Pos.eqb_spec b (Ptr.blk tp)) as [Hb|Hb]; cbn [andb]; [|reflexivity].
    destruct (Z.eqb_spec o (Ptr.off tp + Z.of_nat n)) as [Ho|Ho].
    + subst o.
      destruct (Z.leb_spec (Ptr.off tp) (Ptr.off tp + Z.of_nat n)); [|lia].
      destruct (Z.ltb_spec (Ptr.off tp + Z.of_nat n)
                           (Ptr.off tp + Z.of_nat (S n))); [|lia].
      cbn [andb]. f_equal. lia.
    + destruct (Z.leb_spec (Ptr.off tp) o); cbn [andb]; [|reflexivity].
      destruct (Z.ltb_spec o (Ptr.off tp + Z.of_nat n));
        destruct (Z.ltb_spec o (Ptr.off tp + Z.of_nat (S n)));
        try reflexivity; lia.
Qed.

Lemma copyPixel_bytes size fp tp m b o :
  0 <= size -> Ptr.blk fp <> Ptr.blk tp ->
  copyPixel size fp tp m b o =
  if Pos.eqb b (Ptr.blk tp) && (Ptr.off tp <=? o) && (o <? Ptr.off tp + size)
  then m (Ptr.blk fp) (Ptr.off fp + (o - Ptr.off tp))
  else m b o.
Proof.
  intros H Hne. rewrite <- (Z2Nat.id size H). apply copyPixel_spec. exact Hne.
Qed.

(** The two pointers that [copyScanLine] steps along the line are, at
    column [x], the addresses of pixel [(x, y)] in the two slices. *)
Lemma copyScanLine_index size fromSlice toSlice lr m y :
  copyScanLine size fromSlice toSlice lr m y =
  fold_left (fun m' x =>
               copyPixel size (pixelAt fromSlice x y) (pixelAt toSlice x y) m')
            (zrange (Box2i.min_x lr) (Box2i.max_x lr)) m.
Proof.
  unfold copyScanLine.
  change (Ptr.add (Slice.base fromSlice) _)
    with (pixelAt fromSlice (Box2i.min_x lr) y).
  change (Ptr.add (Slice.base toSlice) _)
    with (pixelAt toSlice (Box2i.min_x lr) y).
  generalize (Box2i.min_x lr) (Box2i.max_x lr). intros a b.
  assert (G : forall n a b m, b = a + Z.of_nat n - 1 ->
    snd (fold_left
           (fun (st : Ptr.t * Ptr.t * Bytes) (_ : Z) =>
              let '(fp, tp) := fst st in
              (Ptr.add fp (Slice.xStride fromSlice),
               Ptr.add tp (Slice.xStride toSlice),
               copyPixel size fp tp (snd st)))
           (zrange a b) (pixelAt fromSlice a y, pixelAt toSlice a y, m))
    = fold_left (fun m' x =>
                   copyPixel size (pixelAt fromSlice x y) (pixelAt toSlice x y) m')
                (zrange a b) m).
  { clear. induction n as [|n IH]; intros a b m Hb.
    - rewrite zrange_nil by lia. reflexivity.
    - rewrite zrange_cons by lia. cbn [fold_left fst snd].
      replace (Ptr.add (pixelAt fromSlice a y) (Slice.xStride fromSlice))
        with (pixelAt fromSlice (a + 1) y)
        by (unfold pixelAt, Ptr.add; cbn [Ptr.blk Ptr.off]; f_equal; lia).
      replace (Ptr.add (pixelAt toSlice a y) (Slice.xStride toSlice))
        with (pixelAt toSlice (a + 1) y)
        by (unfold pixelAt, Ptr.add; cbn [Ptr.blk Ptr.off]; f_equal; lia).
      apply IH. lia. }
  destruct (Z_lt_le_dec b a) as [Hlt|Hle].
  - rewrite zrange_nil by exact Hlt. reflexivity.
  - apply (G (Z.to_nat (b - a + 1))). lia.
Qed.

Lemma fold_left_flat_map {A B C : Type} (f : A -> C -> A) (g : B -> list C) l :
  forall m,
  fold_left f (flat_map g l) m = fold_left (fun m' y => fold_left f (g y) m') l m.
Proof.
  induction l as [|y l IH]; intros m; simpl; [reflexivity|].
  rewrite fold_left_app. apply IH.
Qed.

Lemma fold_left_map {A B C : Type} (f : A -> C -> A) (h : B -> C) l :
  forall m, fold_left f (map h l) m = fold_left (fun m' x => f m' (h x)) l m.
Proof.
  induction l as [|x l IH]; intros m; simpl; [reflexivity|]. apply IH.
Qed.

Lemma fold_left_ext {A B : Type} (f g : A -> B -> A) l :
  (forall m x, f m x = g m x) -> forall m, fold_left f l m = fold_left g l m.
Proof.
  intros H. induction l as [|x l IH]; intros m; simpl; [reflexivity|].
  rewrite H. apply IH.
Qed.

Section CopyPixels.

Variables (size : Z) (fromSlice toSlice : Slice.t).
Hypothesis size_nonneg : 0 <= size.
Hypothesis blocks_differ :
  Ptr.blk (Slice.base fromSlice) <> Ptr.blk (Slice.base toSlice).

Lemma copyRows_pixels lr y1 y2 m :
  fold_left (copyScanLine size fromSlice toSlice lr) (zrange y1 y2) m
  = copyPixels size fromSlice toSlice
      (rowPixels lr y1 y2) m.
Proof.
  unfold copyPixels, rowPixels. rewrite fold_left_flat_map. apply fold_left_ext.
  intros m' y. rewrite copyScanLine_index. rewrite fold_left_map. reflexivity.
Qed.

Lemma in_pixels lr y1 y2 x y :
  In (x, y) (rowPixels lr y1 y2) <-> inRows lr y1 y2 x y.
Proof.
  unfold rowPixels. rewrite in_flat_map. unfold inRows. split.
  - intros (y' & Hy & Hin). apply in_map_iff in Hin.
    destruct Hin as (x' & [= <- <-] & Hx).
    apply in_zrange in Hy. apply in_zrange in Hx. split; assumption.
  - intros [Hx Hy]. exists y. split; [apply in_zrange; exact Hy|].
    apply in_map_iff. exists x. split; [reflexivity | apply in_zrange; exact Hx].
Qed.

Lemma copyPixels_source cs : forall m o,
  copyPixels size fromSlice toSlice cs m (Ptr.blk (Slice.base fromSlice)) o
  = m (Ptr.blk (Slice.base fromSlice)) o.
Proof.
  unfold copyPixels.
  induction cs as [|c cs IH]; intros m o; simpl; [reflexivity|].
  rewrite IH. apply copyPixel_other_block. exact blocks_differ.
Qed.

Lemma copyPixels_miss cs : forall m o,
  (forall c i, In c cs -> 0 <= i < size ->
               o <> byteOffset toSlice (fst c) (snd c) i) ->
  copyPixels size fromSlice toSlice cs m (Ptr.blk (Slice.base toSlice)) o
  = m (Ptr.blk (Slice.base toSlice)) o.
Proof.
  unfold copyPixels.
  induction cs as [|c cs IH]; intros m o Hmiss; simpl; [reflexivity|].
  rewrite IH by (intros c' i Hin Hi; apply Hmiss; [right; exact Hin | exact Hi]).
  rewrite copyPixel_bytes by (try exact size_nonneg; exact blocks_differ).
  unfold pixelAt, Ptr.add. cbn [Ptr.blk Ptr.off].
  rewrite Pos.eqb_refl. cbn [andb].
  set (t := Ptr.off (Slice.base toSlice)
            + (snd c * Slice.yStride toSlice + fst c * Slice.xStride toSlice)).
  destruct (Z.leb_spec t o) as [Hlo|]; cbn [andb]; [|reflexivity].
  destruct (Z.ltb_spec o (t + size)) as [Hhi|]; [|reflexivity].
  exfalso. apply (Hmiss c (o - t)); [left; reflexivity | lia |].
  unfold byteOffset. subst t. lia.
Qed.

Lemma copyPixels_hit cs : forall m x y i,
  (forall c c' j j', In c cs -> In c' cs -> 0 <= j < size -> 0 <= j' < size ->
     byteOffset toSlice (fst c) (snd c) j = byteOffset toSlice (fst c') (snd c') j' ->
     c = c') ->
  In (x, y) cs -> 0 <= i < size ->
  copyPixels size fromSlice toSlice cs m (Ptr.blk (Slice.base toSlice))
             (byteOffset toSlice x y i)
  = m (Ptr.blk (Slice.base fromSlice)) (byteOffset fromSlice x y i).
Proof.
  induction cs as [|c cs IH] using rev_ind; intros m x y i Hapart Hin Hi;
    [destruct Hin|].
  unfold copyPixels. rewrite fold_left_app. cbn [fold_left].
  fold (copyPixels size fromSlice toSlice cs m).
  rewrite copyPixel_bytes by (try exact size_nonneg; exact blocks_differ).
  unfold pixelAt at 1 2 3 5. unfold Ptr.add. cbn [Ptr.blk Ptr.off].
  rewrite Pos.eqb_refl. cbn [andb].
  set (t := Ptr.off (Slice.base toSlice)
            + (snd c * Slice.yStride toSlice + fst c * Slice.xStride toSlice)).
  set (o := byteOffset toSlice x y i).
  destruct (Z.leb_spec t o) as [Hlo|Hlo]; cbn [andb].
  - destruct (Z.ltb_spec o (t + size)) as [Hhi|Hhi].
    + assert (Hc : (x, y) = c).
      { apply (Hapart (x, y) c i (o - t)); try assumption.
        - apply in_or_app. right. left. reflexivity.
        - lia.
        - cbn [fst snd]. fold o. unfold byteOffset. subst t. lia. }
      subst c. rewrite copyPixels_source. unfold pixelAt, Ptr.add.
      cbn [Ptr.blk Ptr.off fst snd]. f_equal.
      subst o t. unfold byteOffset. cbn [fst snd]. lia.
    + apply IH; try assumption.
      * intros c1 c2 j j' H1 H2. apply Hapart; apply in_or_app; left; assumption.
      * apply in_app_or in Hin. destruct Hin as [Hin|[Hc|[]]]; [exact Hin|].
        exfalso. subst o t. subst c. unfold byteOffset in *.
        cbn [fst snd] in *. lia.
  - apply IH; try assumption.
    + intros c1 c2 j j' H1 H2. apply Hapart; apply in_or_app; left; assumption.
    + apply in_app_or in Hin. destruct Hin as [Hin|[Hc|[]]]; [exact Hin|].
      exfalso. subst o t. subst c. unfold byteOffset in *.
      cbn [fst snd] in *. lia.
Qed.

End CopyPixels.

Lemma copyPixels_other_block size fromSlice toSlice cs b o : forall m,
  b <> Ptr.blk (Slice.base toSlice) ->
  copyPixels size fromSlice toSlice cs m b o = m b o.
Proof.
  unfold copyPixels.
  induction cs as [|c cs IH]; intros m Hb; simpl; [reflexivity|].
  rewrite IH by exact Hb. apply copyPixel_other_block. exact Hb.
Qed.

Lemma elementSize_nonneg ty sz : elementSize ty = Some sz -> 0 <= sz.
Proof. destruct ty; simpl; intros [= <-]; lia. Qed.

(** A channel whose copy ends normally has a slice of a recognised type in
    the target frame buffer, and the copy is that of the pixels of the
    rows, one after the other. *)
Lemma copyChannel_Ok_inv oldBuffer lr y1 y2 k w u w1 :
  copyChannel oldBuffer lr y1 y2 k w = Ok u w1 ->
  exists toSlice sz,
    find (fst k) oldBuffer = Some toSlice /\
    elementSize (Slice.type toSlice) = Some sz /\
    w1 = set_bytes (copyPixels sz (snd k) toSlice (rowPixels lr y1 y2)
                               (Heap.bytes (heap w))) w.
Proof.
  unfold copyChannel, FrameBuffer_at, bind, pixelTypeSize.
  destruct (find (fst k) oldBuffer) as [s|]; simpl; [|discriminate].
  destruct (elementSize (Slice.type s)) as [sz|] eqn:Hsz; simpl; [|discriminate].
  unfold modify. intros [= _ Hw]. exists s, sz.
  split; [reflexivity|]. split; [exact Hsz|].
  rewrite <- Hw. rewrite copyRows_pixels. reflexivity.
Qed.

Lemma sourcesApart_tail oldBuffer k cb :
  sourcesApart oldBuffer (k :: cb) -> sourcesApart oldBuffer cb.
Proof.
  intros H n s n' s' Hin Hf.
  apply (H n s n' s'); [right; exact Hin | exact Hf].
Qed.

Lemma targetsApart_tail oldBuffer k cb lr y1 y2 :
  targetsApart oldBuffer (k :: cb) lr y1 y2 -> targetsApart oldBuffer cb lr y1 y2.
Proof.
  intros H n s sz x y i n' s' sz' x' y' i' Hn Hn'.
  apply (H n s sz x y i n' s' sz' x' y' i'); right; assumption.
Qed.

(** A byte that is in no pixel of the rows of any target slice is left as
    it was by the copy of the channels. *)
Lemma copyChannels_miss oldBuffer lr y1 y2 b o : forall cb w w',
  sourcesApart oldBuffer cb ->
  (forall n fromSlice toSlice sz x y i,
     In (n, fromSlice) cb -> find n oldBuffer = Some toSlice ->
     elementSize (Slice.type toSlice) = Some sz ->
     inRows lr y1 y2 x y -> 0 <= i < sz ->
     b = Ptr.blk (Slice.base toSlice) -> o <> byteOffset toSlice x y i) ->
  forEach (copyChannel oldBuffer lr y1 y2) cb w = Ok tt w' ->
  Heap.bytes (heap w') b o = Heap.bytes (heap w) b o.
Proof.
  induction cb as [|[n0 from0] cb IH]; intros w w' Hsrc Hmiss H.
  - simpl in H. injection H as <-. reflexivity.
  - cbn [forEach] in H.
    destruct (copyChannel oldBuffer lr y1 y2 (n0, from0) w) as [[] w1|e w1] eqn:Hk;
      [rewrite (bind_Ok _ _ _ _ _ Hk) in H
      |rewrite (bind_Throw _ _ _ _ _ Hk) in H; discriminate].
    apply copyChannel_Ok_inv in Hk. cbn [fst snd] in Hk.
    destruct Hk as (to0 & sz0 & Hfind & Hsz & Hw1).
    rewrite (IH w1 w' (sourcesApart_tail _ _ _ Hsrc)); [| |exact H].
    + subst w1. cbn [set_bytes set_heap heap Heap.bytes].
      destruct (Pos.eq_dec b (Ptr.blk (Slice.base to0))) as [->|Hb].
      * apply copyPixels_miss.
        -- apply (elementSize_nonneg _ _ Hsz).
        -- apply (Hsrc n0 from0 n0 to0); [left; reflexivity | exact Hfind].
        -- intros [x y] i Hin Hi. cbn [fst snd].
           apply (Hmiss n0 from0 to0 sz0); try assumption.
           ++ left. reflexivity.
           ++ apply in_pixels. exact Hin.
           ++ reflexivity.
      * apply copyPixels_other_block. exact Hb.
    + intros n fromSlice toSlice sz x y i Hin.
      apply (Hmiss n fromSlice toSlice sz x y i). right. exact Hin.
Qed.

Lemma copyChannels_copy oldBuffer lr y1 y2 : forall cb w w',
  NoDup (names cb) ->
  sourcesApart oldBuffer cb ->
  targetsApart oldBuffer cb lr y1 y2 ->
  forEach (copyChannel oldBuffer lr y1 y2) cb w = Ok tt w' ->
  forall name fromSlice toSlice sz x y i,
    In (name, fromSlice) cb ->
    find name oldBuffer = Some toSlice ->
    elementSize (Slice.type toSlice) = Some sz ->
    inRows lr y1 y2 x y -> 0 <= i < sz ->
    Heap.bytes (heap w') (Ptr.blk (Slice.base toSlice)) (byteOffset toSlice x y i)
    = Heap.bytes (heap w) (Ptr.blk (Slice.base fromSlice))
                 (byteOffset fromSlice x y i).
Proof.
  induction cb as [|[n0 from0] cb IH];
    intros w w' Hnd Hsrc Htgt H name fromSlice toSlice sz x y i Hin Hfind Hsz Hxy Hi;
    [destruct Hin|].
  cbn [forEach] in H.
  destruct (copyChannel oldBuffer lr y1 y2 (n0, from0) w) as [[] w1|e w1] eqn:Hk;
    [rewrite (bind_Ok _ _ _ _ _ Hk) in H
    |rewrite (bind_Throw _ _ _ _ _ Hk) in H; discriminate].
  apply copyChannel_Ok_inv in Hk. cbn [fst snd] in Hk.
  destruct Hk as (to0 & sz0 & Hfind0 & Hsz0 & Hw1).
  unfold names in Hnd. cbn [map fst] in Hnd.
  apply NoDup_cons_iff in Hnd. destruct Hnd as [Hfresh Hnd].
  destruct Hin as [[= <- <-]|Hin].
  - rewrite Hfind in Hfind0. injection Hfind0 as <-.
    rewrite Hsz in Hsz0. injection Hsz0 as <-.
    rewrite (copyChannels_miss oldBuffer lr y1 y2 _ _ cb w1 w'
               (sourcesApart_tail _ _ _ Hsrc)); [| |exact H].
    + subst w1. cbn [set_bytes set_heap heap Heap.bytes].
      apply copyPixels_hit.
      * apply (elementSize_nonneg _ _ Hsz).
      * apply (Hsrc n0 from0 n0 toSlice); [left; reflexivity | exact Hfind].
      * intros [cx cy] [cx' cy'] j j' Hc Hc' Hj Hj' Heq. cbn [fst snd] in Heq.
        apply in_pixels in Hc. apply in_pixels in Hc'.
        destruct (Htgt n0 toSlice sz cx cy j n0 toSlice sz cx' cy' j')
          as (_ & -> & ->); try assumption; try reflexivity;
          left; reflexivity.
      * apply in_pixels. exact Hxy.
      * exact Hi.
    + intros n fromSlice' toSlice' sz' x' y' i' Hin' Hfind' Hsz' Hxy' Hi' Hblk Heq.
      apply Hfresh.
      destruct (Htgt n0 toSlice sz x y i n toSlice' sz' x' y' i')
        as (-> & _ & _); try assumption.
      * left. reflexivity.
      * right. apply in_map_iff. exists (n, fromSlice'). split; [reflexivity|exact Hin'].
      * apply in_map_iff. exists (n, fromSlice'). split; [reflexivity|exact Hin'].
  - rewrite (IH w1 w' Hnd (sourcesApart_tail _ _ _ Hsrc)
               (targetsApart_tail _ _ _ _ _ _ Htgt) H
               name fromSlice toSlice sz x y i Hin Hfind Hsz Hxy Hi).
    subst w1. cbn [set_bytes set_heap heap Heap.bytes].
    apply copyPixels_other_block.
    apply (Hsrc name fromSlice n0 to0); [right; exact Hin | exact Hfind0].
Qed.

(** X12.  What a copy phase that ends normally has copied.  Suppose that
    the cached buffer has no channel twice, that none of its arrays is an
    array of the target frame buffer, and that the pixels which the target
    slices address in the scan lines [minYThisRow .. maxYThisRow] do not
    overlap.  Then for every cached channel, every column of the level's
    data window, every one of those scan lines and every byte of the
    pixel, the byte at the pixel's address in the target slice is after
    the copy phase the byte that was at the pixel's address in the cached
    slice before it. *)
Theorem copyPhase_copies_cached_rows
    (oldBuffer : FrameBuffer) (minYThisRow maxYThisRow : Z) (w w' : World)
    (f : TiledInputFile.t) (cb : FrameBuffer) :
  Data.tFile (ifd w) = Some f ->
  Data.cachedBuffer (ifd w) = Some cb ->
  NoDup (names cb) ->
  sourcesApart oldBuffer cb ->
  targetsApart oldBuffer cb (TiledInputFile.dataWindowForLevel f 0)
               minYThisRow maxYThisRow ->
  copyPhase oldBuffer minYThisRow maxYThisRow w = Ok tt w' ->
  forall name fromSlice toSlice sz x y i,
    In (name, fromSlice) cb ->
    find name oldBuffer = Some toSlice ->
    elementSize (Slice.type toSlice) = Some sz ->
    inRows (TiledInputFile.dataWindowForLevel f 0) minYThisRow maxYThisRow x y ->
    0 <= i < sz ->
    Heap.bytes (heap w') (Ptr.blk (Slice.base toSlice)) (byteOffset toSlice x y i)
    = Heap.bytes (heap w) (Ptr.blk (Slice.base fromSlice))
                 (byteOffset fromSlice x y i).
Proof.
  intros Hf Hcb Hnd Hsrc Htgt H.
  unfold copyPhase, bind, getTFile, getCachedBuffer in H.
  rewrite Hf, Hcb in H.
  exact (copyChannels_copy oldBuffer _ minYThisRow maxYThisRow cb w w'
           Hnd Hsrc Htgt H).
Qed.

Lemma copyPhase_copies_cached_rows_witness :
  Heap.bytes (heap (finalWorld (copyPhase fbR 0 3 sampleCached))) 1%positive
             (byteOffset (Slice.mk HALF (Ptr.mk 1%positive 0) 2 2) 0 1 0)
  = Heap.bytes (heap sampleCached) 3%positive
               (byteOffset (Slice.mk HALF (Ptr.mk 3%positive 0) 2 2) 0 1 0).
Proof.
  destruct (copyPhase fbR 0 3 sampleCached) as [[] w'|e w'] eqn:Hr.
  - cbn [finalWorld].
    apply (copyPhase_copies_cached_rows fbR 0 3 sampleCached w'
             (TiledInputFile.setFrameBuffer fbR (sampleTiled (decodeConst x2a)))
             [("R", Slice.mk HALF (Ptr.mk 3%positive 0) 2 2)])
      with (name := "R") (sz := 2)
           (fromSlice := Slice.mk HALF (Ptr.mk 3%positive 0) 2 2)
           (toSlice := Slice.mk HALF (Ptr.mk 1%positive 0) 2 2).
    + vm_compute. reflexivity.
    + vm_compute. reflexivity.
    + repeat constructor. simpl. intuition.
    + intros n s n' s' [[= <- <-]|[]] Hf. unfold fbR in Hf. simpl in Hf.
      destruct (String.eqb n' "R"); [|discriminate].
      injection Hf as <-. simpl. discriminate.
    + intros n s sz x y i n' s' sz' x' y' i' [<-|[]] [<-|[]] Hs Hs'.
      vm_compute in Hs. vm_compute in Hs'.
      injection Hs as <-. injection Hs' as <-.
      intros [= <-] [= <-]. unfold inRows, byteOffset.
      cbn [TiledInputFile.dataWindowForLevel TiledInputFile.setFrameBuffer
           sampleTiled Box2i.min_x Box2i.max_x Slice.base Slice.xStride
           Slice.yStride Ptr.off Ptr.blk].
      intros Hxy Hxy' Hi Hi' _ Heq. split; [reflexivity|]. lia.
    + exact Hr.
    + left. reflexivity.
    + reflexivity.
    + reflexivity.
    + unfold inRows. vm_compute. intuition discriminate.
    + lia.
  - exfalso. vm_compute in Hr. discriminate.
Defined.

(** ** The arrays of a session *)

Lemma in_insert_fresh {A} name (a : A) m k :
  ~ In name (names m) ->
  (In k (insert name a m) <-> k = (name, a) \/ In k m).
Proof.
  induction m as [|[n' a'] rest IH]; intros Hfresh; simpl.
  - intuition.
  - destruct (String.compare name n') eqn:Hc.
    + apply String.compare_eq_iff in Hc. subst n'.
      exfalso. apply Hfresh. left. reflexivity.
    + simpl. intuition.
    + simpl. rewrite IH by (intros H; apply Hfresh; right; exact H). intuition.
Qed.

Lemma NoDup_names_insert {A} name (a : A) m :
  ~ In name (names m) -> NoDup (names m) -> NoDup (names (insert name a m)).
Proof.
  induction m as [|[n' a'] rest IH]; intros Hfresh Hnd; simpl.
  - constructor; [intros [] | constructor].
  - destruct (String.compare name n') eqn:Hc.
    + apply String.compare_eq_iff in Hc. subst n'.
      exfalso. apply Hfresh. left. reflexivity.
    + simpl. constructor; assumption.
    + simpl. simpl in Hnd. apply NoDup_cons_iff in Hnd. destruct Hnd as [Hn' Hnd].
      constructor.
      * intros Hin. apply in_names_insert in Hin. destruct Hin as [->|Hin].
        -- apply Hfresh. left. reflexivity.
        -- apply Hn'. exact Hin.
      * apply IH; [|exact Hnd]. intros H. apply Hfresh. right. exact H.
Qed.

Lemma deleteSlice_other o s h b :
  Ptr.blk (Slice.base s) <> b ->
  Heap.live (deleteSlice o s h) b = Heap.live h b.
Proof.
  intros Hb. unfold deleteSlice, delete_array, Ptr.add.
  destruct (Slice.type s); try reflexivity; cbn [Ptr.off Ptr.blk];
    destruct (Z.eqb _ 0); try reflexivity; cbn [Heap.live];
    destruct (Pos.eqb_spec b (Ptr.blk (Slice.base s))); congruence.
Qed.

Lemma deleteSlices_other o cb b : forall h,
  (forall k, In k cb -> Ptr.blk (Slice.base (snd k)) <> b) ->
  Heap.live (deleteSlices o cb h) b = Heap.live h b.
Proof.
  induction cb as [|k cb IH]; intros h Hb; [reflexivity|].
  simpl. rewrite IH by (intros k' Hk'; apply Hb; right; exact Hk').
  apply deleteSlice_other. apply Hb. left. reflexivity.
Qed.

(** Releasing the cached buffer leaves live only what was live when the
    session started, and leaves the arrays of before as they were. *)
Lemma release_sessionHeap h0 w :
  cacheWf w -> sessionHeap h0 w ->
  let h' := heap (releaseCachedBuffer w) in
  (forall b, Heap.live h' b = true -> Heap.live h0 b = true) /\
  (forall b, (b < Heap.next h0)%positive -> Heap.live h' b = Heap.live h0 b) /\
  Heap.next h' = Heap.next (heap w).
Proof.
  intros Hwf (Hlive & Hnew & Hold & Hnext). cbv zeta.
  unfold releaseCachedBuffer, cacheWf, cacheBlocks in *. simpl.
  destruct (Data.cachedBuffer (ifd w)) as [cb|].
  - rewrite Forall_forall in Hwf. split; [|split].
    + intros b Hb. pose proof (deleteSlices_live_mono _ _ _ _ Hb) as Hb'.
      destruct (Hlive b Hb') as [H|H]; [exact H|].
      apply in_map_iff in H. destruct H as (k & <- & Hin).
      rewrite deleteSlices_frees in Hb; [discriminate | | exact Hin].
      apply Forall_forall. intros k' Hk'. apply (Hwf k' Hk').
    + intros b Hb. rewrite deleteSlices_other; [apply Hold; exact Hb|].
      intros k Hk He.
      assert (Hle : (Heap.next h0 <= b)%positive).
      { apply Hnew. apply in_map_iff. exists k. split; [exact He | exact Hk]. }
      lia.
    + apply deleteSlices_frame.
  - split; [|split].
    + intros b Hb. destruct (Hlive b Hb) as [H|[]]. exact H.
    + exact Hold.
    + reflexivity.
Qed.

Lemma session_of_obs h0 w w' :
  sessionObs w' = sessionObs w ->
  sessionHeap h0 w /\ uniqueNames w -> sessionHeap h0 w' /\ uniqueNames w'.
Proof.
  unfold sessionObs, sessionHeap, uniqueNames, cacheBlocks.
  intros [= -> -> -> ->]. auto.
Qed.

Lemma allocSlices_session h0 tileRowSize lw oldBuffer : forall w cb0,
  Data.cachedBuffer (ifd w) = Some cb0 ->
  NoDup (names oldBuffer) ->
  (forall n, In n (names oldBuffer) -> ~ In n (names cb0)) ->
  NoDup (names cb0) ->
  sessionHeap h0 w ->
  let w' := finalWorld (allocSlices tileRowSize lw oldBuffer w) in
  sessionHeap h0 w' /\
  (exists cb, Data.cachedBuffer (ifd w') = Some cb /\ NoDup (names cb)) /\
  Data.tFile (ifd w') = Data.tFile (ifd w).
Proof.
  induction oldBuffer as [|[name s] rest IH]; intros w cb0 Hc Hnd Hfresh Hnd0 Hs.
  - simpl. split; [exact Hs|]. split; [|reflexivity]. exists cb0. auto.
  - simpl in Hnd. apply NoDup_cons_iff in Hnd. destruct Hnd as [Hname Hnd].
    assert (Hfresh0 : ~ In name (names cb0)) by (apply Hfresh; left; reflexivity).
    assert (Hstep : forall ty sz,
      let w' := finalWorld ((allocSlice name ty sz tileRowSize lw ;;
                             allocSlices tileRowSize lw rest) w) in
      sessionHeap h0 w' /\
      (exists cb, Data.cachedBuffer (ifd w') = Some cb /\ NoDup (names cb)) /\
      Data.tFile (ifd w') = Data.tFile (ifd w)).
    { intros ty sz.
      erewrite bind_Ok by (apply allocSlice_eq; exact Hc).
      match goal with |- context [allocSlices _ _ _ ?w1] =>
        specialize (IH w1 _ eq_refl Hnd); set (w1' := w1) in *
      end.
      cbv zeta in IH |- *. apply IH.
      - intros n Hn Hin. apply in_names_insert in Hin. destruct Hin as [->|Hin].
        + apply Hname. exact Hn.
        + apply (Hfresh n); [right; exact Hn | exact Hin].
      - apply NoDup_names_insert; assumption.
      - destruct Hs as (Hlive & Hnew & Hold & Hnext).
        unfold sessionHeap, cacheBlocks in *. rewrite Hc in Hlive, Hnew.
        unfold w1'. cbn [ifd heap set_ifd set_heap Data.set_cachedBuffer
                         Data.cachedBuffer new_array snd Heap.live Heap.next].
        split; [|split; [|split]].
        + intros b Hb. destruct (Pos.eq_dec b (Heap.next (heap w))) as [Heq|Hne].
          * right. apply in_map_iff. eexists. split; [|apply in_insert_fresh;
              [exact Hfresh0 | left; reflexivity]]. symmetry. exact Heq.
          * rewrite (proj2 (Pos.eqb_neq _ _) Hne) in Hb.
            destruct (Hlive b Hb) as [H|H]; [left; exact H|].
            right. apply in_map_iff in H. destruct H as (k & <- & Hin).
            apply in_map_iff. exists k. split; [reflexivity|].
            apply in_insert_fresh; [exact Hfresh0 | right; exact Hin].
        + intros b Hb. apply in_map_iff in Hb. destruct Hb as (k & <- & Hin).
          apply in_insert_fresh in Hin; [|exact Hfresh0].
          destruct Hin as [->|Hin].
          * cbn [snd Slice.base Ptr.blk]. exact Hnext.
          * apply Hnew. apply in_map_iff. exists k. auto.
        + intros b Hb. rewrite <- Hold by exact Hb.
          destruct (Pos.eqb_spec b (Heap.next (heap w))); [lia | reflexivity].
        + lia. }
    simpl. destruct (Slice.type s).
    + apply Hstep.
    + apply Hstep.
    + apply Hstep.
    + simpl. split; [exact Hs|]. split; [|reflexivity]. exists cb0. auto.
Qed.

Lemma install_session h0 fb w :
  NoDup (names fb) ->
  sessionHeap h0 w /\ uniqueNames w ->
  let w' := finalWorld (tFile_setFrameBuffer fb w) in
  sessionHeap h0 w' /\ uniqueNames w'.
Proof.
  intros Hnd (Hs & Hu). cbv zeta.
  destruct (Data.tFile (ifd w)) as [f|] eqn:Hf.
  - rewrite (tFile_setFrameBuffer_eq _ _ _ Hf). cbn [finalWorld].
    split; [exact Hs|]. unfold uniqueNames in *. simpl. split; [exact Hnd|].
    apply Hu.
  - unfold tFile_setFrameBuffer, bind, getTFile. rewrite Hf. simpl. auto.
Qed.

Lemma fillCache_session h0 oldBuffer tileRowSize tileRange j w f :
  Data.tFile (ifd w) = Some f -> cacheWf w -> NoDup (names oldBuffer) ->
  sessionHeap h0 w /\ uniqueNames w ->
  let w' := finalWorld (fillCache oldBuffer tileRowSize tileRange j w) in
  sessionHeap h0 w' /\ uniqueNames w'.
Proof.
  intros Hf Hwf Hnd (Hs & Hu). cbv zeta.
  rewrite (fillCache_unfold _ _ _ _ _ _ Hf).
  set (w2 := afterRelease f tileRange j w).
  set (lw := TiledInputFile.levelWidth f 0).
  assert (Hs2 : sessionHeap h0 w2).
  { destruct (release_sessionHeap h0 w Hwf Hs) as (Hl & Ho & Hn).
    destruct Hs as (_ & _ & _ & Hnext).
    assert (Hh2 : heap w2 = heap (releaseCachedBuffer w)) by reflexivity.
    assert (Hc2 : Data.cachedBuffer (ifd w2) = Some []) by reflexivity.
    unfold sessionHeap, cacheBlocks. rewrite Hh2, Hc2.
    split; [intros b Hb; left; apply Hl; exact Hb|].
    split; [intros b []|]. split; [exact Ho|].
    rewrite Hn. exact Hnext. }
  assert (Hf2 : Data.tFile (ifd w2) = Some f) by exact Hf.
  destruct (allocSlices_session h0 tileRowSize lw oldBuffer w2 [] eq_refl Hnd)
    as (Hs3 & (cb3 & Hcb3 & Hnd3) & Hf3);
    [intros n _ [] | constructor | exact Hs2 |].
  rewrite finalWorld_bind.
  destruct (allocSlices tileRowSize lw oldBuffer w2) as [[] w3|e w3];
    cbn [finalWorld] in Hs3, Hcb3, Hf3.
  - rewrite Hf2 in Hf3.
    assert (Hrest : (cb <- getCachedBuffer ;;
                     tFile_setFrameBuffer cb ;; readTileRow j) w3
                    = readTileRow j
                        (set_ifd (Data.set_tFile
                                    (Some (TiledInputFile.setFrameBuffer cb3 f))
                                    (ifd w3)) w3)).
    { unfold bind at 1. unfold getCachedBuffer. rewrite Hcb3.
      rewrite (bind_Ok _ _ _ _ _ (tFile_setFrameBuffer_eq cb3 _ _ Hf3)).
      reflexivity. }
    rewrite Hrest.
    apply (session_of_obs h0
             (set_ifd (Data.set_tFile (Some (TiledInputFile.setFrameBuffer cb3 f))
                                      (ifd w3)) w3)).
    + apply (keeps_readTileRow sessionObs). reflexivity.
    + split; [exact Hs3|]. unfold uniqueNames. simpl. rewrite Hcb3.
      split; exact Hnd3.
  - split; [exact Hs3|]. unfold uniqueNames in *. rewrite Hf3, Hcb3, Hf2.
    rewrite Hf in Hu. split; [apply Hu | exact Hnd3].
Qed.

Lemma rowBody_session h0 oldBuffer minY maxY tileRowSize j w :
  cacheWf w -> NoDup (names oldBuffer) ->
  sessionHeap h0 w /\ uniqueNames w ->
  let w' := finalWorld (rowBody oldBuffer minY maxY tileRowSize j w) in
  sessionHeap h0 w' /\ uniqueNames w'.
Proof.
  intros Hwf Hnd Hsu. cbv zeta.
  destruct (Data.tFile (ifd w)) as [f|] eqn:Hf.
  2:{ unfold rowBody, bind, getTFile. rewrite Hf. exact Hsu. }
  rewrite (rowBody_unfold _ _ _ _ _ _ _ Hf).
  set (tr := TiledInputFile.dataWindowForTile f 0 j 0).
  set (a := Z.max minY (Box2i.min_y tr)). set (b := Z.min maxY (Box2i.max_y tr)).
  pose proof (keeps_copyPhase sessionObs ltac:(reflexivity) oldBuffer a b) as Hk.
  destruct (negb (j =? Data.cachedTileY (ifd w))).
  - rewrite finalWorld_bind.
    pose proof (fillCache_session h0 oldBuffer tileRowSize tr j w f Hf Hwf Hnd Hsu)
      as H1.
    cbv zeta in H1.
    destruct (fillCache oldBuffer tileRowSize tr j w) as [[] w1|e w1];
      cbn [finalWorld] in H1.
    + apply (session_of_obs h0 w1); [apply Hk | exact H1].
    + exact H1.
  - apply (session_of_obs h0 w); [apply Hk | exact Hsu].
Qed.

Lemma rows_session h0 oldBuffer minY maxY tileRowSize rows : forall w,
  cacheWf w -> NoDup (names oldBuffer) ->
  sessionHeap h0 w /\ uniqueNames w ->
  let w' := finalWorld (forEach (rowBody oldBuffer minY maxY tileRowSize) rows w) in
  sessionHeap h0 w' /\ uniqueNames w'.
Proof.
  induction rows as [|j rows IH]; intros w Hwf Hnd Hsu; cbv zeta; [exact Hsu|].
  cbn [forEach]. rewrite finalWorld_bind.
  pose proof (rowBody_session h0 oldBuffer minY maxY tileRowSize j w Hwf Hnd Hsu)
    as H1.
  pose proof (rowBody_heap oldBuffer minY maxY tileRowSize j w Hwf) as (Hwf1 & _).
  cbv zeta in H1.
  destruct (rowBody oldBuffer minY maxY tileRowSize j w) as [[] w1|e w1];
    cbn [finalWorld] in H1, Hwf1.
  - apply IH; assumption.
  - exact H1.
Qed.

Lemma bufferedReadPixels_session h0 scanLine1 scanLine2 w :
  cacheWf w -> sessionHeap h0 w /\ uniqueNames w ->
  let w' := finalWorld (bufferedReadPixels scanLine1 scanLine2 w) in
  sessionHeap h0 w' /\ uniqueNames w'.
Proof.
  intros Hwf Hsu. cbv zeta.
  destruct (inWindow_dec (ifd w) scanLine1 scanLine2) as [Hin|Hout].
  2:{ rewrite bufferedReadPixels_out_of_window by assumption. exact Hsu. }
  destruct (Data.tFile (ifd w)) as [f|] eqn:Hf.
  - assert (Hnd : NoDup (names (TiledInputFile.frameBuffer f))).
    { destruct Hsu as (_ & Hu & _). rewrite Hf in Hu. exact Hu. }
    rewrite (bufferedReadPixels_unfold _ _ _ _ Hf Hin). rewrite finalWorld_bind.
    pose proof (rows_session h0 (TiledInputFile.frameBuffer f)
                  (Z.min scanLine1 scanLine2) (Z.max scanLine1 scanLine2)
                  (wrap (TiledInputFile.levelWidth f 0 * TiledInputFile.tileYSize f))
                  (tileRowOrder (ifd w) f scanLine1 scanLine2) w Hwf Hnd Hsu) as H.
    cbv zeta in H.
    destruct (forEach _ _ w) as [[] w1|e w1]; cbn [finalWorld] in H; [|exact H].
    apply install_session; assumption.
  - unfold bufferedReadPixels, bind, getTFile. rewrite Hf.
    destruct (_ || _); exact Hsu.
Qed.

Lemma setFrameBuffer_session h0 isTiled fb w :
  NoDup (names fb) -> sessionHeap h0 w /\ uniqueNames w ->
  let w' := finalWorld (InputFile_setFrameBuffer isTiled fb w) in
  sessionHeap h0 w' /\ uniqueNames w'.
Proof.
  intros Hnd Hsu. cbv zeta. unfold InputFile_setFrameBuffer.
  destruct (isTiled (Data.version (ifd w))).
  - rewrite finalWorld_bind. unfold modify at 1.
    apply install_session; [exact Hnd|].
    apply (session_of_obs h0 w); [|exact Hsu].
    unfold sessionObs. simpl.
    destruct (invalidateOnMismatch_cases
                (Header.channels (Data.header (ifd w))) fb (ifd w)) as [-> | ->];
      reflexivity.
  - apply (session_of_obs h0 w); [|exact Hsu].
    unfold sFile_setFrameBuffer. destruct (Data.sFile (ifd w)); reflexivity.
Qed.

Lemma runCall_session h0 isTiled c w :
  mapLike c -> cacheWf w -> sessionHeap h0 w /\ uniqueNames w ->
  let w' := finalWorld (runCall isTiled c w) in
  sessionHeap h0 w' /\ uniqueNames w'.
Proof.
  intros Hc Hwf Hsu. cbv zeta.
  assert (Hread : forall y1 y2,
            let w' := finalWorld (InputFile_readPixels isTiled y1 y2 w) in
            sessionHeap h0 w' /\ uniqueNames w').
  { intros y1 y2. cbv zeta. unfold InputFile_readPixels.
    destruct (isTiled (Data.version (ifd w))).
    - apply bufferedReadPixels_session; assumption.
    - apply (session_of_obs h0 w); [|exact Hsu].
      unfold sFile_readPixels. destruct (Data.sFile (ifd w)) as [f|]; [|reflexivity].
      destruct (ScanLineInputFile.decodeLines f _ _ _ _); reflexivity. }
  destruct c as [fb|y1 y2|y|]; cbn [runCall].
  - apply setFrameBuffer_session; assumption.
  - apply Hread.
  - apply Hread.
  - apply (session_of_obs h0 w); [|exact Hsu].
    rewrite finalWorld_bind. unfold InputFile_frameBuffer, bind, getTFile.
    destruct (isTiled (Data.version (ifd w))).
    + destruct (Data.tFile (ifd w)); reflexivity.
    + destruct (Data.sFile (ifd w)); reflexivity.
Qed.

Lemma runCalls_session h0 isTiled cs : forall w,
  Forall mapLike cs -> cacheWf w -> sessionHeap h0 w /\ uniqueNames w ->
  let w' := runCalls isTiled cs w in
  cacheWf w' /\ sessionHeap h0 w' /\ uniqueNames w'.
Proof.
  induction cs as [|c cs IH]; intros w Hcs Hwf Hsu; cbv zeta; [auto|].
  inversion Hcs as [|? ? Hc Hrest]; subst. cbn [runCalls]. apply IH.
  - exact Hrest.
  - destruct c as [fb|y1 y2|y|]; cbn [runCall].
    + apply cacheWf_setFrameBuffer. exact Hwf.
    + unfold InputFile_readPixels. destruct (isTiled (Data.version (ifd w))).
      * apply cacheWf_bufferedReadPixels. exact Hwf.
      * eapply cacheWf_of_state; [|exact Hwf]. unfold sFile_readPixels.
        destruct (Data.sFile (ifd w)) as [f|]; [|reflexivity].
        destruct (ScanLineInputFile.decodeLines f _ _ _ _); reflexivity.
    + unfold InputFile_readPixels1, InputFile_readPixels.
      destruct (isTiled (Data.version (ifd w))).
      * apply cacheWf_bufferedReadPixels. exact Hwf.
      * eapply cacheWf_of_state; [|exact Hwf]. unfold sFile_readPixels.
        destruct (Data.sFile (ifd w)) as [f|]; [|reflexivity].
        destruct (ScanLineInputFile.decodeLines f _ _ _ _); reflexivity.
    + eapply cacheWf_of_state; [|exact Hwf].
      rewrite finalWorld_bind. unfold InputFile_frameBuffer, bind, getTFile.
      destruct (isTiled (Data.version (ifd w))).
      * destruct (Data.tFile (ifd w)); reflexivity.
      * destruct (Data.sFile (ifd w)); reflexivity.
  - apply runCall_session; assumption.
Qed.

(** X13.  A session frees what it allocated and nothing else.  Take a
    session that the constructor started on the heap [h], whose decoder
    starts with a frame buffer that has no name twice, and on which any
    calls of [setFrameBuffer], [readPixels] and [frameBuffer] were made,
    failed ones included, each frame buffer passed having no name twice.
    After the destructor of [Data] has run, every array that is live was
    live in [h], and every array allocated before the session is as live
    as it was in [h]: no array of the cached buffer outlives the session,
    and no array of the caller is released by it. *)
Theorem session_frees_what_it_allocated
    (isTiled : Z -> bool) (fileName : string) (hdr : Header.t) (version : Z)
    (tf : TiledInputFile.t) (sf : ScanLineInputFile.t) (h : Heap.t)
    (cs : list Call) :
  let w0 := mkWorld (InputFile_new isTiled fileName hdr version tf sf) h [] in
  let w := Data_delete (runCalls isTiled cs w0) in
  NoDup (names (TiledInputFile.frameBuffer tf)) ->
  Forall mapLike cs ->
  (forall b, Heap.live (heap w) b = true -> Heap.live h b = true) /\
  (forall b, (b < Heap.next h)%positive ->
             Heap.live (heap w) b = Heap.live h b) /\
  Data.cachedBuffer (ifd w) = None.
Proof.
  cbv zeta. intros Hnd Hcs.
  set (w0 := mkWorld (InputFile_new isTiled fileName hdr version tf sf) h []).
  assert (H0 : sessionHeap h w0 /\ uniqueNames w0).
  { unfold sessionHeap, uniqueNames, cacheBlocks, w0, InputFile_new.
    destruct (isTiled version); simpl.
    - repeat split; auto; try lia; try (intros b []).
    - repeat split; auto; try lia; try (intros b []). }
  destruct (runCalls_session h isTiled cs w0 Hcs
              (cacheWf_new isTiled fileName hdr version tf sf h) H0)
    as (Hwf & Hs & _).
  destruct (release_sessionHeap h _ Hwf Hs) as (Hl & Ho & _).
  split; [exact Hl|]. split; [exact Ho | reflexivity].
Qed.

Lemma session_frees_what_it_allocated_witness :
  let w := Data_delete
             (runCalls sampleIsTiled
                [CallSetFrameBuffer fbR; CallReadPixels 0 5; CallReadPixels1 9]
                (sampleWorld (decodeConst x2a))) in
  (forall b, Heap.live (heap w) b = true -> Heap.live sampleHeap b = true) /\
  (forall b, (b < Heap.next sampleHeap)%positive ->
             Heap.live (heap w) b = Heap.live sampleHeap b) /\
  Data.cachedBuffer (ifd w) = None.
Proof.
  apply (session_frees_what_it_allocated sampleIsTiled "sample.exr" sampleHeader
           512 (sampleTiled (decodeConst x2a)) sampleScan sampleHeap
           [CallSetFrameBuffer fbR; CallReadPixels 0 5; CallReadPixels1 9]).
  - simpl. constructor.
  - repeat constructor. simpl. intuition.
Defined.

(** ** The accessors on a session *)

(** X5.  On a session that the constructor made, whatever calls of
    [setFrameBuffer], [readPixels] and [frameBuffer] were made since,
    failed ones included: [fileName ()], [header ()] and [version ()]
    give what the constructor stored; [tFile ()] on a tiled file returns
    a decoder, never a null pointer, with the tile geometry of the decoder
    that the constructor created, and on a scan-line file it fails with an
    [ArgExc] whose message is the handler's words, the file name in double
    quotes and the mode error.  In both cases [tFile ()] leaves the state
    as it found it. *)
Theorem accessors_on_sessions
    (isTiled : Z -> bool) (fileName : string) (hdr : Header.t) (version : Z)
    (tf : TiledInputFile.t) (sf : ScanLineInputFile.t) (h : Heap.t)
    (cs : list Call) :
  let w0 := mkWorld (InputFile_new isTiled fileName hdr version tf sf) h [] in
  let w := runCalls isTiled cs w0 in
  InputFile_fileName w = fileName /\
  InputFile_header w = hdr /\
  InputFile_version w = version /\
  if isTiled version
  then exists f, InputFile_tFile isTiled w = Ok (Some f) w /\
                 geometryOf f = geometryOf tf
  else InputFile_tFile isTiled w
       = Throw (ArgExc (withFileName tileDataWords fileName notTiledError)) w.
Proof.
  cbv zeta.
  destruct (session_invariants_aux isTiled fileName hdr version tf sf h cs)
    as (Hs & _ & _ & Hmode).
  set (w0 := mkWorld (InputFile_new isTiled fileName hdr version tf sf) h []) in *.
  set (w := runCalls isTiled cs w0) in *.
  assert (Hn0 : Data.fileName (ifd w0) = fileName)
    by (unfold w0, InputFile_new; destruct (isTiled version); reflexivity).
  assert (Hh0 : Data.header (ifd w0) = hdr)
    by (unfold w0, InputFile_new; destruct (isTiled version); reflexivity).
  assert (Hv0 : Data.version (ifd w0) = version)
    by (unfold w0, InputFile_new; destruct (isTiled version); reflexivity).
  assert (Hn : Data.fileName (ifd w) = fileName)
    by (unfold staticPart in Hs; congruence).
  assert (Hh : Data.header (ifd w) = hdr)
    by (unfold staticPart in Hs; congruence).
  assert (Hv : Data.version (ifd w) = version)
    by (unfold staticPart in Hs; congruence).
  split; [exact Hn|]. split; [exact Hh|]. split; [exact Hv|].
  unfold InputFile_tFile, InputFile_fileName. rewrite Hv, Hn.
  destruct (isTiled version); cbn [negb].
  - destruct Hmode as (Hg & _).
    destruct (Data.tFile (ifd w)) as [f|]; [|discriminate].
    exists f. split; [reflexivity|]. simpl in Hg. congruence.
  - reflexivity.
Qed.
